(** * FantacalcioApp: scoring and season aggregation

    A shallow embedding of the scoring engine of the Fantacalcio season
    simulator ([src/player.py], [season.py], [loader.py] and the
    standardisation pass of [data/matchdayprocessor.py]) together with the
    properties the specification states about it.

    Conventions of the embedding.
    - Python integers are [Z]. Python floats are binary64 numbers, held as
      the rationals they denote ([Q]); every float operation gives the
      double nearest to its exact result, ties to the even mantissa,
      subnormal numbers included. Numeric equality [==] of Python is
      [Qeq]. NaN, the infinities, overflow and the sign of zero are outside
      the embedding. [round(x, 1)] is the double nearest to the one-decimal
      number nearest to [x], ties to the even digit.
    - A dictionary whose iteration order is never observed (the two
      per-matchday maps of a player, the raw statistics row) is a [gmap];
      a dictionary that is iterated ([Season.table],
      [SeasonTable.matchday_scores], the player universe of the
      standardiser) is an insertion-ordered association list.
    - Methods that mutate [self] take the object and return the new one;
      methods that can raise run in a small state-and-exception monad whose
      state survives the exception, as the attributes of a Python object do. *)

From Stdlib Require Import QArith Qround Qpower Qabs Lqa Sorting.Sorted Sorting.Permutation OrdersEx.
From stdpp Require Import base gmap strings list.

Open Scope Q_scope.
#[local] Set Warnings "-clear-no-such-hyp".

(** ** Numbers *)

(** Nearest integer, ties to the even neighbour. *)
Definition round_half_even (q : Q) : Z :=
  let f := Qfloor q in
  match Qcompare (q - inject_Z f) (1 # 2) with
  | Lt => f
  | Gt => (f + 1)%Z
  | Eq => if Z.even f then f else (f + 1)%Z
  end.

(** [floor(log2(abs q))] for a [q] other than 0. *)
Definition ilog2 (q : Q) : Z :=
  let k := (Z.log2 (Z.abs (Qnum q)) - Z.log2 (Zpos (Qden q)))%Z in
  if Qle_bool (2 ^ k) (Qabs q) then k else (k - 1)%Z.

(** The double nearest to [x], ties to the even mantissa: 53 bits of
    mantissa, least exponent -1074. *)
Definition fl (x : Q) : Q :=
  if Qeq_bool x 0 then 0
  else
    let e := Z.max (ilog2 x - 52) (-1074) in
    Qred (inject_Z (round_half_even (x / 2 ^ e)) * 2 ^ e).

(** The arithmetic of Python floats. An operand that is not a double
    stands for the double nearest to it, as a decimal literal does. *)
Definition fadd (x y : Q) : Q := fl (fl x + fl y).
Definition fsub (x y : Q) : Q := fl (fl x - fl y).
Definition fmul (x y : Q) : Q := fl (fl x * fl y).
Definition fdiv (x y : Q) : Q := fl (fl x / fl y).

Notation "x ⊕ y" := (fadd x y) (at level 50, left associativity).
Notation "x ⊖ y" := (fsub x y) (at level 50, left associativity).
Notation "x ⊗ y" := (fmul x y) (at level 40, left associativity).
Notation "x ⊘ y" := (fdiv x y) (at level 40, left associativity).

(** [float(n)] of an integer. *)
Definition float_of_int (n : Z) : Q := fl (inject_Z n).

(** [round(x, 1)]: the decimal expansion of [x] correctly rounded to one
    digit, read back as a double. *)
Definition py_round1 (x : Q) : Q := fl (round_half_even (fl x * 10) # 10).

(** [sum(xs)] of floats: left-to-right addition starting from the integer
    [0], one rounding per addition (CPython up to 3.11; later versions
    carry a compensation term). *)
Definition py_sum (xs : list Q) : Q := fold_left fadd xs 0.

(** ** Exceptions *)

Inductive exn : Type :=
| ValueError (msg : string)
| KeyError (key : string).

Inductive outcome (A : Type) : Type :=
| Return (a : A)
| Raise (e : exn).
Arguments Return {A} a.
Arguments Raise {A} e.

(** ** Insertion-ordered dictionaries *)

Section PyDict.
Context {K V : Type} `{EqDecision K}.

Definition pydict : Type := list (K * V).

(** [d.get(k)] *)
Fixpoint dict_get (k : K) (d : pydict) : option V :=
  match d with
  | [] => None
  | (k', v) :: d' => if decide (k = k') then Some v else dict_get k d'
  end.

(** [d[k] = v]: an existing key keeps its place, a new key goes last. *)
Fixpoint dict_set (k : K) (v : V) (d : pydict) : pydict :=
  match d with
  | [] => [(k, v)]
  | (k', v') :: d' =>
      if decide (k = k') then (k, v) :: d' else (k', v') :: dict_set k v d'
  end.

(** [k in d] *)
Definition dict_mem (k : K) (d : pydict) : bool := bool_decide (is_Some (dict_get k d)).

Definition dict_keys (d : pydict) : list K := d.*1.
Definition dict_values (d : pydict) : list V := d.*2.

End PyDict.
Arguments pydict : clear implicits.

(** ** Role *)

Module Role.

(** Modelled from the spec: [src/role.py] is missing; the specification gives
    the closed enumeration Goalkeeper, Defender, Midfielder, Forward, and
    [loader.py] constructs it from the values ['G'], ['D'], ['M'], ['F']. *)
Inductive t : Type := GOALKEEPER | DEFENDER | MIDFIELDER | FORWARD.

#[global] Instance eq_dec : EqDecision t.
Proof. solve_decision. Defined.

Definition value (r : t) : string :=
  match r with
  | GOALKEEPER => "G"
  | DEFENDER => "D"
  | MIDFIELDER => "M"
  | FORWARD => "F"
  end.

(** [Role(value)]: lookup by value, [ValueError] when no member has it. *)
Definition of_value (s : string) : outcome t :=
  if decide (s = "G") then Return GOALKEEPER
  else if decide (s = "D") then Return DEFENDER
  else if decide (s = "M") then Return MIDFIELDER
  else if decide (s = "F") then Return FORWARD
  else Raise (ValueError (s +:+ " is not a valid Role")).

End Role.

(** ** PlayerStats *)

Module PlayerStats.

(** Modelled from the spec: [src/playerstats.py] is missing; a plain record
    of the ten numeric fields, built by keyword in
    [Player.add_matchday_stats]. *)
Record t : Type := mk {
  rating : Q;
  gf : Q;
  gs : Q;
  rp : Q;
  rs : Q;
  rf : Q;
  au : Q;
  amm : Q;
  esp : Q;
  ass : Q
}.

End PlayerStats.

(** ** Player *)

Module Player.

Record t : Type := mk {
  cod : Z;
  role : Role.t;
  name : string;
  real_team : string;
  matchday_stats : gmap Z PlayerStats.t;
  matchday_fantavoto : gmap Z Q
}.

(** [Player(cod, role, name, team)]; [Role(role)] may raise. *)
Definition init (cod : Z) (role : string) (name team : string) : outcome t :=
  match Role.of_value role with
  | Raise e => Raise e
  | Return r => Return (mk cod r name team ∅ ∅)
  end.

(** [stats.get(key, 0)] on the numeric entries of a raw row. *)
Definition get_or_0 (stats : gmap string Q) (key : string) : Q :=
  default 0 (stats !! key).

Definition add_matchday_stats (self : t) (matchday : Z) (stats : gmap string Q) : t :=
  mk (cod self) (role self) (name self) (real_team self)
     (<[matchday := PlayerStats.mk
          (get_or_0 stats "Rating") (get_or_0 stats "Gf") (get_or_0 stats "Gs")
          (get_or_0 stats "Rp") (get_or_0 stats "Rs") (get_or_0 stats "Rf")
          (get_or_0 stats "Au") (get_or_0 stats "Amm") (get_or_0 stats "Esp")
          (get_or_0 stats "Ass")]> (matchday_stats self))
     (matchday_fantavoto self).

Definition get_stats (self : t) (matchday : Z) : option PlayerStats.t :=
  matchday_stats self !! matchday.

Definition calculate_fantavoto (self : t) (matchday : Z) : Q :=
  match get_stats self matchday with
  | None => 0
  | Some stats =>
      if Qeq_bool (PlayerStats.rating stats) 0 then 0
      else
        let fantavoto := PlayerStats.rating stats in
        let fantavoto := fantavoto ⊕ PlayerStats.gf stats ⊗ 3 in
        let fantavoto := fantavoto ⊕ PlayerStats.ass stats ⊗ 1 in
        let fantavoto := fantavoto ⊖ PlayerStats.rp stats ⊗ 3 in
        let fantavoto := fantavoto ⊕ PlayerStats.rs stats ⊗ 3 in
        let fantavoto := fantavoto ⊖ PlayerStats.amm stats ⊗ 0.5 in
        let fantavoto := fantavoto ⊖ PlayerStats.esp stats ⊗ 1 in
        let fantavoto := fantavoto ⊖ PlayerStats.au stats ⊗ 2 in
        let fantavoto :=
          if bool_decide (role self = Role.GOALKEEPER) && Qeq_bool (PlayerStats.gs stats) 0
          then fantavoto ⊕ 1 else fantavoto in
        let fantavoto :=
          if bool_decide (role self = Role.GOALKEEPER)
          then fantavoto ⊖ PlayerStats.gs stats ⊗ 1 else fantavoto in
        py_round1 fantavoto
  end.

Definition add_matchday_fantavoto (self : t) (matchday : Z) : t :=
  mk (cod self) (role self) (name self) (real_team self)
     (matchday_stats self)
     (<[matchday := calculate_fantavoto self matchday]> (matchday_fantavoto self)).

Definition has_played (self : t) (matchday : Z) : bool :=
  match get_stats self matchday with
  | None => false
  | Some stats => negb (Qle_bool (PlayerStats.rating stats) 0)
  end.

End Player.

(** ** State and exceptions *)

(** A computation over a mutable object of type [S]: it returns the object
    as the call left it, together with a value or the exception raised. *)
Definition M (S A : Type) : Type := S → S * outcome A.

#[global] Instance M_ret {S} : MRet (M S) := λ A a s, (s, Return a).
#[global] Instance M_bind {S} : MBind (M S) := λ A B k c s,
  match c s with
  | (s', Return a) => k a s'
  | (s', Raise e) => (s', Raise e)
  end.

Definition raise {S A} (e : exn) : M S A := λ s, (s, Raise e).
Definition gets {S A} (f : S → A) : M S A := λ s, (s, Return (f s)).
Definition modify {S} (f : S → S) : M S unit := λ s, (f s, Return tt).

(** [for x in xs: acc = body(x, acc)] *)
Fixpoint for_each {S A B} (xs : list A) (acc : B) (body : A → B → M S B) : M S B :=
  match xs with
  | [] => mret acc
  | x :: xs' => acc' ← body x acc; for_each xs' acc' body
  end.

(** ** Sorting and extrema *)

Section Sorting.
Context {A : Type} (le : A → A → bool).

(** [x] is put in front of the first element it does not exceed, so it stays
    ahead of the elements it ties with. *)
Fixpoint insert_sorted (x : A) (l : list A) : list A :=
  match l with
  | [] => [x]
  | y :: l' => if le x y then x :: y :: l' else y :: insert_sorted x l'
  end.

(** The stable sort of [list.sort] and [DataFrame.sort_values]; elements
    that compare equal keep their original order. *)
Definition stable_sort (l : list A) : list A := foldr insert_sorted [] l.

End Sorting.

Definition Qlt_bool (x y : Q) : bool := negb (Qle_bool y x).

(** [max(x :: xs, key=key)] and [min(x :: xs, key=key)]: the first element
    whose key is extremal. *)
Definition max_from {A} (key : A → Q) (x : A) (xs : list A) : A :=
  fold_left (λ best y, if Qlt_bool (key best) (key y) then y else best) xs x.
Definition min_from {A} (key : A → Q) (x : A) (xs : list A) : A :=
  fold_left (λ best y, if Qlt_bool (key y) (key best) then y else best) xs x.

Definition py_max {A} (key : A → Q) (l : list A) : outcome A :=
  match l with
  | [] => Raise (ValueError "max() arg is an empty sequence")
  | x :: xs => Return (max_from key x xs)
  end.
Definition py_min {A} (key : A → Q) (l : list A) : outcome A :=
  match l with
  | [] => Raise (ValueError "min() arg is an empty sequence")
  | x :: xs => Return (min_from key x xs)
  end.

(** ** Team *)

Module Team.

(** Modelled from the spec: [team.py] is missing; a team is a name, the
    roster codes and, once populated, the players. *)
Record t : Type := mk {
  name : string;
  player_codes : list Z;
  players : list Player.t
}.

(** Modelled from the spec: [Team.add_player] is missing; population attaches
    the player to the roster. *)
Definition add_player (self : t) (player : Player.t) : t :=
  mk (name self) (player_codes self) (players self ++ [player]).

(** Modelled from the spec: [Team.calculate_total_score] is missing; the sum
    of the fantavoto of every rostered player for the matchday, [0.0] for an
    empty roster. *)
Definition calculate_total_score (self : t) (matchday : Z) : Q :=
  py_sum ((λ p, Player.calculate_fantavoto p matchday) <$> players self).

End Team.

(** ** SeasonTable *)

Module SeasonTable.

Record t : Type := mk {
  team : Team.t;
  total_points : Q;
  matchday_scores : pydict Z Q;
  matchdays_played : Z
}.

Definition init (team : Team.t) : t := mk team 0 [] 0.

Definition add_matchday_score (self : t) (matchday : Z) (score : Q) : t :=
  let matchdays_played :=
    if negb (dict_mem matchday (matchday_scores self))
    then (matchdays_played self + 1)%Z else matchdays_played self in
  let matchday_scores := dict_set matchday score (matchday_scores self) in
  mk (team self) (py_sum (dict_values matchday_scores)) matchday_scores matchdays_played.

(** The dictionary returned by [get_stats]; ['position'] is absent until
    [Season.get_season_table] writes it. *)
Record stats : Type := mk_stats {
  s_team : string;
  s_total_points : Q;
  s_matchdays_played : Z;
  s_average_score : Q;
  s_best_score : Q;
  s_worst_score : Q;
  s_position : option Z
}.

Definition get_stats (self : t) : stats :=
  let avg_score := total_points self ⊘ float_of_int (Z.max (matchdays_played self) 1) in
  mk_stats (Team.name (team self))
    (py_round1 (total_points self))
    (matchdays_played self)
    (py_round1 avg_score)
    (match dict_values (matchday_scores self) with
     | [] => 0
     | v :: vs => max_from id v vs
     end)
    (match dict_values (matchday_scores self) with
     | [] => 0
     | v :: vs => min_from id v vs
     end)
    None.

Definition set_position (d : stats) (position : Z) : stats :=
  mk_stats (s_team d) (s_total_points d) (s_matchdays_played d)
    (s_average_score d) (s_best_score d) (s_worst_score d) (Some position).

End SeasonTable.

(** ** Season *)

Module Season.

Record t : Type := mk {
  name : string;
  teams : list Team.t;
  table : pydict string SeasonTable.t;
  current_matchday : Z;
  season_completed : bool
}.

Definition init (teams : list Team.t) (name : string) : t :=
  mk name teams
     (fold_left (λ table team, dict_set (Team.name team) (SeasonTable.init team) table)
                teams [])
     1 false.

Definition set_table (table : pydict string SeasonTable.t) (self : t) : t :=
  mk (name self) (teams self) table (current_matchday self) (season_completed self).

Definition set_current_matchday (n : Z) (self : t) : t :=
  mk (name self) (teams self) (table self) n (season_completed self).

(** [self.table[team_name].add_matchday_score(matchday, score)] *)
Definition table_add_matchday_score (team_name : string) (matchday : Z) (score : Q)
  : M t unit :=
  table ← gets table;
  match dict_get team_name table with
  | None => raise (KeyError team_name)
  | Some entry =>
      modify (set_table
        (dict_set team_name (SeasonTable.add_matchday_score entry matchday score) table))
  end.

Definition process_matchday (matchday : Z) : M t (pydict string Q) :=
  if bool_decide (38 < matchday)%Z || bool_decide (matchday < 1)%Z
  then raise (ValueError "Matchday must be between 1 and 38")
  else
    teams ← gets teams;
    matchday_scores ← for_each teams [] (λ team matchday_scores,
      let score := Team.calculate_total_score team matchday in
      let matchday_scores := dict_set (Team.name team) score matchday_scores in
      _ ← table_add_matchday_score (Team.name team) matchday score;
      mret matchday_scores);
    current ← gets current_matchday;
    _ ← (if bool_decide (matchday = current)
         then modify (set_current_matchday (current + 1)%Z)
         else mret tt);
    mret matchday_scores.

Definition get_season_table (self : t) : list SeasonTable.stats :=
  let table_data := SeasonTable.get_stats <$> dict_values (table self) in
  let table_data :=
    stable_sort (λ x y, Qle_bool (SeasonTable.s_total_points y) (SeasonTable.s_total_points x))
                table_data in
  imap (λ i team_data, SeasonTable.set_position team_data (Z.of_nat i + 1)%Z) table_data.

Record summary : Type := mk_summary {
  season_name : string;
  n_teams : Z;
  total_matchdays_processed : Z;
  average_score_per_matchday : Q;
  final_table : list SeasonTable.stats;
  champion : option string;
  champion_points : Q;
  highest_single_score : Q;
  highest_score_team : string;
  most_consistent_team : string;
  summary_season_completed : bool
}.

Definition get_season_summary (self : t) : outcome summary :=
  let final_table := get_season_table self in
  let all_scores :=
    concat ((λ st, dict_values (SeasonTable.matchday_scores st)) <$> dict_values (table self)) in
  let total_matchdays :=
    fold_left Z.add (SeasonTable.matchdays_played <$> dict_values (table self)) 0%Z in
  match py_max SeasonTable.s_best_score final_table with
  | Raise e => Raise e
  | Return highest_score_team =>
  match py_min (λ x, SeasonTable.s_best_score x ⊖ SeasonTable.s_worst_score x) final_table with
  | Raise e => Raise e
  | Return most_consistent_team =>
      Return (mk_summary (name self)
        (Z.of_nat (length (teams self)))
        total_matchdays
        (match all_scores with
         | [] => 0
         | _ => py_round1 (py_sum all_scores ⊘ float_of_int (Z.of_nat (length all_scores)))
         end)
        final_table
        (SeasonTable.s_team <$> head final_table)
        (default 0 (SeasonTable.s_total_points <$> head final_table))
        (SeasonTable.s_best_score highest_score_team)
        (SeasonTable.s_team highest_score_team)
        (SeasonTable.s_team most_consistent_team)
        (season_completed self))
  end end.

(** [process_matchday] called for each number of [matchdays] in turn, an
    exception ending the call that raised it and no more. *)
Definition run (matchdays : list Z) (self : t) : t :=
  fold_left (λ s n, (process_matchday n s).1) matchdays self.

Definition set_season_completed (b : bool) (self : t) : t :=
  mk (name self) (teams self) (table self) (current_matchday self) b.

(** [process_complete_season], the progress messages left out. *)
Definition process_complete_season : M t summary :=
  _ ← for_each (seqZ 1 38) tt (λ matchday _, _ ← process_matchday matchday; mret tt);
  _ ← modify (set_season_completed true);
  self ← gets id;
  match get_season_summary self with
  | Return s => mret s
  | Raise e => raise e
  end.

(** An entry of the ['progression'] list and the dictionary returned by
    [get_team_progression]; the empty dictionary returned for an unknown
    team is [None]. *)
Record progression_entry : Type := mk_entry {
  e_matchday : Z;
  e_score : Q;
  e_cumulative_points : Q
}.

Record progression : Type := mk_progression {
  p_team : string;
  p_progression : list progression_entry;
  p_final_total : Q
}.

Definition get_team_progression (self : t) (team_name : string) : option progression :=
  match dict_get team_name (table self) with
  | None => None
  | Some season_table =>
      let '(progression, cumulative_points) :=
        fold_left
          (λ '(progression, cumulative_points) matchday,
             match dict_get matchday (SeasonTable.matchday_scores season_table) with
             | Some score =>
                 let cumulative_points := cumulative_points ⊕ score in
                 (progression ++ [mk_entry matchday score (py_round1 cumulative_points)],
                  cumulative_points)
             | None => (progression, cumulative_points)
             end)
          (seqZ 1 38) ([], 0) in
      Some (mk_progression team_name progression cumulative_points)
  end.

End Season.

(** ** Loader *)

Module Loader.

(** One entry of the dictionary built by [load_player_data_from_csv]: the
    three text columns and the numeric columns by name. *)
Record row : Type := mk_row {
  r_team : string;
  r_role : string;
  r_name : string;
  r_numeric : gmap string Q
}.

Definition role_mapping : gmap string string :=
  <["P" := "G"]> (<["D" := "D"]> (<["C" := "M"]> (<["A" := "F"]> ∅))).

(** The body of the loop over [team.player_codes]; a code missing from the
    data only prints a warning. *)
Definition populate_player (players_data : gmap Z row) (cod : Z) : M Team.t unit :=
  match players_data !! cod with
  | Some data =>
      let role := default (r_role data) (role_mapping !! r_role data) in
      match Player.init cod role (r_name data) (r_team data) with
      | Raise e => raise e
      | Return player => modify (λ team, Team.add_player team player)
      end
  | None => mret tt
  end.

(** The body of the loop over [teams]; the composition check that follows
    only prints. *)
Definition populate_team (players_data : gmap Z row) : M Team.t unit :=
  codes ← gets Team.player_codes;
  for_each codes tt (λ cod _, populate_player players_data cod).

(** [populate_teams_with_players], given the rows of the first matchday
    file: the teams as the call leaves them, and the exception if one
    escaped. *)
Fixpoint populate_teams_with_players (players_data : gmap Z row) (teams : list Team.t)
  : list Team.t * outcome unit :=
  match teams with
  | [] => ([], Return tt)
  | team :: teams' =>
      match populate_team players_data team with
      | (team', Raise e) => (team' :: teams', Raise e)
      | (team', Return _) =>
          let '(teams'', r) := populate_teams_with_players players_data teams' in
          (team' :: teams'', r)
      end
  end.

(** What [load_all_matchday_stats] does to a player found in a matchday
    file. *)
Definition load_player_matchday (player : Player.t) (matchday_num : Z)
    (data : gmap string Q) : Player.t :=
  Player.add_matchday_fantavoto (Player.add_matchday_stats player matchday_num data)
                                matchday_num.

(** A line of a matchday CSV file as [pandas] hands it over: the bonus
    columns may be empty ([NaN]), the input contract gives the rating as a
    number. *)
Record csv_row : Type := mk_csv_row {
  c_team : string;
  c_cod : Z;
  c_role : string;
  c_name : string;
  c_rating : Q;
  c_gf : option Q;
  c_gs : option Q;
  c_rp : option Q;
  c_rs : option Q;
  c_rf : option Q;
  c_au : option Q;
  c_amm : option Q;
  c_esp : option Q;
  c_ass : option Q
}.

(** [create_name_to_code_mapping] on the lines of the file. *)
Definition create_name_to_code_mapping (df : list csv_row) : gmap string Z :=
  fold_left (λ name_to_code row, <[c_name row := c_cod row]> name_to_code) df ∅.

(** [load_player_data_from_csv] on the lines of the file; the result is
    iterated by [load_all_matchday_stats], so it keeps its order. *)
Definition load_player_data_from_csv (df : list csv_row) : pydict Z row :=
  fold_left
    (λ players_data row,
       dict_set (c_cod row)
         (mk_row (c_team row) (c_role row) (c_name row)
            (<["Rating" := c_rating row]>
             (<["Gf" := default 0 (c_gf row)]>
             (<["Gs" := default 0 (c_gs row)]>
             (<["Rp" := default 0 (c_rp row)]>
             (<["Rs" := default 0 (c_rs row)]>
             (<["Rf" := default 0 (c_rf row)]>
             (<["Au" := default 0 (c_au row)]>
             (<["Amm" := default 0 (c_amm row)]>
             (<["Esp" := default 0 (c_esp row)]>
             (<["Ass" := default 0 (c_ass row)]> ∅)))))))))))
         players_data)
    df [].

(** A player object is named by its place: team [i] of the list, player [j]
    of that team. [all_players] of [load_all_matchday_stats] maps a code to
    the place of the last player that has it. *)
Definition build_all_players (teams : list Team.t) : gmap Z (nat * nat) :=
  fold_left
    (λ all_players '(i, team),
       fold_left (λ all_players '(j, player), <[Player.cod player := (i, j)]> all_players)
                 (imap pair (Team.players team)) all_players)
    (imap pair teams) ∅.

(** The object at a place is updated, every other object stays. *)
Definition update_player (loc : nat * nat) (f : Player.t → Player.t)
    (teams : list Team.t) : list Team.t :=
  alter (λ team, Team.mk (Team.name team) (Team.player_codes team)
                         (alter f loc.2 (Team.players team)))
        loc.1 teams.

(** [load_all_matchday_stats] on the files the directory holds, already
    read, each with the number [extract_matchday_num] gives it (0 when the
    name has none). [None] is the [FileNotFoundError] of a directory
    without a matchday file. *)
Definition load_all_matchday_stats (teams : list Team.t)
    (csv_files : list (Z * pydict Z row)) : option (list Team.t) :=
  if bool_decide (csv_files = []) then None
  else
    let csv_files := stable_sort (λ a b, bool_decide (a.1 ≤ b.1)%Z) csv_files in
    let all_players := build_all_players teams in
    Some
      (fold_left
         (λ (teams : list Team.t) '((matchday_num, matchday_data) : Z * pydict Z row),
            if bool_decide (matchday_num = 0%Z) then teams
            else
              fold_left
                (λ (teams : list Team.t) '((cod, data) : Z * row),
                   match all_players !! cod with
                   | Some loc =>
                       update_player loc
                         (λ player,
                            load_player_matchday player matchday_num (r_numeric data))
                         teams
                   | None => teams
                   end)
                matchday_data teams)
         csv_files teams).

End Loader.

(** ** Standardisation of the matchday files *)

Module Standardizer.

(** A row of a matchday CSV file. *)
Record record : Type := mk {
  Team : string;
  Cod : Z;
  Role : string;
  Name : string;
  Rating : Q;
  Gf : Q;
  Gs : Q;
  Rp : Q;
  Rs : Q;
  Rf : Q;
  Au : Q;
  Amm : Q;
  Esp : Q;
  Ass : Q
}.

Definition key : Type := string * Z * string * string.

Definition player_key (row : record) : key := (Team row, Cod row, Role row, Name row).

(** The template kept for a key, then completed with zeros. *)
Definition missing_record (template : key) : record :=
  let '(team, cod, role, name) := template in
  mk team cod role name 0 0 0 0 0 0 0 0 0 0.

(** Step 1: the players of all files, each under the key it was first seen
    with. *)
Definition collect_file (all_players : pydict key key) (df : list record) : pydict key key :=
  fold_left (λ all_players row,
               if dict_mem (player_key row) all_players then all_players
               else dict_set (player_key row) (player_key row) all_players)
            df all_players.

Definition collect (files : list (list record)) : pydict key key :=
  fold_left collect_file files [].

(** [sort_values(['Team', 'Role', 'Name'])] compares the three columns in
    turn. *)
Definition record_leb (a b : record) : bool :=
  match String.compare (Team a) (Team b) with
  | Lt => true
  | Gt => false
  | Eq =>
      match String.compare (Role a) (Role b) with
      | Lt => true
      | Gt => false
      | Eq => String.leb (Name a) (Name b)
      end
  end.

(** Step 2 for one file. *)
Definition standardize_file (all_players : pydict key key) (df : list record) : list record :=
  let existing_players : gset key := list_to_set (player_key <$> df) in
  let missing_players :=
    omap (λ '(player_key, player_template),
            if bool_decide (player_key ∉ existing_players)
            then Some (missing_record player_template) else None)
         all_players in
  let df := match missing_players with [] => df | _ => df ++ missing_players end in
  stable_sort record_leb df.

(** [standardize_player_lists] on the contents of the files: what each file
    holds when the call returns. *)
Definition standardize_player_lists (csv_files : list (list record)) : list (list record) :=
  match csv_files with
  | [] => []
  | _ => standardize_file (collect csv_files) <$> csv_files
  end.

End Standardizer.

(** ** Extraction of the player rows of a spreadsheet *)

(** A cell of the sheet once [NaN] has been replaced by [None]. *)
Inductive cell : Type :=
| CNone
| CStr (s : string)
| CInt (z : Z)
| CFloat (q : Q)
| CBool (b : bool).

(** Truth value of a cell. *)
Definition truthy (c : cell) : bool :=
  match c with
  | CNone => false
  | CStr s => negb (bool_decide (s = ""))
  | CInt z => negb (bool_decide (z = 0%Z))
  | CFloat q => negb (Qeq_bool q 0)
  | CBool b => b
  end.

(** [cell is None] *)
Definition is_none (c : cell) : bool :=
  match c with
  | CNone => true
  | _ => false
  end.

(** [cell is None or cell == ''] *)
Definition is_blank (c : cell) : bool :=
  match c with
  | CNone => true
  | CStr s => bool_decide (s = "")
  | _ => false
  end.

(** [cell == s] for a string literal [s]. *)
Definition cell_is (s : string) (c : cell) : bool :=
  match c with
  | CStr s' => bool_decide (s' = s)
  | _ => false
  end.

(** [isinstance(cell, (int, float))]; [bool] is a subclass of [int]. *)
Definition is_number (c : cell) : bool :=
  match c with
  | CInt _ | CFloat _ | CBool _ => true
  | _ => false
  end.

Definition is_str (c : cell) : bool :=
  match c with
  | CStr _ => true
  | _ => false
  end.

(** [int(cell)] of a number: floats are cut towards zero. *)
Definition to_int (c : cell) : Z :=
  match c with
  | CInt z => z
  | CFloat q => Z.quot (Qnum q) (Zpos (Qden q))
  | CBool b => if b then 1%Z else 0%Z
  | _ => 0%Z
  end.

(** [keyword in text] *)
Definition contains (keyword text : string) : bool :=
  bool_decide (is_Some (String.index 0 keyword text)).

Definition keywords : list string :=
  ["Voti Fantacalcio"; "www.fantacalcio.it"; "QUESTO FILE"; "USO PERSONALE"].

(** [any(keyword in str(cell) for keyword in keywords)]; the text of a
    number or of a boolean has none of the keywords. *)
Definition has_keyword (c : cell) : bool :=
  match c with
  | CStr text => existsb (λ keyword, contains keyword text) keywords
  | _ => false
  end.

(** [row[i] if len(row) > i else None] *)
Definition cell_at (row_data : list cell) (i : nat) : cell :=
  default CNone (row_data !! i).

(** The record built for a player row. *)
Record player_record : Type := mk_player_record {
  x_Team : cell;
  x_Cod : Z;
  x_Role : cell;
  x_Name : cell;
  x_Rating : cell;
  x_Gf : cell;
  x_Gs : cell;
  x_Rp : cell;
  x_Rs : cell;
  x_Rf : cell;
  x_Au : cell;
  x_Amm : cell;
  x_Esp : cell;
  x_Ass : cell
}.

(** The extraction of [data/matchdayprocessor.py]. *)
Module Matchdayprocessor.

Definition _is_header_or_footer_row (row_data : list cell) : bool :=
  match row_data with
  | [] => false
  | c :: _ => if negb (truthy c) then false else has_keyword c
  end.

Definition _is_column_header_row (row_data : list cell) : bool :=
  bool_decide (3 ≤ length row_data)
  && cell_is "Cod." (cell_at row_data 0)
  && cell_is "Ruolo" (cell_at row_data 1)
  && cell_is "Nome" (cell_at row_data 2).

Definition _is_team_name_row (row_data : list cell) : bool :=
  bool_decide (1 ≤ length row_data)
  && truthy (cell_at row_data 0)
  && forallb is_blank (drop 1 row_data)
  && negb (_is_header_or_footer_row row_data).

Definition _is_player_data_row (row_data : list cell) : bool :=
  bool_decide (4 ≤ length row_data)
  && negb (is_none (cell_at row_data 0))
  && is_number (cell_at row_data 0)
  && negb (is_none (cell_at row_data 1))
  && is_str (cell_at row_data 1)
  && negb (cell_is "ALL" (cell_at row_data 1))
  && negb (is_none (cell_at row_data 2))
  && is_str (cell_at row_data 2).

(** [_create_player_record]; on the rows that reach it the conversion of
    the code cannot fail. *)
Definition _create_player_record (row_data : list cell) (team : cell) : option player_record :=
  Some (mk_player_record team (to_int (cell_at row_data 0))
          (cell_at row_data 1) (cell_at row_data 2) (cell_at row_data 3)
          (cell_at row_data 4) (cell_at row_data 5) (cell_at row_data 6)
          (cell_at row_data 7) (cell_at row_data 8) (cell_at row_data 9)
          (cell_at row_data 10) (cell_at row_data 11) (cell_at row_data 12)).

(** One turn of the loop of [_extract_player_data] on the pair of
    [players_data] and [current_team]. *)
Definition extract_row (st : list player_record * cell) (row_data : list cell)
  : list player_record * cell :=
  let '(players_data, current_team) := st in
  if forallb is_blank row_data then st
  else if _is_header_or_footer_row row_data then st
  else if _is_column_header_row row_data then st
  else if _is_team_name_row row_data then (players_data, cell_at row_data 0)
  else if _is_player_data_row row_data then
    match _create_player_record row_data current_team with
    | Some player_record => (players_data ++ [player_record], current_team)
    | None => st
    end
  else st.

Definition _extract_player_data (df : list (list cell)) : list player_record :=
  (fold_left extract_row df ([], CNone)).1.

End Matchdayprocessor.

(** The extraction loop written out in [excel_to_csv_players_only] of
    [data/dataprocessor.py] and [data/dataprocesser.py]. *)
Module Dataprocessor.

Definition extract_row (st : list player_record * cell) (row_data : list cell)
  : list player_record * cell :=
  let '(players_data, current_team) := st in
  if forallb is_blank row_data then st
  else if bool_decide (1 ≤ length row_data) && truthy (cell_at row_data 0)
          && has_keyword (cell_at row_data 0) then st
  else if bool_decide (3 ≤ length row_data)
          && cell_is "Cod." (cell_at row_data 0)
          && cell_is "Ruolo" (cell_at row_data 1)
          && cell_is "Nome" (cell_at row_data 2) then st
  else if bool_decide (1 ≤ length row_data) && truthy (cell_at row_data 0)
          && forallb is_blank (drop 1 row_data)
          && negb (has_keyword (cell_at row_data 0)) then
    (players_data, cell_at row_data 0)
  else if bool_decide (4 ≤ length row_data)
          && negb (is_none (cell_at row_data 0))
          && is_number (cell_at row_data 0)
          && negb (is_none (cell_at row_data 1))
          && is_str (cell_at row_data 1)
          && negb (cell_is "ALL" (cell_at row_data 1))
          && negb (is_none (cell_at row_data 2))
          && is_str (cell_at row_data 2) then
    (players_data
       ++ [mk_player_record current_team (to_int (cell_at row_data 0))
             (cell_at row_data 1) (cell_at row_data 2) (cell_at row_data 3)
             (cell_at row_data 4) (cell_at row_data 5) (cell_at row_data 6)
             (cell_at row_data 7) (cell_at row_data 8) (cell_at row_data 9)
             (cell_at row_data 10) (cell_at row_data 11) (cell_at row_data 12)],
     current_team)
  else st.

Definition extract_players (df : list (list cell)) : list player_record :=
  (fold_left extract_row df ([], CNone)).1.

End Dataprocessor.
(** * Vocabulary of the statements *)

(** ** Fantavoto *)

(** The score before rounding, in the order the specification writes it,
    in the arithmetic of floats. *)
Definition spec_score (role : Role.t) (s : PlayerStats.t) : Q :=
  let score :=
    PlayerStats.rating s
    ⊕ 3 ⊗ PlayerStats.gf s
    ⊕ 1 ⊗ PlayerStats.ass s
    ⊖ 3 ⊗ PlayerStats.rp s
    ⊕ 3 ⊗ PlayerStats.rs s
    ⊖ 0.5 ⊗ PlayerStats.amm s
    ⊖ 1 ⊗ PlayerStats.esp s
    ⊖ 2 ⊗ PlayerStats.au s in
  match role with
  | Role.GOALKEEPER =>
      let score := score ⊖ 1 ⊗ PlayerStats.gs s in
      if Qeq_bool (PlayerStats.gs s) 0 then score ⊕ 1 else score
  | _ => score
  end.

(** The same score in exact arithmetic, as the formula of the
    specification reads on paper. *)
Definition exact_score (role : Role.t) (s : PlayerStats.t) : Q :=
  let score :=
    PlayerStats.rating s
    + 3 * PlayerStats.gf s
    + 1 * PlayerStats.ass s
    - 3 * PlayerStats.rp s
    + 3 * PlayerStats.rs s
    - 0.5 * PlayerStats.amm s
    - 1 * PlayerStats.esp s
    - 2 * PlayerStats.au s in
  match role with
  | Role.GOALKEEPER =>
      let score := score - 1 * PlayerStats.gs s in
      if Qeq_bool (PlayerStats.gs s) 0 then score + 1 else score
  | _ => score
  end.

(** The numbers of the game: a vote is a multiple of one half, the events
    are counted in whole numbers; both stay far below the size at which
    doubles stop being exact on halves. *)
Definition half_integer (x : Q) : Prop :=
  ∃ k : Z, x == inject_Z k / 2 ∧ (Z.abs k ≤ 2 ^ 40)%Z.
Definition whole (x : Q) : Prop :=
  ∃ k : Z, x == inject_Z k ∧ (Z.abs k ≤ 2 ^ 40)%Z.
Definition vote_domain (s : PlayerStats.t) : Prop :=
  half_integer (PlayerStats.rating s)
  ∧ whole (PlayerStats.gf s) ∧ whole (PlayerStats.gs s) ∧ whole (PlayerStats.rp s)
  ∧ whole (PlayerStats.rs s) ∧ whole (PlayerStats.au s) ∧ whole (PlayerStats.amm s)
  ∧ whole (PlayerStats.esp s) ∧ whole (PlayerStats.ass s).

(** Two snapshots with numerically equal fields. *)
Definition stats_eq (s s' : PlayerStats.t) : Prop :=
  PlayerStats.rating s == PlayerStats.rating s' ∧ PlayerStats.gf s == PlayerStats.gf s'
  ∧ PlayerStats.gs s == PlayerStats.gs s' ∧ PlayerStats.rp s == PlayerStats.rp s'
  ∧ PlayerStats.rs s == PlayerStats.rs s' ∧ PlayerStats.rf s == PlayerStats.rf s'
  ∧ PlayerStats.au s == PlayerStats.au s' ∧ PlayerStats.amm s == PlayerStats.amm s'
  ∧ PlayerStats.esp s == PlayerStats.esp s' ∧ PlayerStats.ass s == PlayerStats.ass s'.

(** Sample players for the worked examples: a forward with rating 6, one
    goal and one assist; goalkeepers with rating 6 who concede nothing and
    two goals; a defender whose row for matchday 1 has rating 0 next to
    stray bonus fields, and no row for matchday 2. *)
Definition sample_forward : Player.t :=
  Player.mk 10 Role.FORWARD "Rossi" "Milan"
    {[ 1%Z := PlayerStats.mk 6 1 0 0 0 0 0 0 0 1 ]} ∅.
Definition sample_keeper (gs : Q) : Player.t :=
  Player.mk 1 Role.GOALKEEPER "Bianchi" "Inter"
    {[ 1%Z := PlayerStats.mk 6 0 gs 0 0 0 0 0 0 0 ]} ∅.
Definition sample_absent : Player.t :=
  Player.mk 20 Role.DEFENDER "Verdi" "Roma"
    {[ 1%Z := PlayerStats.mk 0 2 0 0 1 0 0 1 0 3 ]} ∅.

(** ** The fantavoto cache of a player *)

(** The operations a [Player] offers after construction. *)
Inductive player_op : Type :=
| AddStats (matchday : Z) (stats : gmap string Q)
| AddFantavoto (matchday : Z).

Definition apply_op (p : Player.t) (o : player_op) : Player.t :=
  match o with
  | AddStats m stats => Player.add_matchday_stats p m stats
  | AddFantavoto m => Player.add_matchday_fantavoto p m
  end.

(** The cache agrees with the stored stats: same matchdays, and each cached
    value is the fantavoto of the stats now stored. *)
Definition cache_consistent (p : Player.t) : Prop :=
  ∀ m : Z,
    (is_Some (Player.matchday_fantavoto p !! m) ↔ is_Some (Player.matchday_stats p !! m))
    ∧ (∀ v, Player.matchday_fantavoto p !! m = Some v → v = Player.calculate_fantavoto p m).

(** The matchday files a player goes through in [load_all_matchday_stats]. *)
Definition load_player (p : Player.t) (files : list (Z * gmap string Q)) : Player.t :=
  fold_left (λ p '(m, data), Loader.load_player_matchday p m data) files p.

(** ** Season tables and seasons *)

(** A [SeasonTable] after a series of [add_matchday_score] calls. *)
Definition add_scores (t : SeasonTable.t) (calls : list (Z * Q)) : SeasonTable.t :=
  fold_left (λ t '(m, score), SeasonTable.add_matchday_score t m score) calls t.

#[global] Instance Qeq_decision (x y : Q) : Decision (x == y) := Qeq_dec x y.

(** A table row without its ['position'] entry. *)
Definition clear_position (d : SeasonTable.stats) : SeasonTable.stats :=
  SeasonTable.mk_stats (SeasonTable.s_team d) (SeasonTable.s_total_points d)
    (SeasonTable.s_matchdays_played d) (SeasonTable.s_average_score d)
    (SeasonTable.s_best_score d) (SeasonTable.s_worst_score d) None.

(** What a call of [process_matchday] never touches: the season's name, its
    teams, the completion flag and the set and order of the table's keys. *)
Definition same_frame (s s' : Season.t) : Prop :=
  Season.name s' = Season.name s
  ∧ Season.teams s' = Season.teams s
  ∧ Season.season_completed s' = Season.season_completed s
  ∧ dict_keys (Season.table s') = dict_keys (Season.table s).

(** Every team of the season has its [SeasonTable]. *)
Definition table_complete (s : Season.t) : Prop :=
  Forall (λ team, is_Some (dict_get (Team.name team) (Season.table s))) (Season.teams s).

(** The state the loop of [process_matchday] has reached after the teams
    [done], with [acc] the scores collected so far. *)
Definition scored (n : Z) (s : Season.t) (done : list Team.t) (acc : pydict string Q)
    (s1 : Season.t) : Prop :=
  same_frame s s1
  ∧ Season.current_matchday s1 = Season.current_matchday s
  ∧ (∀ team, team ∈ done →
       ∃ entry, dict_get (Team.name team) (Season.table s1) = Some entry
                ∧ is_Some (dict_get n (SeasonTable.matchday_scores entry))
                ∧ dict_get n (SeasonTable.matchday_scores entry)
                  = dict_get (Team.name team) acc)
  ∧ (NoDup (Team.name <$> done) →
     ∀ team, team ∈ done →
       dict_get (Team.name team) acc = Some (Team.calculate_total_score team n))
  ∧ (∀ team_name entry m, m ≠ n →
       dict_get team_name (Season.table s) = Some entry →
       ∃ entry', dict_get team_name (Season.table s1) = Some entry'
                 ∧ dict_get m (SeasonTable.matchday_scores entry')
                   = dict_get m (SeasonTable.matchday_scores entry)).

(** A two-team league after matchday 1: team A scores 10.0 with its forward,
    team B 7.5 with a midfielder rated 7.5. *)
Definition sample_team_a : Team.t := Team.mk "A" [10%Z] [sample_forward].
Definition sample_team_b : Team.t :=
  Team.mk "B" [30%Z]
    [Player.mk 30 Role.MIDFIELDER "Neri" "Lazio"
       {[ 1%Z := PlayerStats.mk 7.5 0 0 0 0 0 0 0 0 0 ]} ∅].
Definition sample_season : Season.t :=
  Season.run [1%Z] (Season.init [sample_team_b; sample_team_a] "Serie A").

(** ** Roster population *)

(** The raw role codes that roster population lets through: the four codes
    of [role_mapping] and the four values of [Role]. *)
Definition accepted_role (r : string) : Prop :=
  r ∈ ["P"; "D"; "C"; "A"; "G"; "M"; "F"].

(** A rostered code whose row carries a role that is not accepted. *)
Definition bad_code (players_data : gmap Z Loader.row) (cod : Z) : Prop :=
  ∃ data, players_data !! cod = Some data ∧ ¬ accepted_role (Loader.r_role data).

Definition raises {A} (o : outcome A) : Prop :=
  ∃ msg, o = Raise (ValueError msg).

#[global] Instance accepted_role_dec (r : string) : Decision (accepted_role r).
Proof. unfold accepted_role. apply _. Defined.

#[global] Instance bad_code_dec (players_data : gmap Z Loader.row) (cod : Z) :
  Decision (bad_code players_data cod).
Proof.
  unfold bad_code. destruct (players_data !! cod) as [data|].
  - destruct (decide (accepted_role (Loader.r_role data))) as [Hacc|Hbad].
    + right. intros (data' & [= <-] & Hbad). exact (Hbad Hacc).
    + left. exists data. split; [reflexivity | exact Hbad].
  - right. intros (data & [=] & _).
Defined.

#[global] Instance raises_dec {A} (o : outcome A) : Decision (raises o).
Proof.
  unfold raises. destruct o as [a|[msg|key]].
  - right. intros [msg [=]].
  - left. exists msg. reflexivity.
  - right. intros [msg [=]].
Defined.

(** ** Standardisation *)

(** Comparison by a first criterion, then by a second where the first sees
    no difference. *)
Definition lex {A} (c1 c2 : A → A → comparison) (a b : A) : comparison :=
  match c1 a b with
  | Eq => c2 a b
  | o => o
  end.

Definition by_field {A} (f : A → string) (a b : A) : comparison :=
  String.compare (f a) (f b).

(** The order of the standardised files: by team, then role, then name. *)
Definition record_compare : Standardizer.record → Standardizer.record → comparison :=
  lex (by_field Standardizer.Team)
      (lex (by_field Standardizer.Role) (by_field Standardizer.Name)).

Definition record_le (a b : Standardizer.record) : Prop := record_compare a b ≠ Gt.

(** A record whose ten numeric fields are all 0. *)
Definition zero_fields (r : Standardizer.record) : Prop :=
  Standardizer.Rating r = 0 ∧ Standardizer.Gf r = 0 ∧ Standardizer.Gs r = 0
  ∧ Standardizer.Rp r = 0 ∧ Standardizer.Rs r = 0 ∧ Standardizer.Rf r = 0
  ∧ Standardizer.Au r = 0 ∧ Standardizer.Amm r = 0 ∧ Standardizer.Esp r = 0
  ∧ Standardizer.Ass r = 0.

(** The player a record is about: its team, code, role and name. The
    players of a file, and the players seen in some file. *)
Definition identity (r : Standardizer.record) : string * Z * string * string :=
  (Standardizer.Team r, Standardizer.Cod r, Standardizer.Role r, Standardizer.Name r).
Definition file_keys (df : list Standardizer.record) : list (string * Z * string * string) :=
  identity <$> df.
Definition in_universe (files : list (list Standardizer.record))
    (k : string * Z * string * string) : Prop :=
  ∃ df, df ∈ files ∧ k ∈ file_keys df.

(** A universe dictionary as [collect] builds it: no key twice, each key
    mapped to its own four fields. *)
Definition universe_ok (all_players : pydict Standardizer.key Standardizer.key) : Prop :=
  NoDup (dict_keys all_players) ∧ ∀ k t, (k, t) ∈ all_players → t = k.

(** What a comparison must satisfy for its "not greater" to be a total
    preorder. *)
Record cmp_ok {A} (c : A → A → comparison) : Prop := {
  cmp_antisym : ∀ a b, c b a = CompOpp (c a b);
  cmp_lt_trans : ∀ a b d, c a b = Lt → c b d = Lt → c a d = Lt;
  cmp_eq_l : ∀ a b x, c a b = Eq → c a x = c b x
}.

(** Three rows for the example of the specification: [x] and [y] are in the
    first file, [x] and [z] in the second. *)
Definition sample_x : Standardizer.record :=
  Standardizer.mk "Milan" 10 "A" "Rossi" 6 1 0 0 0 0 0 0 0 1.
Definition sample_y : Standardizer.record :=
  Standardizer.mk "Inter" 1 "P" "Bianchi" 6 0 2 0 0 0 0 0 0 0.
Definition sample_z : Standardizer.record :=
  Standardizer.mk "Lazio" 30 "C" "Neri" 7.5 0 0 0 0 0 0 1 0 0.


(** ** Further vocabulary *)

(** The snapshot [add_matchday_stats] stores for a raw row. *)
Definition snapshot (stats : gmap string Q) : PlayerStats.t :=
  PlayerStats.mk
    (Player.get_or_0 stats "Rating") (Player.get_or_0 stats "Gf")
    (Player.get_or_0 stats "Gs") (Player.get_or_0 stats "Rp")
    (Player.get_or_0 stats "Rs") (Player.get_or_0 stats "Rf")
    (Player.get_or_0 stats "Au") (Player.get_or_0 stats "Amm")
    (Player.get_or_0 stats "Esp") (Player.get_or_0 stats "Ass").


(** The last team of a list that bears a name. *)
Definition last_named (k : string) (teams : list Team.t) : option Team.t :=
  last (filter (λ team, Team.name team = k) teams).

(** A table as [add_matchday_score] keeps it: no matchday twice, all within
    1..38, the total and the counter in step with the scores. *)
Definition table_sound (e : SeasonTable.t) : Prop :=
  NoDup (dict_keys (SeasonTable.matchday_scores e))
  ∧ SeasonTable.total_points e = py_sum (dict_values (SeasonTable.matchday_scores e))
  ∧ SeasonTable.matchdays_played e
    = Z.of_nat (length (dict_keys (SeasonTable.matchday_scores e)))
  ∧ Forall (λ m, (1 ≤ m ≤ 38)%Z) (dict_keys (SeasonTable.matchday_scores e)).

(** A season as the constructor and [process_matchday] keep it. *)
Definition season_sound (s : Season.t) : Prop :=
  NoDup (dict_keys (Season.table s))
  ∧ table_complete s
  ∧ Forall (λ '(k, e), table_sound e ∧ Team.name (SeasonTable.team e) = k) (Season.table s)
  ∧ Forall (λ k, k ∈ Team.name <$> Season.teams s) (dict_keys (Season.table s)).

(** The table after the teams have been scored for matchday [n]: each entry
    takes the score of the last team that bears its name. *)
Definition processed_table (n : Z) (teams : list Team.t)
    (table : pydict string SeasonTable.t) : pydict string SeasonTable.t :=
  (λ '(k, e),
     (k, match last_named k teams with
         | Some team =>
             SeasonTable.add_matchday_score e n (Team.calculate_total_score team n)
         | None => e
         end)) <$> table.

(** The dictionary [process_matchday] returns. *)
Definition matchday_result (n : Z) (teams : list Team.t) : pydict string Q :=
  fold_left (λ acc team, dict_set (Team.name team) (Team.calculate_total_score team n) acc)
            teams [].

(** The pointer after a matchday [n] in range has been processed. *)
Definition advance (current n : Z) : Z :=
  if bool_decide (n = current) then (current + 1)%Z else current.

(** One turn of the loop of [process_matchday] on the table. *)
Definition score_team (n : Z) (table : pydict string SeasonTable.t) (team : Team.t)
  : pydict string SeasonTable.t :=
  match dict_get (Team.name team) table with
  | Some entry =>
      dict_set (Team.name team)
        (SeasonTable.add_matchday_score entry n (Team.calculate_total_score team n)) table
  | None => table
  end.

(** One turn of the loop of [get_team_progression]. *)
Definition progression_step (scores : pydict Z Q)
    (st : list Season.progression_entry * Q) (matchday : Z)
  : list Season.progression_entry * Q :=
  let '(progression, cumulative_points) := st in
  match dict_get matchday scores with
  | Some score =>
      (progression
         ++ [Season.mk_entry matchday score (py_round1 (cumulative_points ⊕ score))],
       cumulative_points ⊕ score)
  | None => (progression, cumulative_points)
  end.

(** What a progression list must be for the scores of a table: its
    matchdays are those recorded among [range], in that order, each with
    its recorded score and the rounded running sum. *)
Definition progression_of (scores : pydict Z Q) (range : list Z)
    (progression : list Season.progression_entry) : Prop :=
  Season.e_matchday <$> progression
  = filter (λ m, is_Some (dict_get m scores)) range
  ∧ Forall (λ e, dict_get (Season.e_matchday e) scores = Some (Season.e_score e)) progression
  ∧ ∀ i e, progression !! i = Some e →
      Season.e_cumulative_points e
      = py_round1 (py_sum (Season.e_score <$> take (S i) progression)).

(** The entry [load_player_data_from_csv] makes of a line. *)
Definition csv_entry (r : Loader.csv_row) : Loader.row :=
  Loader.mk_row (Loader.c_team r) (Loader.c_role r) (Loader.c_name r)
    (<["Rating" := Loader.c_rating r]>
     (<["Gf" := default 0 (Loader.c_gf r)]>
     (<["Gs" := default 0 (Loader.c_gs r)]>
     (<["Rp" := default 0 (Loader.c_rp r)]>
     (<["Rs" := default 0 (Loader.c_rs r)]>
     (<["Rf" := default 0 (Loader.c_rf r)]>
     (<["Au" := default 0 (Loader.c_au r)]>
     (<["Amm" := default 0 (Loader.c_amm r)]>
     (<["Esp" := default 0 (Loader.c_esp r)]>
     (<["Ass" := default 0 (Loader.c_ass r)]> ∅)))))))))).

(** The player [populate_teams_with_players] builds for a rostered code:
    none when the code is not in the data. *)
Definition new_player (players_data : gmap Z Loader.row) (cod : Z) : option Player.t :=
  match players_data !! cod with
  | Some data =>
      match Player.init cod
              (default (Loader.r_role data) (Loader.role_mapping !! Loader.r_role data))
              (Loader.r_name data) (Loader.r_team data) with
      | Return player => Some player
      | Raise _ => None
      end
  | None => None
  end.

(** A team with the players of the codes [codes] added to its roster. *)
Definition with_players (players_data : gmap Z Loader.row) (team : Team.t)
    (codes : list Z) : Team.t :=
  Team.mk (Team.name team) (Team.player_codes team)
          (Team.players team ++ omap (new_player players_data) codes).

(** The player at a place of a list of teams. *)
Definition lookup_player (teams : list Team.t) (loc : nat * nat) : option Player.t :=
  teams !! loc.1 ≫= λ team, Team.players team !! loc.2.

(** The players of a list of teams with their places, in the order of the
    two loops that build [all_players]. *)
Definition places (teams : list Team.t) : list ((nat * nat) * Player.t) :=
  imap pair teams ≫= λ '(i, team),
    (λ '(j, player), ((i, j), player)) <$> imap pair (Team.players team).

(** The rows [load_all_matchday_stats] goes through, in its order: the
    matchday, the code and the numeric columns; files numbered 0 give
    none. *)
Definition matchday_rows (csv_files : list (Z * pydict Z Loader.row))
  : list (Z * Z * gmap string Q) :=
  stable_sort (λ a b, bool_decide (a.1 ≤ b.1)%Z) csv_files ≫= λ '(n, data),
    if bool_decide (n = 0%Z) then []
    else (λ '(cod, row), (n, cod, Loader.r_numeric row)) <$> data.

(** Among them, the rows of one code. *)
Definition player_rows (csv_files : list (Z * pydict Z Loader.row)) (cod : Z)
  : list (Z * gmap string Q) :=
  omap (λ '(n, c, d), if decide (c = cod) then Some (n, d) else None)
       (matchday_rows csv_files).

(** What [load_all_matchday_stats] does for one row. *)
Definition load_row (all_players : gmap Z (nat * nat)) (teams : list Team.t)
    (r : Z * Z * gmap string Q) : list Team.t :=
  let '(n, cod, d) := r in
  match all_players !! cod with
  | Some loc =>
      Loader.update_player loc (λ player, Loader.load_player_matchday player n d) teams
  | None => teams
  end.

(** The place [all_players] keeps for the code of a player is its own. *)
Definition designated (teams : list Team.t) (loc : nat * nat) (p : Player.t) : Prop :=
  Loader.build_all_players teams !! Player.cod p = Some loc.

#[global] Instance designated_dec (teams : list Team.t) (loc : nat * nat) (p : Player.t) :
  Decision (designated teams loc p).
Proof. unfold designated. apply _. Defined.

(** Two lists of teams that differ by the stats of their players at most. *)
Definition same_rosters (teams teams' : list Team.t) : Prop :=
  Forall2 (λ t t', Team.name t' = Team.name t
                   ∧ Team.player_codes t' = Team.player_codes t
                   ∧ Forall2 (λ p p', Player.cod p' = Player.cod p
                                      ∧ Player.role p' = Player.role p
                                      ∧ Player.name p' = Player.name p
                                      ∧ Player.real_team p' = Player.real_team p)
                             (Team.players t) (Team.players t'))
          teams teams'.

(** Two rosters without stats, the code 10 in both, and two matchday files
    given out of order. *)
Definition sample_rosters : list Team.t :=
  [Team.mk "A" [10%Z] [Player.mk 10 Role.FORWARD "Rossi" "Milan" ∅ ∅];
   Team.mk "B" [10%Z; 30%Z]
     [Player.mk 10 Role.FORWARD "Rossi" "Milan" ∅ ∅;
      Player.mk 30 Role.MIDFIELDER "Neri" "Lazio" ∅ ∅]].

Definition sample_files : list (Z * pydict Z Loader.row) :=
  [(2%Z, [(10%Z, Loader.mk_row "Milan" "A" "Rossi" {[ "Rating" := 6 ]})]);
   (1%Z, [(30%Z, Loader.mk_row "Lazio" "C" "Neri" {[ "Rating" := 7 ]});
          (10%Z, Loader.mk_row "Milan" "A" "Rossi" {[ "Rating" := 5 ]})])].

(** ** Extraction *)

(** The rows of a sheet that give a record: those that pass the player
    test and were not taken for a team name before it. *)
Definition yields_record (row_data : list cell) : bool :=
  Matchdayprocessor._is_player_data_row row_data
  && negb (Matchdayprocessor._is_team_name_row row_data).

(** The first cell of the last team-name row among the rows above, [None]
    when there is none. *)
Definition team_above (above : list (list cell)) : cell :=
  default CNone
    ((λ row_data, cell_at row_data 0)
       <$> last (filter (λ row_data, Matchdayprocessor._is_team_name_row row_data = true)
                        above)).

(** The record of a player row under a team. *)
Definition record_of (row_data : list cell) (team : cell) : player_record :=
  mk_player_record team (to_int (cell_at row_data 0))
    (cell_at row_data 1) (cell_at row_data 2) (cell_at row_data 3)
    (cell_at row_data 4) (cell_at row_data 5) (cell_at row_data 6)
    (cell_at row_data 7) (cell_at row_data 8) (cell_at row_data 9)
    (cell_at row_data 10) (cell_at row_data 11) (cell_at row_data 12).

(** Rows the loop passes over before any other test: blank rows, the
    header and footer lines of the site, the line of column names. *)
Definition ignored_row (row_data : list cell) : bool :=
  forallb is_blank row_data
  || Matchdayprocessor._is_header_or_footer_row row_data
  || Matchdayprocessor._is_column_header_row row_data.

(** * Properties *)

(** ** Rounding and sums *)

Lemma round_half_even_comp (x y : Q) : x == y → round_half_even x = round_half_even y.
Proof.
  intros E. unfold round_half_even.
  rewrite (Qfloor_comp _ _ E).
  assert (E' : x - inject_Z (Qfloor y) == y - inject_Z (Qfloor y)) by (rewrite E; reflexivity).
  rewrite (Qcompare_comp _ _ E' (1 # 2) (1 # 2) (Qeq_refl _)). reflexivity.
Qed.

Lemma round_half_even_spec (x : Q) :
  Qabs (x - inject_Z (round_half_even x)) <= 1 # 2
  ∧ (Qabs (x - inject_Z (round_half_even x)) == 1 # 2 → Z.even (round_half_even x) = true).
Proof.
  unfold round_half_even.
  pose proof (Qfloor_le x) as Hlo. pose proof (Qlt_floor x) as Hhi.
  set (f := Qfloor x) in *.
  assert (Hf1 : inject_Z (f + 1) == inject_Z f + 1) by (rewrite inject_Z_plus; reflexivity).
  rewrite Hf1 in Hhi.
  destruct (Qcompare_spec (x - inject_Z f) (1 # 2)) as [E|L|G].
  - destruct (Z.even f) eqn:Ev.
    + split; [|done]. apply Qabs_Qle_condition. split; lra.
    + split.
      * apply Qabs_Qle_condition. rewrite Hf1. split; lra.
      * intros _. rewrite Z.add_1_r, Z.even_succ, <- Z.negb_even, Ev. done.
  - split.
    + apply Qabs_Qle_condition. split; lra.
    + intros E. rewrite Qabs_pos in E by lra. lra.
  - split.
    + apply Qabs_Qle_condition. rewrite Hf1. split; lra.
    + intros E. rewrite Hf1 in E. rewrite Qabs_neg in E by lra. lra.
Qed.

Lemma round_half_even_Z (k : Z) : round_half_even (inject_Z k) = k.
Proof.
  unfold round_half_even. rewrite Qfloor_Z.
  destruct (Qcompare_spec (inject_Z k - inject_Z k) (1 # 2)) as [E|L|G]; [lra|done|lra].
Qed.

Lemma pow2_pos (e : Z) : 0 < 2 ^ e.
Proof. by apply Qpower_0_lt. Qed.

Lemma pow2_add (a b : Z) : 2 ^ (a + b) == 2 ^ a * 2 ^ b.
Proof. by apply Qpower_plus. Qed.

Lemma pow2_sub (a b : Z) : 2 ^ (a - b) == 2 ^ a / 2 ^ b.
Proof. by apply Qpower_minus. Qed.

Lemma pow2_le (a b : Z) : (a ≤ b)%Z → 2 ^ a <= 2 ^ b.
Proof. intros. by apply Qpower_le_compat_l. Qed.

Lemma pow2_lt (a b : Z) : (a < b)%Z → 2 ^ a < 2 ^ b.
Proof. intros. by apply Qpower_lt_compat_l. Qed.

Lemma pow2_Z (n : Z) : (0 ≤ n)%Z → inject_Z (2 ^ n) == 2 ^ n.
Proof. intros. by rewrite Zpower_Qpower. Qed.

Lemma Qabs_div (x : Q) :
  Qabs x == inject_Z (Z.abs (Qnum x)) / inject_Z (Zpos (Qden x)).
Proof. destruct x as [n d]. cbn [Qabs Qnum Qden]. by rewrite Qmake_Qdiv. Qed.

Lemma ilog2_spec (x : Q) :
  ¬ x == 0 → 2 ^ ilog2 x <= Qabs x ∧ Qabs x < 2 ^ (ilog2 x + 1).
Proof.
  intros Hx. unfold ilog2.
  set (n := Z.abs (Qnum x)). set (d := Zpos (Qden x)).
  set (k := (Z.log2 n - Z.log2 d)%Z).
  assert (Hn : (0 < n)%Z).
  { unfold n. destruct x as [[|p|p] q]; cbn; try lia. exfalso. apply Hx. reflexivity. }
  assert (Hd : (0 < d)%Z) by (unfold d; lia).
  destruct (Z.log2_spec n Hn) as [Hn1 Hn2]. destruct (Z.log2_spec d Hd) as [Hd1 Hd2].
  pose proof (Z.log2_nonneg n) as Hln. pose proof (Z.log2_nonneg d) as Hld.
  assert (Qn1 : 2 ^ Z.log2 n <= inject_Z n)
    by (rewrite <- pow2_Z by done; by rewrite <- Zle_Qle).
  assert (Qn2 : inject_Z n < 2 ^ (Z.log2 n + 1))
    by (rewrite <- pow2_Z by lia; rewrite <- Zlt_Qlt; lia).
  assert (Qd1 : 2 ^ Z.log2 d <= inject_Z d)
    by (rewrite <- pow2_Z by done; by rewrite <- Zle_Qle).
  assert (Qd2 : inject_Z d < 2 ^ (Z.log2 d + 1))
    by (rewrite <- pow2_Z by lia; rewrite <- Zlt_Qlt; lia).
  assert (Qd0 : 0 < inject_Z d) by (by rewrite <- (Zlt_Qlt 0)).
  assert (Habs : Qabs x * inject_Z d == inject_Z n).
  { rewrite Qabs_div. fold n d. field. lra. }
  assert (Hup : Qabs x < 2 ^ (k + 1)).
  { apply (Qmult_lt_r _ _ (inject_Z d) Qd0). rewrite Habs.
    eapply Qlt_le_trans; [exact Qn2|].
    replace (Z.log2 n + 1)%Z with ((k + 1) + Z.log2 d)%Z by (unfold k; lia).
    rewrite pow2_add. apply Qmult_le_l; [apply pow2_pos | exact Qd1]. }
  assert (Hlow : 2 ^ (k - 1) <= Qabs x).
  { apply (Qmult_le_r _ _ (inject_Z d) Qd0). rewrite Habs.
    eapply Qle_trans; [|exact Qn1].
    replace (Z.log2 n) with ((k - 1) + (Z.log2 d + 1))%Z by (unfold k; lia).
    rewrite pow2_add. apply Qmult_le_l; [apply pow2_pos | apply Qlt_le_weak, Qd2]. }
  destruct (Qle_bool (2 ^ k) (Qabs x)) eqn:E.
  - apply Qle_bool_iff in E. done.
  - split; [done|]. replace (k - 1 + 1)%Z with k by lia.
    apply Qnot_le_lt. intros H. apply Qle_bool_iff in H. congruence.
Qed.

Lemma ilog2_unique (x : Q) (g : Z) :
  2 ^ g <= Qabs x → Qabs x < 2 ^ (g + 1) → ilog2 x = g.
Proof.
  intros H1 H2.
  assert (Hx : ¬ x == 0).
  { intros E. assert (E0 : Qabs x == 0) by (rewrite E; reflexivity).
    pose proof (pow2_pos g). lra. }
  destruct (ilog2_spec x Hx) as [G1 G2].
  assert (ilog2 x < g + 1)%Z.
  { apply (Qpower_lt_compat_l_inv 2); [|done]. eapply Qle_lt_trans; eauto. }
  assert (g < ilog2 x + 1)%Z.
  { apply (Qpower_lt_compat_l_inv 2); [|done]. eapply Qle_lt_trans; eauto. }
  lia.
Qed.

Lemma ilog2_comp (x y : Q) : x == y → ¬ x == 0 → ilog2 x = ilog2 y.
Proof.
  intros E Hx. symmetry. destruct (ilog2_spec x Hx) as [G1 G2].
  apply ilog2_unique; by rewrite <- E.
Qed.

Lemma fl_comp (x y : Q) : x == y → fl x = fl y.
Proof.
  intros E. unfold fl.
  destruct (Qeq_bool x 0) eqn:Hx.
  - apply Qeq_bool_iff in Hx. rewrite E in Hx. apply Qeq_bool_iff in Hx. by rewrite Hx.
  - assert (Hx' : ¬ x == 0) by (intros H; apply Qeq_bool_iff in H; congruence).
    assert (Hy : Qeq_bool y 0 = false).
    { destruct (Qeq_bool y 0) eqn:Hy; [|done]. apply Qeq_bool_iff in Hy.
      rewrite <- E in Hy. done. }
    rewrite Hy. cbv zeta. rewrite <- (ilog2_comp x y E Hx').
    apply Qred_complete.
    rewrite (round_half_even_comp (x / 2 ^ Z.max (ilog2 x - 52) (-1074))
                                  (y / 2 ^ Z.max (ilog2 x - 52) (-1074))); [reflexivity|].
    apply Qdiv_comp; [exact E | reflexivity].
Qed.

Lemma fl_0 : fl 0 = 0.
Proof. reflexivity. Qed.

Lemma fl_Qred (x : Q) : Qred (fl x) = fl x.
Proof.
  unfold fl. destruct (Qeq_bool x 0); [reflexivity|]. cbv zeta. apply Qred_complete, Qred_correct.
Qed.

Lemma fl_eq (x y : Q) : fl x == fl y → fl x = fl y.
Proof. intros E. rewrite <- (fl_Qred x), <- (fl_Qred y). by apply Qred_complete. Qed.

Lemma Qabs_div_pow2 (x : Q) (e : Z) : Qabs (x / 2 ^ e) == Qabs x / 2 ^ e.
Proof.
  unfold Qdiv. rewrite Qabs_Qmult.
  rewrite (Qabs_pos (/ 2 ^ e)); [reflexivity|].
  apply Qlt_le_weak, Qinv_lt_0_compat, pow2_pos.
Qed.

Lemma Zabs_le_of_Q (m : Z) (b : Z) : Qabs (inject_Z m) < inject_Z b + 1 → (Z.abs m ≤ b)%Z.
Proof.
  intros H. assert (E : Qabs (inject_Z m) == inject_Z (Z.abs m)) by reflexivity.
  rewrite E in H. change 1 with (inject_Z 1) in H. rewrite <- inject_Z_plus in H.
  rewrite <- Zlt_Qlt in H. lia.
Qed.

Lemma Zabs_ge_of_Q (m : Z) (b : Z) : inject_Z b - 1 < Qabs (inject_Z m) → (b ≤ Z.abs m)%Z.
Proof.
  intros H. assert (E : Qabs (inject_Z m) == inject_Z (Z.abs m)) by reflexivity.
  rewrite E in H.
  assert (H' : inject_Z (b - 1) < inject_Z (Z.abs m)).
  { unfold Z.sub. rewrite inject_Z_plus. exact H. }
  rewrite <- Zlt_Qlt in H'. lia.
Qed.

(** The result of [fl] is a double, nearest to the argument, with an even
    mantissa when two are nearest. *)
Lemma fl_spec (x : Q) :
  ∃ m e : Z,
    fl x == inject_Z m * 2 ^ e
    ∧ (-1074 ≤ e)%Z ∧ (Z.abs m ≤ 2 ^ 53)%Z
    ∧ (e = -1074 ∨ 2 ^ 52 ≤ Z.abs m)%Z
    ∧ Qabs (x / 2 ^ e - inject_Z m) <= 1 # 2
    ∧ (Qabs (x / 2 ^ e - inject_Z m) == 1 # 2 → Z.even m = true).
Proof.
  unfold fl. destruct (Qeq_bool x 0) eqn:Hx.
  - apply Qeq_bool_iff in Hx. exists 0%Z, (-1074)%Z.
    split; [ring|]. split; [lia|]. split; [done|]. split; [by left|].
    assert (E : x / 2 ^ (-1074) - inject_Z 0 == 0) by (rewrite Hx; reflexivity).
    split.
    + rewrite E. done.
    + rewrite E. intros H. discriminate H.
  - assert (Hx' : ¬ x == 0) by (intros H; apply Qeq_bool_iff in H; congruence).
    cbv zeta. set (e := Z.max (ilog2 x - 52) (-1074)).
    set (m := round_half_even (x / 2 ^ e)).
    destruct (ilog2_spec x Hx') as [G1 G2].
    destruct (round_half_even_spec (x / 2 ^ e)) as [R1 R2]. fold m in R1, R2.
    pose proof (pow2_pos e) as He.
    assert (Hm : Qabs (x / 2 ^ e) - (1 # 2) <= Qabs (inject_Z m)
                 ∧ Qabs (inject_Z m) <= Qabs (x / 2 ^ e) + (1 # 2)).
    { pose proof (Qabs_triangle_reverse (x / 2 ^ e) (inject_Z m)).
      pose proof (Qabs_triangle_reverse (inject_Z m) (x / 2 ^ e)).
      assert (Qabs (inject_Z m - x / 2 ^ e) == Qabs (x / 2 ^ e - inject_Z m)).
      { rewrite <- Qabs_opp. apply Qabs_wd. ring. }
      split; lra. }
    exists m, e. split; [apply Qred_correct|]. split; [lia|]. split; [|split; [|done]].
    + apply Zabs_le_of_Q.
      assert (Qabs (x / 2 ^ e) < inject_Z (2 ^ 53)); [|lra].
      rewrite Qabs_div_pow2. apply Qlt_shift_div_r; [done|].
      eapply Qlt_le_trans; [exact G2|].
      rewrite pow2_Z by done. rewrite <- pow2_add. apply pow2_le. lia.
    + destruct (decide (e = (-1074)%Z)) as [|Hne]; [by left|right].
      apply Zabs_ge_of_Q.
      assert (inject_Z (2 ^ 52) <= Qabs (x / 2 ^ e)); [|lra].
      rewrite Qabs_div_pow2. apply Qle_shift_div_l; [done|].
      eapply Qle_trans; [|exact G1].
      rewrite pow2_Z by done. rewrite <- pow2_add. apply pow2_le. lia.
Qed.

(** Every double is a fixed point of [fl]. *)
Lemma fl_exact (m e : Z) :
  (-1074 ≤ e)%Z → (Z.abs m ≤ 2 ^ 53)%Z → fl (inject_Z m * 2 ^ e) == inject_Z m * 2 ^ e.
Proof.
  intros He Hm. destruct (decide (m = 0%Z)) as [->|Hm0].
  - rewrite (fl_comp (inject_Z 0 * 2 ^ e) 0) by ring. rewrite fl_0. ring.
  - set (y := inject_Z m * 2 ^ e).
    pose proof (pow2_pos e) as Hpe.
    assert (Hy : ¬ y == 0).
    { unfold y. intros E. apply Qmult_integral in E as [E|E]; [|lra].
      apply (inject_Z_injective m 0) in E. lia. }
    assert (Habs : Qabs y == inject_Z (Z.abs m) * 2 ^ e).
    { unfold y. rewrite Qabs_Qmult, (Qabs_pos (2 ^ e)) by lra. reflexivity. }
    assert (H0 : (0 < Z.abs m)%Z) by lia.
    destruct (Z.log2_spec _ H0) as [L1 L2]. pose proof (Z.log2_nonneg (Z.abs m)) as L0.
    set (L := Z.log2 (Z.abs m)) in *.
    assert (HL : (L ≤ 53)%Z).
    { destruct (decide (L ≤ 53)%Z); [done|].
      assert (2 ^ 54 ≤ 2 ^ L)%Z by (apply Z.pow_le_mono_r; lia). lia. }
    assert (Hg : ilog2 y = (L + e)%Z).
    { apply ilog2_unique; rewrite Habs.
      - rewrite pow2_add. apply Qmult_le_r; [done|].
        rewrite <- pow2_Z by done. by rewrite <- Zle_Qle.
      - replace (L + e + 1)%Z with ((L + 1) + e)%Z by lia.
        rewrite pow2_add. apply Qmult_lt_r; [done|].
        rewrite <- pow2_Z by lia. rewrite <- Zlt_Qlt. lia. }
    assert (Hyb : Qeq_bool y 0 = false).
    { destruct (Qeq_bool y 0) eqn:E; [|done]. apply Qeq_bool_iff in E. done. }
    unfold fl. rewrite Hyb. cbv zeta. rewrite Hg. set (e' := Z.max (L + e - 52) (-1074)).
    assert (Hk : ∃ k : Z, y == inject_Z k * 2 ^ e').
    { destruct (decide (e' ≤ e)%Z) as [Hle|Hgt].
      - exists (m * 2 ^ (e - e'))%Z. unfold y.
        rewrite inject_Z_mult, pow2_Z by lia.
        rewrite <- Qmult_assoc, <- pow2_add. by replace (e - e' + e')%Z with e by lia.
      - assert (L = 53%Z) as HL53 by lia. assert (e' = (e + 1)%Z) as -> by lia.
        clearbody L. subst L.
        assert (Z.abs m = 2 ^ 53)%Z as Hm53 by lia.
        exists (m / 2)%Z. unfold y.
        assert (m = 2 * (m / 2))%Z as Hm2.
        { apply Z.div_exact; [lia|].
          destruct (Z.abs_spec m) as [[_ E]|[_ E]].
          - rewrite <- E, Hm53. done.
          - assert (m = - 2 ^ 53)%Z as -> by lia. done. }
        rewrite Hm2 at 1. rewrite inject_Z_mult, pow2_add.
        change (2 ^ 1) with 2. change (inject_Z 2) with 2. ring. }
    destruct Hk as [k Hk].
    rewrite Qred_correct.
    rewrite (round_half_even_comp (y / 2 ^ e') (inject_Z k)), round_half_even_Z.
    + by rewrite <- Hk.
    + rewrite Hk. field. pose proof (pow2_pos e'). lra.
Qed.

Lemma fl_idem (x : Q) : fl (fl x) = fl x.
Proof.
  destruct (fl_spec x) as (m & e & E & He & Hm & _).
  transitivity (Qred (fl (fl x))); [symmetry; apply fl_Qred|].
  transitivity (Qred (fl x)); [|apply fl_Qred]. apply Qred_complete.
  rewrite (fl_comp (fl x) _ E). rewrite fl_exact by done. by rewrite E.
Qed.

Lemma fadd_comp (x x' y y' : Q) : x == x' → y == y' → x ⊕ y = x' ⊕ y'.
Proof. intros Ex Ey. unfold fadd. by rewrite (fl_comp x x' Ex), (fl_comp y y' Ey). Qed.

Lemma fsub_comp (x x' y y' : Q) : x == x' → y == y' → x ⊖ y = x' ⊖ y'.
Proof. intros Ex Ey. unfold fsub. by rewrite (fl_comp x x' Ex), (fl_comp y y' Ey). Qed.

Lemma fmul_comp (x x' y y' : Q) : x == x' → y == y' → x ⊗ y = x' ⊗ y'.
Proof. intros Ex Ey. unfold fmul. by rewrite (fl_comp x x' Ex), (fl_comp y y' Ey). Qed.

Lemma fdiv_comp (x x' y y' : Q) : x == x' → y == y' → x ⊘ y = x' ⊘ y'.
Proof. intros Ex Ey. unfold fdiv. by rewrite (fl_comp x x' Ex), (fl_comp y y' Ey). Qed.

Lemma fadd_comm (x y : Q) : x ⊕ y = y ⊕ x.
Proof. unfold fadd. apply fl_comp. ring. Qed.

Lemma fmul_comm (x y : Q) : x ⊗ y = y ⊗ x.
Proof. unfold fmul. apply fl_comp. ring. Qed.

Lemma fl_fadd (x y : Q) : fl (x ⊕ y) = x ⊕ y.
Proof. apply fl_idem. Qed.

Lemma fl_fsub (x y : Q) : fl (x ⊖ y) = x ⊖ y.
Proof. apply fl_idem. Qed.

Lemma fl_fmul (x y : Q) : fl (x ⊗ y) = x ⊗ y.
Proof. apply fl_idem. Qed.

Lemma fadd_0_l (x : Q) : 0 ⊕ x = fl x.
Proof.
  unfold fadd. rewrite fl_0. rewrite (fl_comp (0 + fl x) (fl x)) by ring. apply fl_idem.
Qed.

Lemma fsub_0_r (x y : Q) : y == 0 → x ⊖ y = fl x.
Proof.
  intros E. unfold fsub. rewrite (fl_comp y 0 E), fl_0.
  rewrite (fl_comp (fl x - 0) (fl x)) by ring. apply fl_idem.
Qed.

Lemma fmul_0_l (x y : Q) : x == 0 → x ⊗ y = 0.
Proof.
  intros E. unfold fmul. rewrite (fl_comp x 0 E), fl_0.
  by rewrite (fl_comp (0 * fl y) 0) by ring.
Qed.

Lemma fmul_0_r (x y : Q) : y == 0 → x ⊗ y = 0.
Proof. intros E. rewrite fmul_comm. by apply fmul_0_l. Qed.

Lemma py_round1_comp (x y : Q) : x == y → py_round1 x = py_round1 y.
Proof. intros E. unfold py_round1. by rewrite (fl_comp x y E). Qed.

Lemma py_round1_fl (x : Q) : py_round1 (fl x) = py_round1 x.
Proof. unfold py_round1. by rewrite fl_idem. Qed.

(** [round(x, 1)] is the double of the tenth nearest to [x], of the even
    one when two are nearest. *)
Lemma py_round1_spec (x : Q) :
  ∃ n : Z,
    py_round1 x = fl (n # 10)
    ∧ Qabs (fl x * 10 - inject_Z n) <= 1 # 2
    ∧ (Qabs (fl x * 10 - inject_Z n) == 1 # 2 → Z.even n = true).
Proof.
  exists (round_half_even (fl x * 10)). split; [done|].
  apply round_half_even_spec.
Qed.

Lemma py_sum_snoc (xs : list Q) (x : Q) : py_sum (xs ++ [x]) = py_sum xs ⊕ x.
Proof. unfold py_sum. by rewrite fold_left_app. Qed.

Lemma Qeq_bool_false (x y : Q) : ¬ x == y → Qeq_bool x y = false.
Proof.
  intros H. destruct (Qeq_bool x y) eqn:E; [|reflexivity].
  exfalso. apply H. apply Qeq_bool_iff. exact E.
Qed.

Lemma Qeq_bool_true (x y : Q) : x == y → Qeq_bool x y = true.
Proof. apply Qeq_bool_iff. Qed.

(** ** The fantavoto formula *)

Ltac float_comp :=
  repeat first
    [ assumption
    | apply fadd_comp | apply fsub_comp | apply fmul_comp | apply fdiv_comp
    | match goal with
      | |- ?a == ?b => first [reflexivity | cut (a = b); [intros ->; reflexivity|]]
      end ].

Lemma spec_score_comp (role : Role.t) (s s' : PlayerStats.t) :
  stats_eq s s' → spec_score role s = spec_score role s'.
Proof.
  intros (Hr & Hgf & Hgs & Hrp & Hrs & _ & Hau & Hamm & Hesp & Hass).
  unfold spec_score. cbv zeta.
  assert (Hb : Qeq_bool (PlayerStats.gs s) 0 = Qeq_bool (PlayerStats.gs s') 0).
  { destruct (Qeq_bool (PlayerStats.gs s') 0) eqn:E.
    - apply Qeq_bool_true. apply Qeq_bool_iff in E. rewrite Hgs. exact E.
    - apply Qeq_bool_false. intros H. rewrite Hgs in H.
      apply Qeq_bool_iff in H. congruence. }
  rewrite Hb.
  destruct role; [destruct (Qeq_bool (PlayerStats.gs s') 0)| | |]; float_comp.
Qed.

(** The code and the specification differ in the side on which they write
    the weights and in the order of the two goalkeeper terms; neither
    changes the double. *)
Lemma calculate_fantavoto_played (p : Player.t) (m : Z) (s : PlayerStats.t) :
  Player.matchday_stats p !! m = Some s →
  ¬ PlayerStats.rating s == 0 →
  Player.calculate_fantavoto p m = py_round1 (spec_score (Player.role p) s).
Proof.
  intros Hs Hr. unfold Player.calculate_fantavoto, Player.get_stats.
  rewrite Hs, (Qeq_bool_false _ _ Hr). cbv zeta.
  f_equal. unfold spec_score.
  rewrite !(fmul_comm (PlayerStats.gf s)), !(fmul_comm (PlayerStats.ass s)),
    !(fmul_comm (PlayerStats.rp s)), !(fmul_comm (PlayerStats.rs s)),
    !(fmul_comm (PlayerStats.amm s)), !(fmul_comm (PlayerStats.esp s)),
    !(fmul_comm (PlayerStats.au s)), !(fmul_comm (PlayerStats.gs s)).
  destruct (Player.role p); cbn [bool_decide decide_rel andb]; cbv zeta;
    try (rewrite bool_decide_eq_false_2 by discriminate; cbn [andb]; reflexivity).
  rewrite bool_decide_eq_true_2 by reflexivity. cbn [andb].
  destruct (Qeq_bool (PlayerStats.gs s) 0) eqn:Hgs; [|reflexivity].
  apply Qeq_bool_iff in Hgs.
  rewrite (fmul_0_r 1 _ Hgs).
  rewrite !(fsub_0_r _ 0) by reflexivity.
  by rewrite fl_fadd, fl_fsub.
Qed.

Lemma spec_score_fl (role : Role.t) (s : PlayerStats.t) :
  fl (spec_score role s) = spec_score role s.
Proof.
  unfold spec_score. cbv zeta.
  destruct role; [destruct (Qeq_bool (PlayerStats.gs s) 0)| | |]; apply fl_idem.
Qed.

(** *** On the numbers of the game the arithmetic of floats is exact *)

Lemma fl_half (x : Q) (k : Z) :
  x == inject_Z k / 2 → (Z.abs k ≤ 2 ^ 53)%Z → fl x == x.
Proof.
  intros E Hk. rewrite (fl_comp x (inject_Z k * 2 ^ (-1))).
  - rewrite fl_exact by (done || lia). rewrite E. reflexivity.
  - rewrite E. reflexivity.
Qed.

Lemma fadd_half (x y : Q) (kx ky : Z) :
  x == inject_Z kx / 2 → y == inject_Z ky / 2 →
  (Z.abs kx ≤ 2 ^ 52)%Z → (Z.abs ky ≤ 2 ^ 52)%Z →
  x ⊕ y == inject_Z (kx + ky) / 2.
Proof.
  intros Ex Ey Hx Hy. unfold fadd.
  assert (E : fl x + fl y == inject_Z (kx + ky) / 2).
  { rewrite (fl_half x kx), (fl_half y ky), Ex, Ey, inject_Z_plus by (done || lia). field. }
  rewrite (fl_half _ _ E) by lia. exact E.
Qed.

Lemma fsub_half (x y : Q) (kx ky : Z) :
  x == inject_Z kx / 2 → y == inject_Z ky / 2 →
  (Z.abs kx ≤ 2 ^ 52)%Z → (Z.abs ky ≤ 2 ^ 52)%Z →
  x ⊖ y == inject_Z (kx - ky) / 2.
Proof.
  intros Ex Ey Hx Hy. unfold fsub.
  assert (E : fl x - fl y == inject_Z (kx - ky) / 2).
  { rewrite (fl_half x kx), (fl_half y ky), Ex, Ey by (done || lia).
    unfold Z.sub. rewrite inject_Z_plus, inject_Z_opp. field. }
  rewrite (fl_half _ _ E) by lia. exact E.
Qed.

Lemma fmul_half (x y : Q) (kx ky : Z) :
  x == inject_Z kx / 2 → y == inject_Z ky →
  (Z.abs kx ≤ 2 ^ 4)%Z → (Z.abs ky ≤ 2 ^ 40)%Z →
  x ⊗ y == inject_Z (kx * ky) / 2.
Proof.
  intros Ex Ey Hx Hy. unfold fmul.
  assert (Ey' : y == inject_Z (2 * ky) / 2) by (rewrite Ey, inject_Z_mult; field).
  assert (E : fl x * fl y == inject_Z (kx * ky) / 2).
  { rewrite (fl_half x kx), (fl_half y (2 * ky)), Ex, Ey, inject_Z_mult by (done || lia).
    field. }
  rewrite (fl_half _ _ E) by nia. exact E.
Qed.

Lemma py_round1_half (x : Q) (k : Z) :
  x == inject_Z k / 2 → (Z.abs k ≤ 2 ^ 50)%Z → py_round1 x == x.
Proof.
  intros E Hk. unfold py_round1.
  rewrite (round_half_even_comp (fl x * 10) (inject_Z (5 * k))), round_half_even_Z.
  - assert (E' : (5 * k # 10) == inject_Z k / 2).
    { rewrite Qmake_Qdiv, inject_Z_mult. field. }
    rewrite (fl_half _ _ E') by lia. by rewrite E', E.
  - rewrite (fl_half x k), E, inject_Z_mult by (done || lia). field.
Qed.

Lemma spec_score_exact (role : Role.t) (s : PlayerStats.t) :
  vote_domain s →
  spec_score role s == exact_score role s
  ∧ ∃ k : Z, exact_score role s == inject_Z k / 2 ∧ (Z.abs k ≤ 2 ^ 50)%Z.
Proof.
  intros ((a & Ea & Ha) & (b & Eb & Hb) & (g & Eg & Hg) & (c & Ec & Hc) & (d & Ed & Hd)
          & (u & Eu & Hu) & (y & Ey & Hy) & (r & Er & Hr) & (t & Et & Ht)).
  assert (T1 : 3 ⊗ PlayerStats.gf s == inject_Z (6 * b) / 2)
    by (apply fmul_half; [reflexivity|done|lia|done]).
  assert (T2 : 1 ⊗ PlayerStats.ass s == inject_Z (2 * t) / 2)
    by (apply fmul_half; [reflexivity|done|lia|done]).
  assert (T3 : 3 ⊗ PlayerStats.rp s == inject_Z (6 * c) / 2)
    by (apply fmul_half; [reflexivity|done|lia|done]).
  assert (T4 : 3 ⊗ PlayerStats.rs s == inject_Z (6 * d) / 2)
    by (apply fmul_half; [reflexivity|done|lia|done]).
  assert (T5 : 0.5 ⊗ PlayerStats.amm s == inject_Z (1 * y) / 2)
    by (apply fmul_half; [reflexivity|done|lia|done]).
  assert (T6 : 1 ⊗ PlayerStats.esp s == inject_Z (2 * r) / 2)
    by (apply fmul_half; [reflexivity|done|lia|done]).
  assert (T7 : 2 ⊗ PlayerStats.au s == inject_Z (4 * u) / 2)
    by (apply fmul_half; [reflexivity|done|lia|done]).
  assert (T8 : 1 ⊗ PlayerStats.gs s == inject_Z (2 * g) / 2)
    by (apply fmul_half; [reflexivity|done|lia|done]).
  pose proof (fadd_half _ _ _ _ Ea T1 ltac:(lia) ltac:(lia)) as V1.
  pose proof (fadd_half _ _ _ _ V1 T2 ltac:(lia) ltac:(lia)) as V2.
  pose proof (fsub_half _ _ _ _ V2 T3 ltac:(lia) ltac:(lia)) as V3.
  pose proof (fadd_half _ _ _ _ V3 T4 ltac:(lia) ltac:(lia)) as V4.
  pose proof (fsub_half _ _ _ _ V4 T5 ltac:(lia) ltac:(lia)) as V5.
  pose proof (fsub_half _ _ _ _ V5 T6 ltac:(lia) ltac:(lia)) as V6.
  pose proof (fsub_half _ _ _ _ V6 T7 ltac:(lia) ltac:(lia)) as V7.
  pose proof (fsub_half _ _ _ _ V7 T8 ltac:(lia) ltac:(lia)) as V8.
  assert (One : 1 == inject_Z 2 / 2) by reflexivity.
  pose proof (fadd_half _ _ _ _ V8 One ltac:(lia) ltac:(lia)) as V9.
  set (k7 := (a + 6 * b + 2 * t - 6 * c + 6 * d - 1 * y - 2 * r - 4 * u)%Z) in *.
  assert (X7 : PlayerStats.rating s + 3 * PlayerStats.gf s + 1 * PlayerStats.ass s
               - 3 * PlayerStats.rp s + 3 * PlayerStats.rs s - 0.5 * PlayerStats.amm s
               - 1 * PlayerStats.esp s - 2 * PlayerStats.au s
               == inject_Z k7 / 2).
  { rewrite Ea, Eb, Ec, Ed, Eu, Ey, Er, Et. unfold k7, Z.sub.
    rewrite !inject_Z_plus, !inject_Z_opp, !inject_Z_mult. field. }
  unfold spec_score, exact_score. cbv zeta.
  destruct role.
  - destruct (Qeq_bool (PlayerStats.gs s) 0).
    + split.
      * rewrite V9, X7, Eg. rewrite !inject_Z_plus. unfold Z.sub.
        rewrite inject_Z_plus, inject_Z_opp, inject_Z_mult. field.
      * exists (k7 - 2 * g + 2)%Z. split; [|lia].
        rewrite X7, Eg. rewrite !inject_Z_plus. unfold Z.sub.
        rewrite inject_Z_plus, inject_Z_opp, inject_Z_mult. field.
    + split.
      * rewrite V8, X7, Eg. unfold Z.sub.
        rewrite inject_Z_plus, inject_Z_opp, inject_Z_mult. field.
      * exists (k7 - 2 * g)%Z. split; [|lia].
        rewrite X7, Eg. unfold Z.sub.
        rewrite inject_Z_plus, inject_Z_opp, inject_Z_mult. field.
  - split; [by rewrite V7, X7|]. exists k7. split; [done|lia].
  - split; [by rewrite V7, X7|]. exists k7. split; [done|lia].
  - split; [by rewrite V7, X7|]. exists k7. split; [done|lia].
Qed.

(** C1. When stats are stored for the matchday and the rating is not 0,
    [calculate_fantavoto] is the formula of the specification, evaluated
    in floats in the order it is written, rounded to one decimal. On the
    numbers of the game (a vote that is a multiple of one half, whole
    counts) no operation rounds, and the result is the formula in exact
    arithmetic; so an outfield player with rating 6, one goal and one
    assist scores 10.0, a goalkeeper with rating 6 and no goal conceded
    scores 7.0, and one with rating 6 who conceded two scores 4.0. Off
    those numbers the floats decide: rating 6.05 and one goal give 9.1,
    the sum 9.05 being a double just above. The result is the double of a
    tenth [n / 10] nearest to the score, of the even [n] when two are
    nearest, and a double is the nearest number [m * 2 ^ e] with 53 bits of
    mantissa, of the even mantissa when two are nearest. *)
Theorem calculate_fantavoto_formula (p : Player.t) (m : Z) (s : PlayerStats.t)
    (Hs : Player.matchday_stats p !! m = Some s)
    (Hr : ¬ PlayerStats.rating s == 0) :
  Player.calculate_fantavoto p m = py_round1 (spec_score (Player.role p) s)
  ∧ (vote_domain s → Player.calculate_fantavoto p m == exact_score (Player.role p) s)
  ∧ (Player.role p ≠ Role.GOALKEEPER →
     stats_eq s (PlayerStats.mk 6 1 0 0 0 0 0 0 0 1) →
     Player.calculate_fantavoto p m == 10)
  ∧ (Player.role p = Role.GOALKEEPER →
     stats_eq s (PlayerStats.mk 6 0 0 0 0 0 0 0 0 0) →
     Player.calculate_fantavoto p m == 7)
  ∧ (Player.role p = Role.GOALKEEPER →
     stats_eq s (PlayerStats.mk 6 0 2 0 0 0 0 0 0 0) →
     Player.calculate_fantavoto p m == 4)
  ∧ (Player.role p ≠ Role.GOALKEEPER →
     stats_eq s (PlayerStats.mk 6.05 1 0 0 0 0 0 0 0 0) →
     Player.calculate_fantavoto p m = fl 9.1
     ∧ ¬ Player.calculate_fantavoto p m == 9.1)
  ∧ (∃ n : Z,
       Player.calculate_fantavoto p m = fl (n # 10)
       ∧ Qabs (spec_score (Player.role p) s * 10 - inject_Z n) <= 1 # 2
       ∧ (Qabs (spec_score (Player.role p) s * 10 - inject_Z n) == 1 # 2 →
          Z.even n = true))
  ∧ (∀ x : Q, ∃ mantissa e : Z,
       fl x == inject_Z mantissa * 2 ^ e
       ∧ (-1074 ≤ e)%Z ∧ (Z.abs mantissa ≤ 2 ^ 53)%Z
       ∧ (e = -1074 ∨ 2 ^ 52 ≤ Z.abs mantissa)%Z
       ∧ Qabs (x / 2 ^ e - inject_Z mantissa) <= 1 # 2
       ∧ (Qabs (x / 2 ^ e - inject_Z mantissa) == 1 # 2 → Z.even mantissa = true)).
Proof.
  pose proof (calculate_fantavoto_played p m s Hs Hr) as F.
  split; [exact F|]. rewrite F. split.
  { intros Hdom. destruct (spec_score_exact (Player.role p) s Hdom) as (E & k & Ek & Hk).
    rewrite (py_round1_comp _ _ E). rewrite (py_round1_half _ k) by done. reflexivity. }
  split; [|split; [|split; [|split; [|split]]]].
  - intros Hrole E. rewrite (spec_score_comp _ _ _ E).
    destruct (Player.role p); [congruence| | |]; vm_compute; reflexivity.
  - intros Hrole E. rewrite (spec_score_comp _ _ _ E), Hrole. vm_compute; reflexivity.
  - intros Hrole E. rewrite (spec_score_comp _ _ _ E), Hrole. vm_compute; reflexivity.
  - intros Hrole E. rewrite (spec_score_comp _ _ _ E).
    destruct (Player.role p); [congruence| | |]; (split; [vm_compute; reflexivity|]);
      vm_compute; discriminate.
  - destruct (py_round1_spec (spec_score (Player.role p) s)) as (n & E & Hn).
    rewrite spec_score_fl in Hn. by exists n.
  - apply fl_spec.
Qed.

Lemma calculate_fantavoto_formula_witness :
  Player.calculate_fantavoto sample_forward 1 == 10
  ∧ Player.calculate_fantavoto (sample_keeper 0) 1 == 7
  ∧ Player.calculate_fantavoto (sample_keeper 2) 1 == 4.
Proof.
  split; [|split].
  - apply (calculate_fantavoto_formula sample_forward 1 (PlayerStats.mk 6 1 0 0 0 0 0 0 0 1));
      [reflexivity | vm_compute; discriminate | discriminate
      | repeat split; reflexivity].
  - apply (calculate_fantavoto_formula (sample_keeper 0) 1 (PlayerStats.mk 6 0 0 0 0 0 0 0 0 0));
      [reflexivity | vm_compute; discriminate | reflexivity
      | repeat split; reflexivity].
  - apply (calculate_fantavoto_formula (sample_keeper 2) 1 (PlayerStats.mk 6 0 2 0 0 0 0 0 0 0));
      [reflexivity | vm_compute; discriminate | reflexivity
      | repeat split; reflexivity].
Defined.

(** C2. Whatever the other fields hold, a matchday without stats, or whose
    stats have rating 0, has fantavoto exactly 0.0. *)
Theorem calculate_fantavoto_did_not_play (p : Player.t) (m : Z)
    (H : Player.matchday_stats p !! m = None
         ∨ ∃ s, Player.matchday_stats p !! m = Some s ∧ PlayerStats.rating s == 0) :
  Player.calculate_fantavoto p m = 0.
Proof.
  unfold Player.calculate_fantavoto, Player.get_stats.
  destruct H as [-> | (s & -> & Hr)]; [reflexivity|].
  rewrite (Qeq_bool_true _ _ Hr). reflexivity.
Qed.

Lemma calculate_fantavoto_did_not_play_witness :
  Player.calculate_fantavoto sample_absent 1 = 0
  ∧ Player.calculate_fantavoto sample_absent 2 = 0.
Proof.
  split.
  - apply calculate_fantavoto_did_not_play. right.
    exists (PlayerStats.mk 0 2 0 0 1 0 0 1 0 3). split; reflexivity.
  - apply calculate_fantavoto_did_not_play. left. reflexivity.
Defined.

(** ** The fantavoto cache *)

Lemma calculate_fantavoto_ext (p q : Player.t) (m : Z) :
  Player.role p = Player.role q →
  Player.matchday_stats p !! m = Player.matchday_stats q !! m →
  Player.calculate_fantavoto p m = Player.calculate_fantavoto q m.
Proof.
  intros Hrole Hstats. unfold Player.calculate_fantavoto, Player.get_stats.
  rewrite Hrole, Hstats. reflexivity.
Qed.

Lemma load_player_matchday_consistent (p : Player.t) (m : Z) (data : gmap string Q) :
  cache_consistent p → cache_consistent (Loader.load_player_matchday p m data).
Proof.
  intros Hp m'. specialize (Hp m') as [Hdom Hval].
  unfold Loader.load_player_matchday, Player.add_matchday_fantavoto.
  cbn [Player.matchday_fantavoto Player.matchday_stats Player.add_matchday_stats].
  destruct (decide (m = m')) as [<- | Hne].
  - rewrite !lookup_insert_eq. split; [split; eauto|].
    intros v [= <-]. apply calculate_fantavoto_ext; reflexivity.
  - rewrite !lookup_insert_ne by done. split; [exact Hdom|].
    intros v Hv. rewrite (Hval v Hv).
    apply calculate_fantavoto_ext; [reflexivity|].
    cbn. rewrite lookup_insert_ne by done. reflexivity.
Qed.

Lemma load_player_consistent (files : list (Z * gmap string Q)) (p : Player.t) :
  cache_consistent p → cache_consistent (load_player p files).
Proof.
  revert p. induction files as [|[m data] files IH]; intros p Hp; [exact Hp|].
  apply IH, load_player_matchday_consistent, Hp.
Qed.

(** C4 as stated fails: the two maps are written by separate methods, so
    after [add_matchday_stats] alone a matchday has stats and no cached
    fantavoto, after [add_matchday_fantavoto] alone it has a cached value
    and no stats, and re-adding stats leaves the old value in the cache. *)
Lemma cache_consistent_counterexample :
  let fresh := Player.mk 10 Role.FORWARD "Rossi" "Milan" ∅ ∅ in
  ¬ cache_consistent (fold_left apply_op [AddStats 1 {[ "Rating" := 6 ]}] fresh)
  ∧ ¬ cache_consistent (fold_left apply_op [AddFantavoto 1] fresh)
  ∧ ¬ cache_consistent
        (fold_left apply_op
           [AddStats 1 {[ "Rating" := 6 ]}; AddFantavoto 1; AddStats 1 {[ "Rating" := 7 ]}]
           fresh).
Proof.
  cbv zeta. split; [|split]; intros H; specialize (H 1%Z) as [Hdom Hval].
  - assert (E : is_Some (None : option Q)) by (apply Hdom; vm_compute; eauto).
    destruct E as [? [=]].
  - assert (E : is_Some (None : option PlayerStats.t)) by (apply Hdom; vm_compute; eauto).
    destruct E as [? [=]].
  - specialize (Hval 6 eq_refl). vm_compute in Hval. discriminate Hval.
Qed.

(** C4, amended. Along the loader's calls, where [add_matchday_stats] for a
    matchday is always followed by [add_matchday_fantavoto] for it, a
    fantavoto is cached for a matchday exactly when stats are stored for it,
    and the cached value is [calculate_fantavoto] of the stored stats. *)
Theorem loader_cache_consistent (cod : Z) (role : Role.t) (name team : string)
    (files : list (Z * gmap string Q)) :
  cache_consistent (load_player (Player.mk cod role name team ∅ ∅) files).
Proof.
  apply load_player_consistent. intros m. cbn. rewrite !lookup_empty.
  split; [split; intros [? [=]]|]. intros v [=].
Qed.

(** ** Dictionaries *)

Section PyDictFacts.
Context {K V : Type} `{EqDecision K}.
Implicit Types (k : K) (v : V) (d : pydict K V).

Lemma dict_get_None k d : dict_get k d = None ↔ k ∉ dict_keys d.
Proof.
  unfold dict_keys. induction d as [|[k' v'] d IH]; cbn.
  - split; [intros _; apply not_elem_of_nil | done].
  - rewrite not_elem_of_cons. destruct (decide (k = k')); [naive_solver|].
    rewrite IH. naive_solver.
Qed.

Lemma dict_get_is_Some k d : is_Some (dict_get k d) ↔ k ∈ dict_keys d.
Proof.
  rewrite <- not_eq_None_Some, dict_get_None.
  destruct (decide (k ∈ dict_keys d)); naive_solver.
Qed.

Lemma dict_get_Some_elem k v d : dict_get k d = Some v → (k, v) ∈ d.
Proof.
  induction d as [|[k' v'] d IH]; cbn; [done|].
  destruct (decide (k = k')) as [->|].
  - intros [= ->]. apply list_elem_of_here.
  - intros Hd. apply list_elem_of_further, IH, Hd.
Qed.

Lemma dict_elem_get k v d : NoDup (dict_keys d) → (k, v) ∈ d → dict_get k d = Some v.
Proof.
  unfold dict_keys. induction d as [|[k' v'] d IH]; cbn; intros Hnd Hin.
  - by apply elem_of_nil in Hin.
  - apply NoDup_cons in Hnd as [Hk' Hnd].
    apply elem_of_cons in Hin as [[= -> ->] | Hin].
    + by rewrite decide_True.
    + rewrite decide_False; [by apply IH|].
      intros ->. apply Hk'. apply (list_elem_of_fmap_2 fst) in Hin. exact Hin.
Qed.

Lemma dict_get_set_eq k v d : dict_get k (dict_set k v d) = Some v.
Proof.
  induction d as [|[k' v'] d IH]; cbn.
  - by rewrite decide_True.
  - destruct (decide (k = k')) as [->|Hne]; cbn.
    + by rewrite decide_True.
    + by rewrite decide_False.
Qed.

Lemma dict_get_set_ne k k' v d : k ≠ k' → dict_get k' (dict_set k v d) = dict_get k' d.
Proof.
  intros Hne. induction d as [|[k0 v0] d IH]; cbn.
  - by rewrite decide_False.
  - destruct (decide (k = k0)) as [->|]; cbn.
    + by rewrite !decide_False.
    + by rewrite IH.
Qed.

Lemma dict_set_fresh k v d : dict_get k d = None → dict_set k v d = d ++ [(k, v)].
Proof.
  induction d as [|[k' v'] d IH]; cbn; [done|].
  destruct (decide (k = k')); [done|]. intros Hd. by rewrite IH.
Qed.

Lemma dict_keys_set_present k v d :
  is_Some (dict_get k d) → dict_keys (dict_set k v d) = dict_keys d.
Proof.
  unfold dict_keys. induction d as [|[k' v'] d IH]; cbn.
  - intros [? [=]].
  - destruct (decide (k = k')) as [->|]; cbn; [done|]. intros Hd. by rewrite IH.
Qed.

Lemma dict_keys_set_fresh k v d :
  dict_get k d = None → dict_keys (dict_set k v d) = dict_keys d ++ [k].
Proof.
  intros Hd. rewrite (dict_set_fresh _ _ _ Hd). unfold dict_keys.
  by rewrite fmap_app.
Qed.

Lemma dict_set_set k v v' d : dict_set k v (dict_set k v' d) = dict_set k v d.
Proof.
  induction d as [|[k' v0] d IH]; cbn.
  - by rewrite decide_True.
  - destruct (decide (k = k')) as [->|]; cbn.
    + by rewrite decide_True.
    + by rewrite decide_False, IH.
Qed.

Lemma elem_of_dict_keys_set k k' v d :
  k' ∈ dict_keys (dict_set k v d) ↔ k' = k ∨ k' ∈ dict_keys d.
Proof.
  rewrite <- !dict_get_is_Some. destruct (decide (k = k')) as [->|Hne].
  - rewrite dict_get_set_eq. naive_solver.
  - rewrite dict_get_set_ne by done. naive_solver.
Qed.

Lemma dict_set_NoDup k v d : NoDup (dict_keys d) → NoDup (dict_keys (dict_set k v d)).
Proof.
  intros Hnd. destruct (dict_get k d) eqn:Hd.
  - by rewrite dict_keys_set_present by eauto.
  - rewrite dict_keys_set_fresh by done.
    apply NoDup_app. split; [done|]. split; [|apply NoDup_singleton].
    intros x Hx ->%list_elem_of_singleton. by apply dict_get_None in Hd.
Qed.

Lemma dict_mem_true k d : dict_mem k d = true ↔ k ∈ dict_keys d.
Proof. unfold dict_mem. rewrite bool_decide_eq_true. apply dict_get_is_Some. Qed.

Lemma dict_mem_false k d : dict_mem k d = false ↔ dict_get k d = None.
Proof.
  unfold dict_mem. rewrite bool_decide_eq_false, <- not_eq_None_Some.
  destruct (dict_get k d); naive_solver.
Qed.

End PyDictFacts.

(** ** SeasonTable *)

Lemma add_scores_snoc (t : SeasonTable.t) (calls : list (Z * Q)) (m : Z) (score : Q) :
  add_scores t (calls ++ [(m, score)])
  = SeasonTable.add_matchday_score (add_scores t calls) m score.
Proof. unfold add_scores. by rewrite fold_left_app. Qed.

Lemma add_matchday_score_total (t : SeasonTable.t) (m : Z) (score : Q) :
  SeasonTable.total_points (SeasonTable.add_matchday_score t m score)
  = py_sum (dict_values
      (SeasonTable.matchday_scores (SeasonTable.add_matchday_score t m score))).
Proof. reflexivity. Qed.

Lemma add_matchday_score_twice (t : SeasonTable.t) (m : Z) (a b : Q) :
  SeasonTable.add_matchday_score (SeasonTable.add_matchday_score t m a) m b
  = SeasonTable.add_matchday_score t m b.
Proof.
  unfold SeasonTable.add_matchday_score. cbn.
  rewrite dict_set_set.
  assert (Hm : dict_mem m (dict_set m a (SeasonTable.matchday_scores t)) = true).
  { apply dict_mem_true, elem_of_dict_keys_set. by left. }
  rewrite Hm. reflexivity.
Qed.

(** The invariant of a table built by [add_matchday_score] alone. *)
Lemma add_scores_invariant (team : Team.t) (calls : list (Z * Q)) :
  let t := add_scores (SeasonTable.init team) calls in
  SeasonTable.total_points t = py_sum (dict_values (SeasonTable.matchday_scores t))
  ∧ NoDup (dict_keys (SeasonTable.matchday_scores t))
  ∧ SeasonTable.matchdays_played t
    = Z.of_nat (length (dict_keys (SeasonTable.matchday_scores t)))
  ∧ (∀ m, m ∈ dict_keys (SeasonTable.matchday_scores t) ↔ m ∈ calls.*1).
Proof.
  induction calls as [|[m score] calls IH] using rev_ind; cbv zeta.
  - cbn. repeat split; try apply NoDup_nil_2; intros []%elem_of_nil.
  - rewrite add_scores_snoc. destruct IH as (Htot & Hnd & Hplayed & Hkeys).
    set (t := add_scores (SeasonTable.init team) calls) in *.
    split; [reflexivity|]. split; [by apply dict_set_NoDup|]. split.
    + unfold SeasonTable.add_matchday_score.
      cbn [SeasonTable.matchdays_played SeasonTable.matchday_scores].
      destruct (dict_mem m (SeasonTable.matchday_scores t)) eqn:Hm; cbn [negb].
      * apply dict_mem_true, dict_get_is_Some in Hm.
        by rewrite dict_keys_set_present.
      * apply dict_mem_false in Hm. rewrite dict_keys_set_fresh by done.
        rewrite length_app, Hplayed. cbn. lia.
    + intros m'. unfold SeasonTable.add_matchday_score.
      cbn [SeasonTable.matchday_scores].
      rewrite elem_of_dict_keys_set, Hkeys, fmap_app, elem_of_app.
      cbn. rewrite list_elem_of_singleton. naive_solver.
Qed.

(** C3. After any series of [add_matchday_score] calls on a fresh table,
    [total_points] is the sum of the scores now recorded and
    [matchdays_played] is the number of distinct matchdays recorded; a
    second score for a matchday replaces the first (5 then 7 for one
    matchday counts 7 and one matchday played). *)
Theorem season_table_totals (team : Team.t) (calls : list (Z * Q)) :
  let t := add_scores (SeasonTable.init team) calls in
  SeasonTable.total_points t = py_sum (dict_values (SeasonTable.matchday_scores t))
  ∧ NoDup (dict_keys (SeasonTable.matchday_scores t))
  ∧ SeasonTable.matchdays_played t
    = Z.of_nat (length (dict_keys (SeasonTable.matchday_scores t)))
  ∧ SeasonTable.matchdays_played t = Z.of_nat (length (remove_dups calls.*1))
  ∧ (∀ (m : Z) (a b : Q),
       let t' := add_scores t [(m, a); (m, b)] in
       t' = add_scores t [(m, b)]
       ∧ dict_get m (SeasonTable.matchday_scores t') = Some b
       ∧ (m ∉ calls.*1 →
          SeasonTable.total_points t' = SeasonTable.total_points t ⊕ b
          ∧ SeasonTable.matchdays_played t' = (SeasonTable.matchdays_played t + 1)%Z))
  ∧ (∀ m : Z,
       let t57 := add_scores (SeasonTable.init team) [(m, 5); (m, 7)] in
       SeasonTable.total_points t57 = 7 ∧ SeasonTable.matchdays_played t57 = 1%Z).
Proof.
  pose proof (add_scores_invariant team calls) as (Htot & Hnd & Hplayed & Hkeys).
  cbv zeta in *. set (t := add_scores (SeasonTable.init team) calls) in *.
  assert (Hfresh : ∀ (t0 : SeasonTable.t) (m : Z) (b : Q),
            dict_get m (SeasonTable.matchday_scores t0) = None →
            SeasonTable.total_points t0
            = py_sum (dict_values (SeasonTable.matchday_scores t0)) →
            SeasonTable.total_points (SeasonTable.add_matchday_score t0 m b)
            = SeasonTable.total_points t0 ⊕ b
            ∧ SeasonTable.matchdays_played (SeasonTable.add_matchday_score t0 m b)
              = (SeasonTable.matchdays_played t0 + 1)%Z).
  { intros t0 m b Hm Ht0. unfold SeasonTable.add_matchday_score.
    cbn [SeasonTable.total_points SeasonTable.matchdays_played].
    rewrite (proj2 (dict_mem_false _ _) Hm). cbn [negb]. split; [|reflexivity].
    rewrite (dict_set_fresh _ _ _ Hm), Ht0. unfold dict_values.
    rewrite fmap_app. apply py_sum_snoc. }
  split; [exact Htot|]. split; [exact Hnd|]. split; [exact Hplayed|]. split.
  { rewrite Hplayed. apply (f_equal Z.of_nat), Permutation_length.
    apply NoDup_Permutation; [exact Hnd | apply NoDup_remove_dups|].
    intros m. rewrite Hkeys. symmetry. apply elem_of_remove_dups. }
  split.
  - intros m a b. unfold add_scores. cbn [fold_left].
    rewrite add_matchday_score_twice. split; [reflexivity|]. split.
    + apply dict_get_set_eq.
    + intros Hm. apply Hfresh; [|exact Htot].
      apply dict_get_None. by rewrite Hkeys.
  - intros m. unfold add_scores. cbn [fold_left].
    rewrite add_matchday_score_twice.
    destruct (Hfresh (SeasonTable.init team) m 7) as [H1 H2]; [reflexivity..|].
    rewrite H1, H2. split; reflexivity.
Qed.

(** ** The stable sort *)

Section SortingFacts.
Context {A : Type} (le : A → A → bool).
Hypothesis le_total : ∀ x y, le x y = false → le y x = true.

Lemma insert_sorted_Permutation (x : A) (l : list A) : insert_sorted le x l ≡ₚ x :: l.
Proof.
  induction l as [|y l IH]; cbn; [done|].
  destruct (le x y); [done|]. rewrite IH. apply Permutation_swap.
Qed.

Lemma stable_sort_Permutation (l : list A) : stable_sort le l ≡ₚ l.
Proof.
  induction l as [|x l IH]; cbn; [done|].
  rewrite insert_sorted_Permutation. by rewrite IH.
Qed.

Lemma insert_sorted_HdRel (a x : A) (l : list A) :
  le a x = true → HdRel (λ u v, le u v = true) a l →
  HdRel (λ u v, le u v = true) a (insert_sorted le x l).
Proof.
  intros Hax Hal. destruct l as [|y l]; cbn.
  - by constructor.
  - destruct (le x y); constructor; [done|]. by inversion Hal.
Qed.

Lemma insert_sorted_Sorted (x : A) (l : list A) :
  Sorted (λ u v, le u v = true) l → Sorted (λ u v, le u v = true) (insert_sorted le x l).
Proof.
  induction l as [|y l IH]; cbn; intros Hl.
  - by repeat constructor.
  - destruct (le x y) eqn:Hxy.
    + constructor; [done|]. by constructor.
    + apply Sorted_inv in Hl as [Hl Hy]. constructor; [by apply IH|].
      apply insert_sorted_HdRel; [by apply le_total | done].
Qed.

Lemma stable_sort_Sorted (l : list A) : Sorted (λ u v, le u v = true) (stable_sort le l).
Proof.
  induction l as [|x l IH]; cbn; [constructor|]. by apply insert_sorted_Sorted.
Qed.

Lemma stable_sort_StronglySorted (l : list A) :
  (∀ x y z, le x y = true → le y z = true → le x z = true) →
  StronglySorted (λ u v, le u v = true) (stable_sort le l).
Proof.
  intros Htrans. apply Sorted_StronglySorted; [|apply stable_sort_Sorted].
  intros x y z. apply Htrans.
Qed.

(** Stability: the elements of a class whose members do not precede one
    another come out in the order they went in. *)
Lemma insert_sorted_filter (P : A → Prop) `{∀ x, Decision (P x)} (x : A) (l : list A) :
  (∀ y, P x → P y → le x y = true) →
  filter P (insert_sorted le x l) = filter P (x :: l).
Proof.
  intros Hties. induction l as [|y l IH]; cbn; [done|].
  destruct (le x y) eqn:Hxy; [done|].
  rewrite filter_cons, IH, !filter_cons.
  destruct (decide (P x)) as [Hx|]; [|done].
  destruct (decide (P y)) as [Hy|]; [|done].
  specialize (Hties y Hx Hy). congruence.
Qed.

Lemma stable_sort_filter (P : A → Prop) `{∀ x, Decision (P x)} (l : list A) :
  (∀ x y, P x → P y → le x y = true) →
  filter P (stable_sort le l) = filter P l.
Proof.
  intros Hties. induction l as [|x l IH]; [done|].
  change (stable_sort le (x :: l)) with (insert_sorted le x (stable_sort le l)).
  rewrite insert_sorted_filter by (intros y; apply Hties).
  by rewrite !filter_cons, IH.
Qed.

End SortingFacts.

(** ** The state monad *)

Section ForEach.
Context {S A B : Type}.

(** A relation between the state before and after that every iteration
    keeps, whether it returns or raises, holds across the loop. *)
Lemma for_each_preserves (R : S → S → Prop) `{!Reflexive R, !Transitive R}
    (body : A → B → M S B) (xs : list A) (acc : B) (s : S) :
  (∀ x a s0, R s0 (body x a s0).1) → R s (for_each xs acc body s).1.
Proof.
  intros Hbody. revert acc s. induction xs as [|x xs IH]; intros acc s; cbn.
  - reflexivity.
  - unfold mbind, M_bind. specialize (Hbody x acc s).
    destruct (body x acc s) as [s1 [a1|e]]; cbn in *; [|done].
    etrans; [exact Hbody | apply IH].
Qed.

(** The loop runs to its end when every iteration returns and re-establishes
    an invariant on the elements done so far. *)
Lemma for_each_invariant (I : list A → B → S → Prop)
    (body : A → B → M S B) (xs : list A) (acc : B) (s : S) :
  I [] acc s →
  (∀ done x rest a s0, xs = done ++ x :: rest → I done a s0 →
     ∃ a' s', body x a s0 = (s', Return a') ∧ I (done ++ [x]) a' s') →
  ∃ a' s', for_each xs acc body s = (s', Return a') ∧ I xs a' s'.
Proof.
  intros Hinit Hbody.
  assert (G : ∀ rest done a s0, xs = done ++ rest → I done a s0 →
            ∃ a' s', for_each rest a body s0 = (s', Return a') ∧ I xs a' s').
  { induction rest as [|x rest IH]; intros done a s0 Hxs Hdone.
    - rewrite app_nil_r in Hxs. subst done. by exists a, s0.
    - destruct (Hbody done x rest a s0 Hxs Hdone) as (a1 & s1 & Hx & H1).
      destruct (IH (done ++ [x]) a1 s1) as (a2 & s2 & Hrest & H2);
        [by rewrite <- app_assoc | done |].
      exists a2, s2. split; [|done]. cbn. unfold mbind, M_bind. by rewrite Hx. }
  by apply (G xs [] acc s).
Qed.

End ForEach.

(** ** Season: what a matchday leaves alone *)

#[local] Instance same_frame_refl : Reflexive same_frame.
Proof. intros s. by repeat split. Qed.

#[local] Instance same_frame_trans : Transitive same_frame.
Proof.
  intros s1 s2 s3 (H1 & H2 & H3 & H4) (H1' & H2' & H3' & H4').
  repeat split; congruence.
Qed.

Lemma table_add_matchday_score_Some (team_name : string) (m : Z) (score : Q)
    (s : Season.t) (entry : SeasonTable.t) :
  dict_get team_name (Season.table s) = Some entry →
  Season.table_add_matchday_score team_name m score s
  = (Season.set_table
       (dict_set team_name (SeasonTable.add_matchday_score entry m score) (Season.table s)) s,
     Return tt).
Proof.
  intros He. unfold Season.table_add_matchday_score, mbind, M_bind, gets.
  by rewrite He.
Qed.

Lemma table_add_matchday_score_None (team_name : string) (m : Z) (score : Q) (s : Season.t) :
  dict_get team_name (Season.table s) = None →
  Season.table_add_matchday_score team_name m score s = (s, Raise (KeyError team_name)).
Proof.
  intros He. unfold Season.table_add_matchday_score, mbind, M_bind, gets.
  by rewrite He.
Qed.

Lemma table_add_matchday_score_frame (team_name : string) (m : Z) (score : Q) (s : Season.t) :
  same_frame s (Season.table_add_matchday_score team_name m score s).1.
Proof.
  destruct (dict_get team_name (Season.table s)) as [entry|] eqn:He.
  - rewrite (table_add_matchday_score_Some _ _ _ _ _ He). cbn.
    repeat split. cbn. apply dict_keys_set_present. eauto.
  - rewrite (table_add_matchday_score_None _ _ _ _ He). reflexivity.
Qed.

Lemma process_matchday_out_of_range (n : Z) (s : Season.t) :
  (n < 1 ∨ 38 < n)%Z →
  Season.process_matchday n s = (s, Raise (ValueError "Matchday must be between 1 and 38")).
Proof.
  intros Hn. unfold Season.process_matchday.
  destruct (bool_decide (38 < n)%Z || bool_decide (n < 1)%Z) eqn:E; [reflexivity|].
  apply orb_false_elim in E as [E1%bool_decide_eq_false E2%bool_decide_eq_false]. lia.
Qed.

Lemma process_matchday_frame (n : Z) (s : Season.t) :
  same_frame s (Season.process_matchday n s).1.
Proof.
  unfold Season.process_matchday.
  destruct (bool_decide (38 < n)%Z || bool_decide (n < 1)%Z); [reflexivity|].
  unfold mbind at 1, M_bind at 1. cbn [gets]. unfold mbind at 1, M_bind at 1.
  match goal with |- context [for_each ?xs ?acc ?body s] =>
    pose proof (for_each_preserves same_frame body xs acc s) as Hloop;
    destruct (for_each xs acc body s) as [s1 [scores|e]] end.
  all: cbn [fst] in Hloop.
  all: assert (Hs1 : same_frame s s1)
    by (apply Hloop; intros team a s0; unfold mbind, M_bind;
        pose proof (table_add_matchday_score_frame
                      (Team.name team) n (Team.calculate_total_score team n) s0) as Hf;
        destruct (Season.table_add_matchday_score _ _ _ s0) as [s' [[]|e']]; exact Hf).
  all: clear Hloop.
  - unfold mbind, M_bind, gets. cbn.
    destruct (bool_decide (n = Season.current_matchday s1)); cbn; exact Hs1.
  - exact Hs1.
Qed.

Lemma run_frame (matchdays : list Z) (s : Season.t) :
  same_frame s (Season.run matchdays s).
Proof.
  revert s. induction matchdays as [|n matchdays IH]; intros s; [reflexivity|].
  cbn. etrans; [apply process_matchday_frame | apply IH].
Qed.

Lemma init_table_keys (teams : list Team.t) (name : string) :
  NoDup (dict_keys (Season.table (Season.init teams name)))
  ∧ ∀ k, k ∈ dict_keys (Season.table (Season.init teams name)) ↔ k ∈ Team.name <$> teams.
Proof.
  unfold Season.init. cbn [Season.table].
  induction teams as [|team teams IH] using rev_ind.
  - cbn. split; [apply NoDup_nil_2|]. done.
  - rewrite fold_left_app. cbn [fold_left]. destruct IH as [Hnd Hkeys].
    split; [by apply dict_set_NoDup|].
    intros k. rewrite elem_of_dict_keys_set, Hkeys, fmap_app, elem_of_app.
    cbn. rewrite list_elem_of_singleton. naive_solver.
Qed.

Lemma reachable_table_keys (teams : list Team.t) (name : string) (matchdays : list Z) :
  let s := Season.run matchdays (Season.init teams name) in
  Season.teams s = teams
  ∧ NoDup (dict_keys (Season.table s))
  ∧ (∀ k, k ∈ dict_keys (Season.table s) ↔ k ∈ Team.name <$> teams)
  ∧ length (Season.table s) = length (remove_dups (Team.name <$> teams)).
Proof.
  cbv zeta. destruct (run_frame matchdays (Season.init teams name)) as (_ & Ht & _ & Hk).
  destruct (init_table_keys teams name) as [Hnd Hkeys].
  rewrite Hk, Ht. split; [reflexivity|]. split; [exact Hnd|]. split; [exact Hkeys|].
  transitivity (length (dict_keys (Season.table (Season.run matchdays (Season.init teams name))))).
  { unfold dict_keys. by rewrite length_fmap. }
  rewrite Hk. apply Permutation_length, NoDup_Permutation;
    [exact Hnd | apply NoDup_remove_dups |].
  intros k. rewrite Hkeys. symmetry. apply elem_of_remove_dups.
Qed.

(** C5. A matchday below 1 or above 38, 0 and 39 among them, makes
    [process_matchday] raise the range error and return the season, every
    [SeasonTable] included, exactly as it was. *)
Theorem process_matchday_range_error (s : Season.t) (n : Z) (Hn : (n < 1 ∨ 38 < n)%Z) :
  Season.process_matchday n s = (s, Raise (ValueError "Matchday must be between 1 and 38")).
Proof. by apply process_matchday_out_of_range. Qed.

Lemma process_matchday_range_error_witness :
  Season.process_matchday 0 sample_season
  = (sample_season, Raise (ValueError "Matchday must be between 1 and 38"))
  ∧ Season.process_matchday 39 sample_season
    = (sample_season, Raise (ValueError "Matchday must be between 1 and 38")).
Proof.
  split; apply process_matchday_range_error; [left | right]; lia.
Defined.

(** ** The ranking *)

Lemma imap_set_position_positions (l : list SeasonTable.stats) (k : nat) :
  SeasonTable.s_position <$>
    imap (λ i d, SeasonTable.set_position d (Z.of_nat (k + i) + 1)%Z) l
  = (λ i, Some (Z.of_nat i)) <$> seq (S k) (length l).
Proof.
  revert k. induction l as [|d l IH]; intros k; [done|].
  cbn [imap length seq fmap list_fmap]. f_equal.
  - cbn. f_equal. lia.
  - rewrite <- (IH (S k)). f_equal. apply imap_ext. intros i x _.
    cbn. do 2 f_equal. lia.
Qed.

Lemma clear_set_position (d : SeasonTable.stats) (z : Z) :
  clear_position (SeasonTable.set_position d z) = clear_position d.
Proof. reflexivity. Qed.

Lemma imap_clear_position (g : nat → SeasonTable.stats → SeasonTable.stats)
    (l : list SeasonTable.stats) :
  (∀ i d, clear_position (g i d) = clear_position d) →
  clear_position <$> imap g l = clear_position <$> l.
Proof.
  revert g. induction l as [|d l IH]; intros g Hg; [done|].
  cbn [imap fmap list_fmap]. f_equal; [apply Hg|].
  apply IH. intros i d'. apply Hg.
Qed.

Lemma clear_position_get_stats (l : list SeasonTable.t) (l' : list SeasonTable.stats) :
  l' ≡ₚ SeasonTable.get_stats <$> l → clear_position <$> l' = l'.
Proof.
  intros Hp. rewrite <- (list_fmap_id l') at 2. apply list_fmap_ext.
  intros i d Hd. apply list_elem_of_lookup_2 in Hd. rewrite Hp in Hd.
  apply list_elem_of_fmap in Hd as (e & -> & _). reflexivity.
Qed.

(** The table for an arbitrary season object. *)
Lemma get_season_table_spec (s : Season.t) :
  let r := Season.get_season_table s in
  length r = length (Season.table s)
  ∧ StronglySorted (λ a b, SeasonTable.s_total_points b <= SeasonTable.s_total_points a) r
  ∧ SeasonTable.s_position <$> r
    = (λ i, Some (Z.of_nat i)) <$> seq 1 (length (Season.table s))
  ∧ clear_position <$> r ≡ₚ SeasonTable.get_stats <$> dict_values (Season.table s)
  ∧ ∀ k : Q,
      filter (λ d, SeasonTable.s_total_points d == k) (clear_position <$> r)
      = filter (λ d, SeasonTable.s_total_points d == k)
               (SeasonTable.get_stats <$> dict_values (Season.table s)).
Proof.
  cbv zeta. unfold Season.get_season_table.
  set (le := λ x y : SeasonTable.stats,
         Qle_bool (SeasonTable.s_total_points y) (SeasonTable.s_total_points x)).
  set (data := SeasonTable.get_stats <$> dict_values (Season.table s)).
  assert (Htotal : ∀ x y, le x y = false → le y x = true).
  { intros x y Hxy. unfold le in *. apply Qle_bool_iff.
    destruct (Qlt_le_dec (SeasonTable.s_total_points x) (SeasonTable.s_total_points y))
      as [Hlt|Hle]; [by apply Qlt_le_weak|].
    apply Qle_bool_iff in Hle. congruence. }
  assert (Hperm : stable_sort le data ≡ₚ data) by apply stable_sort_Permutation.
  assert (Hlen : length (stable_sort le data) = length (Season.table s)).
  { rewrite Hperm. unfold data, dict_values. by rewrite !length_fmap. }
  assert (Hclear : clear_position <$>
            imap (λ i d, SeasonTable.set_position d (Z.of_nat i + 1)%Z) (stable_sort le data)
            = stable_sort le data).
  { rewrite imap_clear_position by done.
    by apply (clear_position_get_stats (dict_values (Season.table s))). }
  split; [by rewrite length_imap|]. split; [|split; [|split]].
  - pose proof (stable_sort_StronglySorted le Htotal data) as Hs.
    assert (Hss : StronglySorted (λ u v, le u v = true) (stable_sort le data)).
    { apply Hs. intros x y z Hxy Hyz. unfold le in *.
      apply Qle_bool_iff in Hxy, Hyz. apply Qle_bool_iff.
      eapply Qle_trans; eassumption. }
    clear Hs Hclear Hlen Hperm.
    assert (G : ∀ (l : list SeasonTable.stats) (g : nat → SeasonTable.stats → SeasonTable.stats),
              (∀ i d, clear_position (g i d) = clear_position d) →
              StronglySorted (λ u v, le u v = true) l →
              StronglySorted
                (λ a b, SeasonTable.s_total_points b <= SeasonTable.s_total_points a)
                (imap g l)).
    { assert (Hpts : ∀ d d', clear_position d = clear_position d' →
                SeasonTable.s_total_points d = SeasonTable.s_total_points d').
      { intros d d' E.
        change (SeasonTable.s_total_points (clear_position d)
                = SeasonTable.s_total_points (clear_position d')).
        by rewrite E. }
      induction l as [|d l IH]; intros g Hg Hl; [constructor|].
      apply StronglySorted_inv in Hl as [Hl Hd]. cbn [imap]. constructor.
      - apply IH; [|exact Hl]. intros i d'. apply Hg.
      - apply Forall_forall. intros d' Hd'.
        apply (list_elem_of_fmap_2 clear_position) in Hd'.
        rewrite imap_clear_position in Hd' by (intros i d1; apply Hg).
        apply list_elem_of_fmap in Hd' as (d0 & E & Hd0).
        rewrite Forall_forall in Hd. specialize (Hd d0 Hd0).
        unfold le in Hd. apply Qle_bool_iff in Hd.
        rewrite (Hpts _ _ E), (Hpts _ _ (Hg 0%nat d)). exact Hd. }
    apply G; [done | exact Hss].
  - rewrite <- Hlen. apply (imap_set_position_positions _ 0).
  - by rewrite Hclear.
  - intros k. rewrite Hclear. apply stable_sort_filter.
    intros x y Hx Hy. unfold le. apply Qle_bool_iff. cbn in Hx, Hy.
    rewrite Hx, Hy. apply Qle_refl.
Qed.

(** C6. The season table of a season built from [teams], after any calls of
    [process_matchday], has one row per team, teams being told apart by
    name; the rows are in descending order of [total_points], their
    positions are 1, 2, ..., N in that order, and rows with equal
    [total_points] stand in the order of their teams in [Season.table], no
    other key being consulted. *)
Theorem get_season_table_ranked (teams : list Team.t) (name : string) (matchdays : list Z) :
  let s := Season.run matchdays (Season.init teams name) in
  let r := Season.get_season_table s in
  let N := length (remove_dups (Team.name <$> teams)) in
  length r = N
  ∧ (NoDup (Team.name <$> teams) → N = length teams)
  ∧ StronglySorted (λ a b, SeasonTable.s_total_points b <= SeasonTable.s_total_points a) r
  ∧ SeasonTable.s_position <$> r = (λ i, Some (Z.of_nat i)) <$> seq 1 N
  ∧ NoDup (SeasonTable.s_position <$> r)
  ∧ ∀ k : Q,
      filter (λ d, SeasonTable.s_total_points d == k) (clear_position <$> r)
      = filter (λ d, SeasonTable.s_total_points d == k)
               (SeasonTable.get_stats <$> dict_values (Season.table s)).
Proof.
  cbv zeta.
  destruct (reachable_table_keys teams name matchdays) as (_ & _ & _ & Hlen).
  destruct (get_season_table_spec (Season.run matchdays (Season.init teams name)))
    as (Hl & Hsorted & Hpos & _ & Hstable).
  cbv zeta in *. rewrite Hlen in Hl, Hpos.
  split; [exact Hl|]. split.
  { intros Hnd. rewrite <- (length_fmap Team.name teams).
    apply Permutation_length, NoDup_Permutation;
      [apply NoDup_remove_dups | exact Hnd | apply elem_of_remove_dups]. }
  split; [exact Hsorted|]. split; [exact Hpos|]. split; [|exact Hstable].
  rewrite Hpos. apply NoDup_fmap_2; [|apply NoDup_seq].
  intros i j [= E]. lia.
Qed.

(** The end-to-end example of the specification: scores 10.0 and 7.5 on
    the one matchday played put team A first and team B second, in whatever
    order the teams were given; before any matchday all totals tie and the
    rows keep the order of the teams. *)
Example season_table_end_to_end :
  (λ d, (SeasonTable.s_team d, SeasonTable.s_total_points d, SeasonTable.s_position d))
    <$> Season.get_season_table sample_season
  = [("A", 10, Some 1%Z); ("B", 15 # 2, Some 2%Z)].
Proof. vm_compute. reflexivity. Qed.

Example season_table_ties :
  (λ d, (SeasonTable.s_team d, SeasonTable.s_position d))
    <$> Season.get_season_table (Season.init [sample_team_b; sample_team_a] "Serie A")
  = [("B", Some 1%Z); ("A", Some 2%Z)].
Proof. vm_compute. reflexivity. Qed.

(** ** Season: processing a matchday *)

Lemma init_table_complete (teams : list Team.t) (name : string) :
  table_complete (Season.init teams name).
Proof.
  apply Forall_forall. intros team Hteam. apply dict_get_is_Some.
  apply (init_table_keys teams name). cbn. by apply list_elem_of_fmap_2.
Qed.

Lemma same_frame_complete (s s' : Season.t) :
  same_frame s s' → table_complete s → table_complete s'.
Proof.
  intros (_ & Ht & _ & Hk) Hc. unfold table_complete in *. rewrite Ht.
  eapply Forall_impl; [exact Hc|]. intros team Hteam.
  apply dict_get_is_Some. rewrite Hk. by apply dict_get_is_Some.
Qed.

Lemma scored_init (n : Z) (s : Season.t) : scored n s [] [] s.
Proof.
  split; [reflexivity|]. split; [reflexivity|]. split; [|split].
  - intros team []%elem_of_nil.
  - intros _ team []%elem_of_nil.
  - intros team_name entry m _ He. by exists entry.
Qed.

Lemma scored_step (n : Z) (s : Season.t) (done : list Team.t) (acc : pydict string Q)
    (s1 : Season.t) (team : Team.t) :
  is_Some (dict_get (Team.name team) (Season.table s)) →
  scored n s done acc s1 →
  ∃ s2,
    Season.table_add_matchday_score (Team.name team) n
      (Team.calculate_total_score team n) s1 = (s2, Return tt)
    ∧ scored n s (done ++ [team])
        (dict_set (Team.name team) (Team.calculate_total_score team n) acc) s2.
Proof.
  intros Hteam (Hframe & Hcur & Hdone & Huniq & Hother).
  set (nm := Team.name team). set (score := Team.calculate_total_score team n).
  assert (Hin : is_Some (dict_get nm (Season.table s1))).
  { apply dict_get_is_Some. destruct Hframe as (_ & _ & _ & ->).
    by apply dict_get_is_Some. }
  destruct Hin as [e He].
  eexists. split; [by apply table_add_matchday_score_Some|].
  set (tbl := dict_set nm (SeasonTable.add_matchday_score e n score) (Season.table s1)).
  assert (Hnm : dict_get nm tbl = Some (SeasonTable.add_matchday_score e n score))
    by apply dict_get_set_eq.
  assert (Hne : ∀ k, nm ≠ k → dict_get k tbl = dict_get k (Season.table s1))
    by (intros k Hk; by apply dict_get_set_ne).
  assert (Hhere : ∀ t, Team.name t = nm →
            ∃ entry, dict_get (Team.name t) tbl = Some entry
              ∧ is_Some (dict_get n (SeasonTable.matchday_scores entry))
              ∧ dict_get n (SeasonTable.matchday_scores entry)
                = dict_get (Team.name t) (dict_set nm score acc)).
  { intros t ->. eexists. split; [exact Hnm|].
    unfold SeasonTable.add_matchday_score. cbn [SeasonTable.matchday_scores].
    rewrite !dict_get_set_eq. eauto. }
  split; [|split; [|split; [|split]]].
  - etrans; [exact Hframe|].
    pose proof (table_add_matchday_score_frame nm n score s1) as Hf.
    by rewrite (table_add_matchday_score_Some _ _ _ _ _ He) in Hf.
  - exact Hcur.
  - intros t [Ht | ->%list_elem_of_singleton]%elem_of_app; [|by apply Hhere].
    destruct (decide (Team.name t = nm)) as [E|E]; [by apply Hhere|].
    destruct (Hdone t Ht) as (entry & H1 & H2 & H3). exists entry.
    cbn [Season.table Season.set_table]. rewrite Hne by done.
    rewrite dict_get_set_ne by done. done.
  - rewrite fmap_app. intros [Hnd [Hfresh _]]%NoDup_app t
      [Ht | ->%list_elem_of_singleton]%elem_of_app.
    + rewrite dict_get_set_ne; [by apply Huniq|].
      intros E. apply (Hfresh (Team.name t)); [by apply list_elem_of_fmap_2|].
      cbn. apply list_elem_of_singleton. done.
    + apply dict_get_set_eq.
  - intros team_name entry m Hm Hentry.
    destruct (Hother team_name entry m Hm Hentry) as (entry' & H1 & H2).
    cbn [Season.table Season.set_table].
    destruct (decide (nm = team_name)) as [<-|E].
    + eexists. split; [exact Hnm|].
      unfold SeasonTable.add_matchday_score. cbn [SeasonTable.matchday_scores].
      rewrite dict_get_set_ne by done. congruence.
    + exists entry'. by rewrite Hne.
Qed.

Lemma process_matchday_in_range (s : Season.t) (n : Z) :
  (1 ≤ n ≤ 38)%Z → table_complete s →
  ∃ scores s1,
    scored n s (Season.teams s) scores s1
    ∧ Season.process_matchday n s
      = (if bool_decide (n = Season.current_matchday s)
         then Season.set_current_matchday (Season.current_matchday s + 1)%Z s1
         else s1,
         Return scores).
Proof.
  intros Hn Hc. unfold Season.process_matchday.
  rewrite (bool_decide_eq_false_2 (38 < n)%Z), (bool_decide_eq_false_2 (n < 1)%Z) by lia.
  cbn [orb]. cbv zeta.
  unfold mbind at 1, M_bind at 1. cbn [gets]. unfold mbind at 1, M_bind at 1.
  match goal with |- context [for_each ?xs ?acc ?body s] =>
    set (loop := for_each xs acc body s);
    destruct (for_each_invariant (scored n s) body xs acc s) as (scores & s1 & Hloop & Hs1) end.
  { apply scored_init. }
  { intros done team rest a s0 Hteams Hdone.
    destruct (scored_step n s done a s0 team) as (s2 & Hadd & H2); [|exact Hdone|].
    - unfold table_complete in Hc. rewrite Forall_forall in Hc. apply Hc.
      rewrite Hteams. apply elem_of_app. right. apply list_elem_of_here.
    - eexists _, s2. split; [|exact H2].
      unfold mbind, M_bind. by rewrite Hadd. }
  exists scores, s1. split; [exact Hs1|].
  change (loop = (s1, Return scores)) in Hloop. rewrite Hloop.
  destruct Hs1 as (_ & Hcur & _). unfold mbind, M_bind, gets. rewrite Hcur.
  by destruct (bool_decide (n = Season.current_matchday s)).
Qed.

(** C8. For a matchday in 1..38, on a season where every team has its
    table, [process_matchday] returns normally, records the matchday's score
    in the table of every team and leaves the scores of the other matchdays
    as they were; the current-matchday pointer goes up by one exactly when
    the matchday equals the pointer and otherwise stays. *)
Theorem process_matchday_records_and_advances (s : Season.t) (n : Z)
    (Hn : (1 ≤ n ≤ 38)%Z) (Hc : table_complete s) :
  ∃ scores s',
    Season.process_matchday n s = (s', Return scores)
    ∧ same_frame s s'
    ∧ table_complete s'
    ∧ (∀ team, team ∈ Season.teams s →
         ∃ entry, dict_get (Team.name team) (Season.table s') = Some entry
                  ∧ is_Some (dict_get n (SeasonTable.matchday_scores entry))
                  ∧ dict_get n (SeasonTable.matchday_scores entry)
                    = dict_get (Team.name team) scores)
    ∧ (NoDup (Team.name <$> Season.teams s) →
       ∀ team, team ∈ Season.teams s →
         dict_get (Team.name team) scores = Some (Team.calculate_total_score team n))
    ∧ (∀ team_name entry m, m ≠ n →
         dict_get team_name (Season.table s) = Some entry →
         ∃ entry', dict_get team_name (Season.table s') = Some entry'
                   ∧ dict_get m (SeasonTable.matchday_scores entry')
                     = dict_get m (SeasonTable.matchday_scores entry))
    ∧ (Season.current_matchday s' = (Season.current_matchday s + 1)%Z
       ↔ n = Season.current_matchday s)
    ∧ (n ≠ Season.current_matchday s →
       Season.current_matchday s' = Season.current_matchday s).
Proof.
  destruct (process_matchday_in_range s n Hn Hc)
    as (scores & s1 & (Hframe & Hcur & Hdone & Huniq & Hother) & Hrun).
  eexists scores, _. split; [exact Hrun|].
  assert (Hframe' : same_frame s
            (if bool_decide (n = Season.current_matchday s)
             then Season.set_current_matchday (Season.current_matchday s + 1)%Z s1
             else s1))
    by (destruct (bool_decide (n = Season.current_matchday s)); exact Hframe).
  assert (Htable : Season.table
            (if bool_decide (n = Season.current_matchday s)
             then Season.set_current_matchday (Season.current_matchday s + 1)%Z s1
             else s1) = Season.table s1)
    by (by destruct (bool_decide (n = Season.current_matchday s))).
  rewrite Htable.
  split; [exact Hframe'|]. split; [by apply (same_frame_complete s)|].
  split; [exact Hdone|]. split; [exact Huniq|]. split; [exact Hother|].
  case_bool_decide as E; cbn [Season.current_matchday Season.set_current_matchday].
  - split; [done|]. intros Hne. by destruct Hne.
  - rewrite Hcur. split; [|done]. split; [lia|done].
Qed.

Lemma process_matchday_records_and_advances_witness :
  (∃ scores s',
     Season.process_matchday 1 (Season.init [sample_team_b; sample_team_a] "Serie A")
     = (s', Return scores)
     ∧ dict_get "A" scores = Some (Team.calculate_total_score sample_team_a 1)
     ∧ Season.current_matchday s' = 2%Z)
  ∧ (∃ scores s',
       Season.process_matchday 5 (Season.init [sample_team_b; sample_team_a] "Serie A")
       = (s', Return scores)
       ∧ dict_get "A" scores = Some (Team.calculate_total_score sample_team_a 5)
       ∧ Season.current_matchday s' = 1%Z).
Proof.
  split.
  - destruct (process_matchday_records_and_advances
                (Season.init [sample_team_b; sample_team_a] "Serie A") 1)
      as (scores & s' & Hrun & _ & _ & _ & Huniq & _ & Hadv & _).
    + lia.
    + repeat constructor; vm_compute; eauto.
    + exists scores, s'. split; [exact Hrun|]. split.
      * apply (Huniq ltac:(vm_compute; repeat constructor; set_solver) sample_team_a).
        vm_compute. set_solver.
      * apply Hadv. reflexivity.
  - destruct (process_matchday_records_and_advances
                (Season.init [sample_team_b; sample_team_a] "Serie A") 5)
      as (scores & s' & Hrun & _ & _ & _ & Huniq & _ & _ & Hstay).
    + lia.
    + repeat constructor; vm_compute; eauto.
    + exists scores, s'. split; [exact Hrun|]. split.
      * apply (Huniq ltac:(vm_compute; repeat constructor; set_solver) sample_team_a).
        vm_compute. set_solver.
      * apply Hstay. discriminate.
Defined.

(** ** The season summary *)

Lemma max_from_elem {A} (key : A → Q) (x : A) (xs : list A) :
  max_from key x xs ∈ x :: xs.
Proof.
  unfold max_from. revert x. induction xs as [|y xs IH]; intros x; cbn.
  - apply list_elem_of_here.
  - destruct (Qlt_bool (key x) (key y)).
    + apply list_elem_of_further, IH.
    + specialize (IH x). apply elem_of_cons in IH as [-> | IH].
      * apply list_elem_of_here.
      * by do 2 apply list_elem_of_further.
Qed.

Lemma max_from_ge_start {A} (key : A → Q) (x : A) (xs : list A) :
  key x <= key (max_from key x xs).
Proof.
  unfold max_from. revert x. induction xs as [|y xs IH]; intros x; cbn.
  - apply Qle_refl.
  - destruct (Qlt_bool (key x) (key y)) eqn:E; [|apply IH].
    eapply Qle_trans; [|apply IH].
    unfold Qlt_bool in E. apply negb_true_iff in E.
    destruct (Qlt_le_dec (key x) (key y)) as [Hlt|Hle]; [by apply Qlt_le_weak|].
    apply Qle_bool_iff in Hle. congruence.
Qed.

Lemma max_from_ge {A} (key : A → Q) (x : A) (xs : list A) (y : A) :
  y ∈ x :: xs → key y <= key (max_from key x xs).
Proof.
  revert x. induction xs as [|z xs IH]; intros x Hy.
  - apply list_elem_of_singleton in Hy as ->. apply Qle_refl.
  - unfold max_from. cbn [fold_left]. fold (max_from key
      (if Qlt_bool (key x) (key z) then z else x) xs).
    apply elem_of_cons in Hy as [-> | Hy].
    + eapply Qle_trans; [|apply max_from_ge_start].
      destruct (Qlt_bool (key x) (key z)) eqn:E; [|apply Qle_refl].
      unfold Qlt_bool in E. apply negb_true_iff in E.
      destruct (Qlt_le_dec (key x) (key z)) as [Hlt|Hle]; [by apply Qlt_le_weak|].
      apply Qle_bool_iff in Hle. congruence.
    + apply elem_of_cons in Hy as [-> | Hy].
      * destruct (Qlt_bool (key x) (key z)) eqn:E; [apply max_from_ge_start|].
        eapply Qle_trans; [|apply max_from_ge_start].
        unfold Qlt_bool in E. apply negb_false_iff, Qle_bool_iff in E. exact E.
      * apply IH. by apply list_elem_of_further.
Qed.

Lemma best_score_clear (d d' : SeasonTable.stats) :
  clear_position d = clear_position d' →
  SeasonTable.s_best_score d = SeasonTable.s_best_score d'.
Proof.
  intros E. change (SeasonTable.s_best_score (clear_position d)
                    = SeasonTable.s_best_score (clear_position d')).
  by rewrite E.
Qed.

(** C10. For a season built from a non-empty list of teams, whatever
    matchdays were processed, [get_season_summary] returns; its champion is
    the team of the first row of [get_season_table] and its highest single
    score is the greatest [best_score] among the teams' tables. For a
    season built from no team it raises the [ValueError] of [max] on an
    empty sequence. *)
Theorem get_season_summary_champion (teams : list Team.t) (name : string)
    (matchdays : list Z) :
  let s := Season.run matchdays (Season.init teams name) in
  match teams with
  | [] => Season.get_season_summary s
          = Raise (ValueError "max() arg is an empty sequence")
  | _ :: _ =>
      ∃ summ first,
        Season.get_season_summary s = Return summ
        ∧ head (Season.get_season_table s) = Some first
        ∧ Season.champion summ = Some (SeasonTable.s_team first)
        ∧ (∀ entry, entry ∈ dict_values (Season.table s) →
             SeasonTable.s_best_score (SeasonTable.get_stats entry)
             <= Season.highest_single_score summ)
        ∧ (∃ entry, entry ∈ dict_values (Season.table s)
             ∧ Season.highest_single_score summ
               = SeasonTable.s_best_score (SeasonTable.get_stats entry))
        ∧ (∀ team, team ∈ teams →
             ∃ entry, dict_get (Team.name team) (Season.table s) = Some entry
                      ∧ entry ∈ dict_values (Season.table s))
  end.
Proof.
  cbv zeta. set (s := Season.run matchdays (Season.init teams name)).
  destruct (reachable_table_keys teams name matchdays) as (_ & _ & Hkeys & Hlen).
  destruct (get_season_table_spec s) as (Hl & _ & _ & Hperm & _).
  cbv zeta in *. fold s in Hkeys, Hlen.
  destruct teams as [|team teams].
  - cbn in Hlen. rewrite Hlen in Hl.
    unfold Season.get_season_summary.
    destruct (Season.get_season_table s); [reflexivity | discriminate Hl].
  - unfold Season.get_season_summary.
    destruct (Season.get_season_table s) as [|first rest] eqn:Htable.
    { exfalso. cbn in Hl. symmetry in Hl. apply length_zero_iff_nil in Hl.
      assert (Hin : Team.name team ∈ dict_keys (Season.table s))
        by (apply Hkeys; cbn; apply list_elem_of_here).
      rewrite Hl in Hin. by apply elem_of_nil in Hin. }
    cbn [py_max py_min]. eexists _, first. split; [reflexivity|].
    cbn [Season.champion Season.highest_single_score head fmap option_fmap option_map].
    split; [reflexivity|]. split; [reflexivity|]. split; [|split].
    + intros entry Hentry.
      assert (Hd : SeasonTable.get_stats entry ∈ clear_position <$> first :: rest).
      { rewrite Hperm. by apply list_elem_of_fmap_2. }
      apply list_elem_of_fmap in Hd as (d & E & Hd).
      rewrite (best_score_clear (SeasonTable.get_stats entry) d) by exact E.
      by apply max_from_ge.
    + pose proof (max_from_elem SeasonTable.s_best_score first rest) as Hmax.
      apply (list_elem_of_fmap_2 clear_position) in Hmax. rewrite Hperm in Hmax.
      apply list_elem_of_fmap in Hmax as (entry & E & Hentry).
      exists entry. split; [exact Hentry|]. by apply best_score_clear.
    + intros t Ht.
      assert (Hin : is_Some (dict_get (Team.name t) (Season.table s))).
      { apply dict_get_is_Some, Hkeys. by apply list_elem_of_fmap_2. }
      destruct Hin as [entry Hentry]. exists entry. split; [exact Hentry|].
      apply dict_get_Some_elem in Hentry.
      by apply (list_elem_of_fmap_2 snd) in Hentry.
Qed.

(** ** Roster population *)

Lemma role_mapping_lookup (r : string) :
  Loader.role_mapping !! r
  = if decide (r = "P") then Some "G"
    else if decide (r = "D") then Some "D"
    else if decide (r = "C") then Some "M"
    else if decide (r = "A") then Some "F"
    else None.
Proof.
  unfold Loader.role_mapping.
  repeat (case_decide; [subst r; reflexivity | rewrite lookup_insert_ne by done]).
  apply lookup_empty.
Qed.

Lemma mapped_role_of_value (r : string) :
  (accepted_role r → ∃ role, Role.of_value (default r (Loader.role_mapping !! r)) = Return role)
  ∧ (¬ accepted_role r →
     Role.of_value (default r (Loader.role_mapping !! r))
     = Raise (ValueError (r +:+ " is not a valid Role"))).
Proof.
  rewrite role_mapping_lookup. unfold accepted_role. split.
  - intros Hr. repeat (apply elem_of_cons in Hr as [-> | Hr]); [eauto..|].
    by apply elem_of_nil in Hr.
  - intros Hr. repeat (apply not_elem_of_cons in Hr as [? Hr]).
    rewrite !decide_False by done. cbn [default]. unfold Role.of_value.
    by rewrite !decide_False by done.
Qed.

Lemma populate_player_outcome (players_data : gmap Z Loader.row) (cod : Z) (team : Team.t) :
  (bad_code players_data cod →
   ∃ msg, Loader.populate_player players_data cod team = (team, Raise (ValueError msg)))
  ∧ (¬ bad_code players_data cod →
     ∃ team', Loader.populate_player players_data cod team = (team', Return tt)
              ∧ Team.player_codes team' = Team.player_codes team).
Proof.
  unfold Loader.populate_player, bad_code, Player.init. split.
  - intros (data & -> & Hbad).
    rewrite (proj2 (mapped_role_of_value _) Hbad). eauto.
  - intros Hok. destruct (players_data !! cod) as [data|]; [|by eexists].
    destruct (decide (accepted_role (Loader.r_role data))) as [Hacc|Hbad].
    + destruct (proj1 (mapped_role_of_value _) Hacc) as [role ->]. by eexists.
    + destruct Hok. eauto.
Qed.

Lemma populate_codes_outcome (players_data : gmap Z Loader.row) (codes : list Z)
    (team : Team.t) :
  let r := for_each codes tt (λ cod _, Loader.populate_player players_data cod) team in
  (raises r.2 ↔ ∃ cod, cod ∈ codes ∧ bad_code players_data cod)
  ∧ (¬ raises r.2 → r.2 = Return tt)
  ∧ Team.player_codes r.1 = Team.player_codes team.
Proof.
  cbv zeta. revert team. induction codes as [|cod codes IH]; intros team.
  - cbn. split; [|done]. split; [intros [msg [=]] | intros (cod & []%elem_of_nil & _)].
  - cbn [for_each]. unfold mbind, M_bind.
    destruct (decide (bad_code players_data cod)) as [Hbad|Hok].
    + destruct (proj1 (populate_player_outcome players_data cod team) Hbad) as [msg ->].
      cbn. split; [|split; [|done]].
      * split; [intros _ | intros _; by eexists].
        exists cod. split; [apply list_elem_of_here | done].
      * intros Hr. destruct Hr. by eexists.
    + destruct (proj2 (populate_player_outcome players_data cod team) Hok)
        as (team' & -> & Hcodes).
      destruct (IH team') as (IH1 & IH2 & IH3).
      split; [|split; [done | congruence]].
      rewrite IH1. split.
      * intros (c & Hc & Hb). exists c. split; [by apply list_elem_of_further | done].
      * intros (c & [-> | Hc]%elem_of_cons & Hb); [done | eauto].
Qed.

Lemma populate_team_outcome (players_data : gmap Z Loader.row) (team : Team.t) :
  let r := Loader.populate_team players_data team in
  (raises r.2 ↔ ∃ cod, cod ∈ Team.player_codes team ∧ bad_code players_data cod)
  ∧ (¬ raises r.2 → r.2 = Return tt).
Proof.
  cbv zeta. unfold Loader.populate_team, mbind, M_bind, gets.
  destruct (populate_codes_outcome players_data (Team.player_codes team) team)
    as (H1 & H2 & _).
  by split.
Qed.

(** C9 as stated fails: the raw code ['G'] is not in the lookup table, yet
    population returns normally with a goalkeeper built from it. *)
Lemma role_passthrough_counterexample :
  let players_data : gmap Z Loader.row :=
    {[ 7%Z := Loader.mk_row "Juventus" "G" "Buffon" ∅ ]} in
  let teams := [Team.mk "T" [7%Z] []] in
  Loader.populate_teams_with_players players_data teams
  = ([Team.mk "T" [7%Z] [Player.mk 7 Role.GOALKEEPER "Buffon" "Juventus" ∅ ∅]],
     Return tt)
  ∧ ¬ (∀ team cod data,
         team ∈ teams → cod ∈ Team.player_codes team →
         players_data !! cod = Some data →
         Loader.role_mapping !! Loader.r_role data = None →
         raises (Loader.populate_teams_with_players players_data teams).2).
Proof.
  cbv zeta. split; [vm_compute; reflexivity|].
  intros H.
  destruct (H (Team.mk "T" [7%Z] []) 7%Z (Loader.mk_row "Juventus" "G" "Buffon" ∅))
    as [msg Hmsg].
  - apply list_elem_of_here.
  - apply list_elem_of_here.
  - reflexivity.
  - vm_compute; reflexivity.
  - vm_compute in Hmsg. discriminate Hmsg.
Qed.

(** C9, amended. During roster population a raw role code missing from the
    lookup table goes unchanged to the [Role] constructor; population raises
    a [ValueError] to its caller exactly when some rostered code found in
    the data has a raw role that is none of P, D, C, A, G, M, F, and a raw
    code that already is a value of [Role] yields a player with that
    role. *)
Theorem populate_raises_iff (players_data : gmap Z Loader.row) (teams : list Team.t) :
  (raises (Loader.populate_teams_with_players players_data teams).2
   ↔ ∃ team cod, team ∈ teams ∧ cod ∈ Team.player_codes team ∧ bad_code players_data cod)
  ∧ (∀ cod data team,
       players_data !! cod = Some data →
       Loader.role_mapping !! Loader.r_role data = None →
       Loader.populate_player players_data cod team
       = match Role.of_value (Loader.r_role data) with
         | Return role =>
             (Team.add_player team
                (Player.mk cod role (Loader.r_name data) (Loader.r_team data) ∅ ∅),
              Return tt)
         | Raise e => (team, Raise e)
         end).
Proof.
  split.
  - induction teams as [|team teams IH]; cbn.
    + split; [intros [msg [=]] | intros (team & cod & []%elem_of_nil & _)].
    + destruct (populate_team_outcome players_data team) as (H1 & H2). cbv zeta in *.
      destruct (Loader.populate_team players_data team) as [team' [[]|e]] eqn:E;
        cbn [fst snd] in *.
      * destruct (Loader.populate_teams_with_players players_data teams) as [teams' r].
        cbn [snd] in *. rewrite IH. split.
        -- intros (t & c & Ht & Hc). exists t, c. split; [by apply list_elem_of_further|done].
        -- intros (t & c & [-> | Ht]%elem_of_cons & Hc & Hb); [|eauto].
           assert (Hr : raises (Return tt : outcome ())) by (apply H1; eauto).
           destruct Hr as [msg [=]].
      * assert (Hr : raises (Raise e : outcome ())).
        { destruct (decide (raises (Raise e : outcome ()))) as [|Hn]; [done|].
          specialize (H2 Hn). discriminate H2. }
        split; [intros _ | intros _; exact Hr].
        apply H1 in Hr as (c & Hc & Hb). exists team, c.
        split; [apply list_elem_of_here | done].
  - intros cod data team Hdata Hmap. unfold Loader.populate_player, Player.init.
    rewrite Hdata, Hmap. cbn [default].
    by destruct (Role.of_value (Loader.r_role data)).
Qed.

(** ** Lexicographic orders *)

Section Lexicographic.
Context {A : Type}.
Implicit Types c : A → A → comparison.

Lemma cmp_eq_r c (a b x : A) : cmp_ok c → c a b = Eq → c x a = c x b.
Proof.
  intros Hc Hab. rewrite (cmp_antisym c Hc a x), (cmp_antisym c Hc b x).
  by rewrite (cmp_eq_l c Hc a b x Hab).
Qed.

Lemma lex_ok c1 c2 : cmp_ok c1 → cmp_ok c2 → cmp_ok (lex c1 c2).
Proof.
  intros H1 H2. split; unfold lex.
  - intros a b. rewrite (cmp_antisym c1 H1 a b), (cmp_antisym c2 H2 a b).
    by destruct (c1 a b).
  - intros a b d Hab Hbd.
    destruct (c1 a b) eqn:E1; [|clear Hab|done]; (destruct (c1 b d) eqn:E2; [|clear Hbd|done]).
    + rewrite (cmp_eq_l c1 H1 a b d E1), E2. by apply (cmp_lt_trans c2 H2 a b d).
    + by rewrite (cmp_eq_l c1 H1 a b d E1), E2.
    + by rewrite <- (cmp_eq_r c1 b d a H1 E2), E1.
    + by rewrite (cmp_lt_trans c1 H1 a b d E1 E2).
  - intros a b x Hab. destruct (c1 a b) eqn:E1; try done.
    by rewrite (cmp_eq_l c1 H1 a b x E1), (cmp_eq_l c2 H2 a b x Hab).
Qed.

Lemma cmp_le_trans c (a b d : A) :
  cmp_ok c → c a b ≠ Gt → c b d ≠ Gt → c a d ≠ Gt.
Proof.
  intros Hc Hab Hbd.
  destruct (c a b) eqn:E1; [| |done].
  - by rewrite (cmp_eq_l c Hc a b d E1).
  - destruct (c b d) eqn:E2; [| |done].
    + by rewrite <- (cmp_eq_r c b d a Hc E2), E1.
    + by rewrite (cmp_lt_trans c Hc a b d E1 E2).
Qed.

Lemma cmp_le_total c (a b : A) : cmp_ok c → c a b = Gt → c b a ≠ Gt.
Proof. intros Hc Hab. by rewrite (cmp_antisym c Hc a b), Hab. Qed.

End Lexicographic.

Lemma string_compare_as_OT (s1 s2 : string) :
  String.compare s1 s2 = String_as_OT.compare s1 s2.
Proof.
  revert s2. induction s1 as [|a s1 IH]; intros [|b s2]; cbn; try reflexivity.
Qed.

Lemma string_compare_refl (s : string) : String.compare s s = Eq.
Proof.
  pose proof (String.compare_antisym s s) as H.
  destruct (String.compare s s); done.
Qed.

Lemma by_field_ok {A} (f : A → string) : cmp_ok (by_field f).
Proof.
  unfold by_field. split.
  - intros a b. apply String.compare_antisym.
  - intros a b d. rewrite !string_compare_as_OT.
    apply (StrictOrder_Transitive (R := String_as_OT.lt)).
  - intros a b x Hab. apply String.compare_eq_iff in Hab. by rewrite Hab.
Qed.

Lemma record_compare_ok : cmp_ok record_compare.
Proof. repeat apply lex_ok; apply by_field_ok. Qed.

Lemma record_leb_le (a b : Standardizer.record) :
  Standardizer.record_leb a b = true ↔ record_le a b.
Proof.
  unfold Standardizer.record_leb, record_le, record_compare, lex, by_field, String.leb.
  destruct (String.compare (Standardizer.Team a) (Standardizer.Team b)); [|done..].
  destruct (String.compare (Standardizer.Role a) (Standardizer.Role b)); [|done..].
  by destruct (String.compare (Standardizer.Name a) (Standardizer.Name b)).
Qed.

(** ** Standardisation *)

Lemma StronglySorted_weaken {A} (R R' : A → A → Prop) (l : list A) :
  (∀ a b, R a b → R' a b) → StronglySorted R l → StronglySorted R' l.
Proof.
  intros HR. induction 1 as [|a l Hl IH Ha]; constructor; [exact IH|].
  eapply Forall_impl; [exact Ha|]. intros b. apply HR.
Qed.

Lemma player_key_missing_record (k : Standardizer.key) :
  Standardizer.player_key (Standardizer.missing_record k) = k.
Proof. by destruct k as [[[team cod] role] name]. Qed.

Lemma zero_fields_missing_record (k : Standardizer.key) :
  zero_fields (Standardizer.missing_record k).
Proof. destruct k as [[[team cod] role] name]. by repeat split. Qed.

Lemma collect_file_spec (all_players : pydict Standardizer.key Standardizer.key)
    (df : list Standardizer.record) :
  universe_ok all_players →
  universe_ok (Standardizer.collect_file all_players df)
  ∧ ∀ k, k ∈ dict_keys (Standardizer.collect_file all_players df)
         ↔ k ∈ dict_keys all_players ∨ k ∈ file_keys df.
Proof.
  unfold Standardizer.collect_file, file_keys.
  revert all_players. induction df as [|row df IH]; intros all_players Hok; cbn [fold_left].
  - split; [done|]. intros k. rewrite fmap_nil, elem_of_nil. naive_solver.
  - set (k0 := Standardizer.player_key row).
    destruct (dict_mem k0 all_players) eqn:Hmem.
    + destruct (IH all_players Hok) as [Hok' Hkeys]. split; [done|].
      intros k. rewrite Hkeys, fmap_cons, elem_of_cons. fold k0.
      apply dict_mem_true in Hmem. naive_solver.
    + apply dict_mem_false in Hmem.
      assert (Hok1 : universe_ok (dict_set k0 k0 all_players)).
      { destruct Hok as [Hnd Hself]. split; [by apply dict_set_NoDup|].
        rewrite (dict_set_fresh _ _ _ Hmem). intros k t [Hin | Hin]%elem_of_app.
        - by apply Hself.
        - apply list_elem_of_singleton in Hin. by injection Hin as -> ->. }
      destruct (IH _ Hok1) as [Hok' Hkeys]. split; [done|].
      intros k. rewrite Hkeys, elem_of_dict_keys_set, fmap_cons, elem_of_cons. fold k0.
      naive_solver.
Qed.

Lemma collect_spec (files : list (list Standardizer.record)) :
  universe_ok (Standardizer.collect files)
  ∧ ∀ k, k ∈ dict_keys (Standardizer.collect files) ↔ in_universe files k.
Proof.
  unfold Standardizer.collect, in_universe.
  induction files as [|df files IH] using rev_ind.
  - cbn. split; [split; [apply NoDup_nil_2 | by intros k t ?%elem_of_nil]|].
    intros k. split; [by intros ?%elem_of_nil | by intros (df & ?%elem_of_nil & _)].
  - rewrite fold_left_app. cbn [fold_left]. destruct IH as [Hok Hkeys].
    destruct (collect_file_spec _ df Hok) as [Hok' Hkeys']. split; [done|].
    intros k. rewrite Hkeys', Hkeys. split.
    + intros [(df0 & Hdf0 & Hk) | Hk].
      * exists df0. split; [|done]. apply elem_of_app. by left.
      * exists df. split; [|done]. apply elem_of_app. right. apply list_elem_of_here.
    + intros (df0 & [Hdf0 | ->%list_elem_of_singleton]%elem_of_app & Hk); eauto.
Qed.

(** The records added to a file: one per key of the universe the file
    lacks. *)
Lemma missing_players_keys (all_players : pydict Standardizer.key Standardizer.key)
    (existing_players : gset Standardizer.key) :
  (∀ k t, (k, t) ∈ all_players → t = k) →
  file_keys
    (omap (λ '(player_key, player_template),
             if bool_decide (player_key ∉ existing_players)
             then Some (Standardizer.missing_record player_template) else None)
          all_players)
  = filter (λ k, k ∉ existing_players) (dict_keys all_players).
Proof.
  unfold file_keys, dict_keys. induction all_players as [|[k t] all_players IH]; intros Hself.
  - done.
  - assert (t = k) as -> by (apply Hself, list_elem_of_here).
    cbn [omap list_omap fmap list_fmap fst]. rewrite filter_cons.
    assert (IH' := IH (λ k' t' H, Hself k' t' (list_elem_of_further _ _ _ H))).
    case_bool_decide as E.
    + rewrite decide_True by exact E. cbn [fmap list_fmap].
      by rewrite player_key_missing_record, <- IH'.
    + rewrite decide_False by (intros Hk; exact (Hk E)). exact IH'.
Qed.

Lemma standardize_file_spec (all_players : pydict Standardizer.key Standardizer.key)
    (df : list Standardizer.record) :
  universe_ok all_players →
  (∀ k, k ∈ file_keys df → k ∈ dict_keys all_players) →
  let df' := Standardizer.standardize_file all_players df in
  (∀ k, k ∈ file_keys df' ↔ k ∈ dict_keys all_players)
  ∧ StronglySorted record_le df'
  ∧ ∃ missing_players,
      df' ≡ₚ df ++ missing_players
      ∧ Forall zero_fields missing_players
      ∧ Forall (λ r, identity r ∉ file_keys df) missing_players
      ∧ NoDup (file_keys missing_players).
Proof.
  intros [Hnd Hself] Hsub. cbv zeta. unfold Standardizer.standardize_file.
  set (existing_players := list_to_set (Standardizer.player_key <$> df) : gset Standardizer.key).
  match goal with |- context [@omap list _ _ _ ?f ?l] =>
    set (missing_players := @omap list _ _ _ f l) end.
  assert (Hex : ∀ k, k ∈ existing_players ↔ k ∈ file_keys df)
    by (intros k; apply elem_of_list_to_set).
  assert (Hkeys : file_keys missing_players
                  = filter (λ k, k ∉ existing_players) (dict_keys all_players))
    by (by apply missing_players_keys).
  assert (Hdf : match missing_players with [] => df | _ => df ++ missing_players end
                = df ++ missing_players).
  { destruct missing_players; [by rewrite app_nil_r | done]. }
  rewrite Hdf. clear Hdf.
  assert (Hperm : stable_sort Standardizer.record_leb (df ++ missing_players)
                  ≡ₚ df ++ missing_players) by apply stable_sort_Permutation.
  split; [|split].
  - intros k. unfold file_keys in *. rewrite Hperm, fmap_app, elem_of_app, Hkeys.
    rewrite list_elem_of_filter, Hex.
    destruct (decide (k ∈ Standardizer.player_key <$> df)); naive_solver.
  - apply (StronglySorted_weaken (λ u v, Standardizer.record_leb u v = true)).
    { intros a b. apply record_leb_le. }
    apply stable_sort_StronglySorted.
    + intros a b Hab. apply record_leb_le. apply not_true_iff_false in Hab.
      rewrite record_leb_le in Hab. apply (cmp_le_total _ _ _ record_compare_ok).
      unfold record_le in Hab.
      destruct (record_compare a b); [by destruct Hab.. | done].
    + intros a b d. rewrite !record_leb_le. apply (cmp_le_trans _ _ _ _ record_compare_ok).
  - exists missing_players. split; [done|]. split; [|split].
    + apply Forall_forall. intros r Hr. unfold missing_players in Hr.
      apply list_elem_of_omap in Hr as ([k t] & _ & Hr).
      case_bool_decide; [|done]. injection Hr as <-. apply zero_fields_missing_record.
    + apply Forall_forall. intros r Hr.
      apply (list_elem_of_fmap_2 identity) in Hr.
      fold (file_keys missing_players) in Hr. rewrite Hkeys in Hr.
      apply list_elem_of_filter in Hr as [Hr _]. by rewrite <- Hex.
    + rewrite Hkeys. by apply NoDup_filter.
Qed.

(** The example of the specification run on three rows: both files end
    with the rows of [x], [y] and [z], the added ones all zero, in the order
    of the teams. *)
Example standardize_example :
  Standardizer.standardize_player_lists [[sample_x; sample_y]; [sample_x; sample_z]]
  = [[sample_y; Standardizer.missing_record (Standardizer.player_key sample_z); sample_x];
     [Standardizer.missing_record (Standardizer.player_key sample_y); sample_z; sample_x]].
Proof. vm_compute. reflexivity. Qed.

(** C7. After [standardize_player_lists], when every file was read and
    merged, each file holds exactly the keys (team, code, role, name) seen
    in any of the files: matchdays \{x, y\} and \{x, z\} both end as
    \{x, y, z\}. The records of a file are its own followed by one record
    per key it lacked, whose ten numeric fields, rating included, are 0,
    and they are sorted by team, then role, then name. *)
Theorem standardize_player_lists_complete (csv_files : list (list Standardizer.record)) :
  Forall2
    (λ df df',
       (∀ k, k ∈ file_keys df' ↔ in_universe csv_files k)
       ∧ StronglySorted record_le df'
       ∧ ∃ missing_players,
           df' ≡ₚ df ++ missing_players
           ∧ Forall zero_fields missing_players
           ∧ Forall (λ r, identity r ∉ file_keys df) missing_players
           ∧ NoDup (file_keys missing_players))
    csv_files (Standardizer.standardize_player_lists csv_files)
  ∧ ∀ x y z : Standardizer.record,
      Forall (λ df', ∀ k, k ∈ file_keys df'
                          ↔ k ∈ [identity x; identity y; identity z])
             (Standardizer.standardize_player_lists [[x; y]; [x; z]]).
Proof.
  assert (G : ∀ files : list (list Standardizer.record),
            Forall2
              (λ df df',
                 (∀ k, k ∈ file_keys df' ↔ in_universe files k)
                 ∧ StronglySorted record_le df'
                 ∧ ∃ missing_players,
                     df' ≡ₚ df ++ missing_players
                     ∧ Forall zero_fields missing_players
                     ∧ Forall (λ r, identity r ∉ file_keys df) missing_players
                     ∧ NoDup (file_keys missing_players))
              files (Standardizer.standardize_player_lists files)).
  { intros files.
    assert (E : Standardizer.standardize_player_lists files
                = Standardizer.standardize_file (Standardizer.collect files) <$> files)
      by (by destruct files).
    rewrite E. apply Forall2_fmap_r, Forall_Forall2_diag, Forall_forall.
    intros df Hdf. destruct (collect_spec files) as [Hok Hkeys].
    destruct (standardize_file_spec (Standardizer.collect files) df Hok) as (H1 & H2 & H3).
    { intros k Hk. apply Hkeys. by exists df. }
    cbn. split; [|by split].
    intros k. by rewrite H1, Hkeys. }
  split; [apply G|].
  intros x y z. specialize (G [[x; y]; [x; z]]).
  apply Forall2_Forall_r with (Q := λ df', ∀ k, k ∈ file_keys df'
            ↔ k ∈ [identity x; identity y; identity z]) in G; [exact G|].
  apply Forall_forall. intros df _ df' (Hkeys & _). intros k.
  rewrite Hkeys. unfold in_universe, file_keys. split.
  - intros (df0 & Hdf0 & Hk).
    repeat (apply elem_of_cons in Hdf0 as [-> | Hdf0]); [| |by apply elem_of_nil in Hdf0].
    all: cbn in Hk; repeat (apply elem_of_cons in Hk as [-> | Hk]); set_solver.
  - intros Hk. repeat (apply elem_of_cons in Hk as [-> | Hk]).
    + exists [x; y]. set_solver.
    + exists [x; y]. set_solver.
    + exists [x; z]. set_solver.
    + by apply elem_of_nil in Hk.
Qed.

(** * Further properties of the code *)

(** ** Player *)

(** X1. [add_matchday_stats] stores the snapshot of the row, a missing
    column reading 0, under its matchday and nothing else: the other
    matchdays, the identity of the player and the cache stay, and a second
    call for the matchday replaces the first. *)
Theorem add_matchday_stats_lookup (p : Player.t) (m : Z) (stats stats' : gmap string Q) :
  Player.get_stats (Player.add_matchday_stats p m stats) m = Some (snapshot stats)
  ∧ (∀ m', m' ≠ m →
       Player.get_stats (Player.add_matchday_stats p m stats) m' = Player.get_stats p m')
  ∧ (∀ column, stats !! column = None → Player.get_or_0 stats column = 0)
  ∧ Player.matchday_fantavoto (Player.add_matchday_stats p m stats)
    = Player.matchday_fantavoto p
  ∧ Player.role (Player.add_matchday_stats p m stats) = Player.role p
  ∧ Player.add_matchday_stats (Player.add_matchday_stats p m stats) m stats'
    = Player.add_matchday_stats p m stats'.
Proof.
  unfold Player.get_stats, Player.add_matchday_stats, snapshot.
  cbn [Player.matchday_stats Player.matchday_fantavoto Player.role Player.cod
       Player.name Player.real_team].
  split; [apply lookup_insert_eq|]. split.
  { intros m' Hm'. by apply lookup_insert_ne. }
  split; [by intros column Hc; unfold Player.get_or_0; rewrite Hc|].
  split; [done|]. split; [done|].
  by rewrite insert_insert_eq.
Qed.

Lemma calculate_fantavoto_add_fantavoto (p : Player.t) (m m' : Z) :
  Player.calculate_fantavoto (Player.add_matchday_fantavoto p m) m'
  = Player.calculate_fantavoto p m'.
Proof. by apply calculate_fantavoto_ext. Qed.

(** X2. Caching a fantavoto changes neither the stats nor any fantavoto
    computed afterwards, so caching twice is caching once, and loading the
    same row for a matchday twice is loading it once. *)
Theorem add_matchday_fantavoto_idempotent (p : Player.t) (m : Z) (data : gmap string Q) :
  Player.add_matchday_fantavoto (Player.add_matchday_fantavoto p m) m
  = Player.add_matchday_fantavoto p m
  ∧ (∀ m', Player.calculate_fantavoto (Player.add_matchday_fantavoto p m) m'
           = Player.calculate_fantavoto p m')
  ∧ Player.matchday_fantavoto (Player.add_matchday_fantavoto p m) !! m
    = Some (Player.calculate_fantavoto p m)
  ∧ Loader.load_player_matchday (Loader.load_player_matchday p m data) m data
    = Loader.load_player_matchday p m data.
Proof.
  split; [|split; [|split]].
  - unfold Player.add_matchday_fantavoto at 1 3.
    rewrite calculate_fantavoto_add_fantavoto. cbn.
    by rewrite insert_insert_eq.
  - intros m'. apply calculate_fantavoto_add_fantavoto.
  - cbn. apply lookup_insert_eq.
  - unfold Loader.load_player_matchday.
    set (p1 := Player.add_matchday_stats p m data).
    assert (E : Player.add_matchday_stats (Player.add_matchday_fantavoto p1 m) m data
                = Player.add_matchday_fantavoto p1 m).
    { unfold Player.add_matchday_stats, Player.add_matchday_fantavoto, p1. cbn.
      by rewrite insert_insert_eq. }
    rewrite E. unfold Player.add_matchday_fantavoto at 1 3.
    rewrite calculate_fantavoto_add_fantavoto. cbn. by rewrite insert_insert_eq.
Qed.

Lemma Qle_bool_false (x y : Q) : Qle_bool x y = false ↔ y < x.
Proof.
  split.
  - intros H. apply Qnot_le_lt. intros Hle. apply Qle_bool_iff in Hle. congruence.
  - intros H. destruct (Qle_bool x y) eqn:E; [|done].
    apply Qle_bool_iff in E. by apply Qlt_not_le in H.
Qed.

(** X3. [has_played] holds exactly when stats with a rating above 0 are
    stored for the matchday, and the fantavoto is then the rounded formula.
    The two tests part on a negative rating: the matchday does not count as
    played, yet it is scored by the formula, not as 0. *)
Theorem has_played_fantavoto (p : Player.t) (m : Z) :
  (Player.has_played p m = true
   ↔ ∃ s, Player.matchday_stats p !! m = Some s ∧ 0 < PlayerStats.rating s)
  ∧ (Player.has_played p m = true →
     ∃ s, Player.matchday_stats p !! m = Some s
          ∧ Player.calculate_fantavoto p m = py_round1 (spec_score (Player.role p) s))
  ∧ (∀ s, Player.matchday_stats p !! m = Some s → PlayerStats.rating s < 0 →
       Player.has_played p m = false
       ∧ Player.calculate_fantavoto p m = py_round1 (spec_score (Player.role p) s)).
Proof.
  assert (Hiff : Player.has_played p m = true
           ↔ ∃ s, Player.matchday_stats p !! m = Some s ∧ 0 < PlayerStats.rating s).
  { unfold Player.has_played, Player.get_stats.
    destruct (Player.matchday_stats p !! m) as [s|].
    - rewrite negb_true_iff, Qle_bool_false. split; [eauto|].
      by intros (s' & [= <-] & Hs).
    - split; [done | by intros (s & [=] & _)]. }
  split; [exact Hiff|]. split.
  - intros (s & Hs & Hr)%Hiff. exists s. split; [done|].
    apply calculate_fantavoto_played; [done|].
    intros E. rewrite E in Hr. by apply Qlt_irrefl in Hr.
  - intros s Hs Hr. split.
    + unfold Player.has_played, Player.get_stats. rewrite Hs.
      apply negb_false_iff, Qle_bool_iff. by apply Qlt_le_weak.
    + apply calculate_fantavoto_played; [done|].
      intros E. rewrite E in Hr. by apply Qlt_irrefl in Hr.
Qed.

(** ** Sums and extrema *)

Lemma min_from_elem {A} (key : A → Q) (x : A) (xs : list A) :
  min_from key x xs ∈ x :: xs.
Proof.
  unfold min_from. revert x. induction xs as [|y xs IH]; intros x; cbn.
  - apply list_elem_of_here.
  - destruct (Qlt_bool (key y) (key x)).
    + apply list_elem_of_further, IH.
    + specialize (IH x). apply elem_of_cons in IH as [-> | IH].
      * apply list_elem_of_here.
      * by do 2 apply list_elem_of_further.
Qed.

Lemma Qlt_bool_true (x y : Q) : Qlt_bool x y = true ↔ x < y.
Proof. unfold Qlt_bool. by rewrite negb_true_iff, Qle_bool_false. Qed.

Lemma Qlt_bool_false (x y : Q) : Qlt_bool x y = false ↔ y <= x.
Proof. unfold Qlt_bool. by rewrite negb_false_iff, Qle_bool_iff. Qed.

Lemma min_from_le_start {A} (key : A → Q) (x : A) (xs : list A) :
  key (min_from key x xs) <= key x.
Proof.
  unfold min_from. revert x. induction xs as [|z xs IH]; intros x; cbn.
  - apply Qle_refl.
  - destruct (Qlt_bool (key z) (key x)) eqn:E; [|apply IH].
    apply Qlt_bool_true in E. eapply Qle_trans; [apply IH|]. by apply Qlt_le_weak.
Qed.

Lemma min_from_le {A} (key : A → Q) (x : A) (xs : list A) (y : A) :
  y ∈ x :: xs → key (min_from key x xs) <= key y.
Proof.
  revert x. induction xs as [|z xs IH]; intros x Hy.
  - apply list_elem_of_singleton in Hy as ->. apply Qle_refl.
  - unfold min_from. cbn [fold_left].
    fold (min_from key (if Qlt_bool (key z) (key x) then z else x) xs).
    destruct (Qlt_bool (key z) (key x)) eqn:E.
    + apply Qlt_bool_true in E.
      apply elem_of_cons in Hy as [-> | Hy].
      * eapply Qle_trans; [apply min_from_le_start|]. by apply Qlt_le_weak.
      * by apply IH.
    + apply Qlt_bool_false in E.
      apply elem_of_cons in Hy as [-> | [-> | Hy]%elem_of_cons].
      * apply min_from_le_start.
      * eapply Qle_trans; [apply min_from_le_start | exact E].
      * apply IH. by apply list_elem_of_further.
Qed.

(** ** SeasonTable *)

Lemma get_stats_extrema (t : SeasonTable.t) :
  let d := SeasonTable.get_stats t in
  let scores := dict_values (SeasonTable.matchday_scores t) in
  (∀ v, v ∈ scores →
     SeasonTable.s_worst_score d <= v ∧ v <= SeasonTable.s_best_score d)
  ∧ (scores ≠ [] →
     SeasonTable.s_best_score d ∈ scores ∧ SeasonTable.s_worst_score d ∈ scores)
  ∧ (scores = [] →
     SeasonTable.s_best_score d = 0 ∧ SeasonTable.s_worst_score d = 0)
  ∧ SeasonTable.s_worst_score d <= SeasonTable.s_best_score d.
Proof.
  cbv zeta. unfold SeasonTable.get_stats.
  cbn [SeasonTable.s_best_score SeasonTable.s_worst_score].
  destruct (dict_values (SeasonTable.matchday_scores t)) as [|v0 vs].
  - split; [by intros v ?%elem_of_nil|]. split; [done|]. split; [done|]. apply Qle_refl.
  - split; [|split; [|split]].
    + intros v Hv. split.
      * apply (min_from_le id v0 vs v Hv).
      * apply (max_from_ge id v0 vs v Hv).
    + intros _. split; [apply max_from_elem | apply min_from_elem].
    + done.
    + eapply Qle_trans.
      * apply (min_from_le id v0 vs v0), list_elem_of_here.
      * apply (max_from_ge id v0 vs v0), list_elem_of_here.
Qed.

(** X4. In the statistics of any table every recorded score lies between
    [worst_score] and [best_score], both of which are recorded scores; a
    table without scores reports 0.0 for both. *)
Theorem get_stats_best_worst (t : SeasonTable.t) :
  let d := SeasonTable.get_stats t in
  let scores := dict_values (SeasonTable.matchday_scores t) in
  (∀ v, v ∈ scores →
     SeasonTable.s_worst_score d <= v ∧ v <= SeasonTable.s_best_score d)
  ∧ (scores ≠ [] →
     SeasonTable.s_best_score d ∈ scores ∧ SeasonTable.s_worst_score d ∈ scores)
  ∧ (scores = [] →
     SeasonTable.s_best_score d = 0 ∧ SeasonTable.s_worst_score d = 0)
  ∧ SeasonTable.s_worst_score d <= SeasonTable.s_best_score d.
Proof. apply get_stats_extrema. Qed.










(** ** Season *)

Lemma last_named_snoc (k : string) (teams : list Team.t) (team : Team.t) :
  last_named k (teams ++ [team])
  = if decide (Team.name team = k) then Some team else last_named k teams.
Proof.
  unfold last_named. rewrite filter_app, filter_cons, filter_nil.
  destruct (decide (Team.name team = k)).
  - apply last_snoc.
  - by rewrite app_nil_r.
Qed.

Lemma init_sound_tables (team : Team.t) : table_sound (SeasonTable.init team).
Proof.
  unfold table_sound. cbn. repeat split; try apply NoDup_nil_2. apply Forall_nil_2.
Qed.

Lemma dict_set_Forall {K V} `{EqDecision K} (P : K * V → Prop) (k : K) (v : V)
    (d : pydict K V) :
  Forall P d → P (k, v) → Forall P (dict_set k v d).
Proof.
  intros Hd Hkv. induction d as [|[k' v'] d IH]; cbn.
  - by constructor.
  - apply Forall_cons in Hd as [Hh Hd]. destruct (decide (k = k')).
    + by constructor.
    + constructor; [done | by apply IH].
Qed.

Lemma init_lookup_sound (teams : list Team.t) (name : string) :
  let s := Season.init teams name in
  (∀ k, dict_get k (Season.table s) = SeasonTable.init <$> last_named k teams)
  ∧ season_sound s
  ∧ Season.current_matchday s = 1%Z
  ∧ Season.season_completed s = false
  ∧ Season.teams s = teams.
Proof.
  cbv zeta.
  assert (Hget : ∀ k, dict_get k (Season.table (Season.init teams name))
                      = SeasonTable.init <$> last_named k teams).
  { unfold Season.init. cbn [Season.table].
    induction teams as [|team teams IH] using rev_ind; intros k; [done|].
    rewrite fold_left_app, last_named_snoc. cbn [fold_left].
    destruct (decide (Team.name team = k)) as [<-|Hne].
    - apply dict_get_set_eq.
    - rewrite dict_get_set_ne by done. apply IH. }
  split; [exact Hget|]. split; [|done].
  split; [apply init_table_keys|]. split; [apply init_table_complete|]. split.
  - apply Forall_forall. intros [k e] Hin.
    apply dict_elem_get in Hin; [|apply init_table_keys].
    rewrite Hget in Hin. unfold last_named in Hin.
    destruct (last (filter (λ team, Team.name team = k) teams)) as [team|] eqn:E; [|done].
    injection Hin as <-. split; [apply init_sound_tables|].
    apply last_Some_elem_of, list_elem_of_filter in E as [E _]. exact E.
  - apply Forall_forall. intros k Hk. by apply (init_table_keys teams name).
Qed.

Lemma init_table_order (teams : list Team.t) (name : string) :
  dict_keys (Season.table (Season.init teams name))
  = reverse (remove_dups (reverse (Team.name <$> teams))).
Proof.
  induction teams as [|team teams IH] using rev_ind; [done|].
  pose proof (proj2 (init_table_keys teams name)) as Hk.
  unfold Season.init in *. cbn [Season.table] in *.
  rewrite fold_left_app, fmap_app, reverse_app. cbn [fold_left fmap list_fmap].
  change (reverse [Team.name team] ++ reverse (Team.name <$> teams))
    with (Team.name team :: reverse (Team.name <$> teams)).
  cbn [remove_dups].
  destruct (decide_rel elem_of (Team.name team) (reverse (Team.name <$> teams)))
    as [Hin|Hnot].
  - rewrite dict_keys_set_present; [exact IH|].
    rewrite elem_of_reverse in Hin. apply dict_get_is_Some. by apply Hk.
  - rewrite dict_keys_set_fresh.
    + by rewrite reverse_cons, IH.
    + apply dict_get_None. intros H. apply Hnot. rewrite elem_of_reverse. by apply Hk.
Qed.

(** X6. The constructor gives every team name a fresh table, of the last
    team bearing the name when several do; the names stand in the table in
    the order in which they first occur in the list of teams; the pointer
    is at matchday 1 and the season is not completed. *)
Theorem season_init_table (teams : list Team.t) (name : string) :
  let s := Season.init teams name in
  (∀ k, dict_get k (Season.table s) = SeasonTable.init <$> last_named k teams)
  ∧ dict_keys (Season.table s) = reverse (remove_dups (reverse (Team.name <$> teams)))
  ∧ season_sound s
  ∧ Season.current_matchday s = 1%Z
  ∧ Season.season_completed s = false
  ∧ Season.teams s = teams.
Proof.
  cbv zeta. split; [apply init_lookup_sound|]. split; [apply init_table_order|].
  apply init_lookup_sound.
Qed.

(** *** The loop of [process_matchday] in closed form *)

Lemma set_table_table (s : Season.t) : Season.set_table (Season.table s) s = s.
Proof. by destruct s. Qed.

Lemma process_teams_eq (n : Z) (ts : list Team.t) (acc : pydict string Q) (s : Season.t) :
  Forall (λ team, is_Some (dict_get (Team.name team) (Season.table s))) ts →
  for_each ts acc
    (λ team matchday_scores,
       _ ← Season.table_add_matchday_score (Team.name team) n
              (Team.calculate_total_score team n);
       mret (dict_set (Team.name team) (Team.calculate_total_score team n) matchday_scores))
    s
  = (Season.set_table (fold_left (score_team n) ts (Season.table s)) s,
     Return (fold_left
               (λ acc team,
                  dict_set (Team.name team) (Team.calculate_total_score team n) acc)
               ts acc)).
Proof.
  revert acc s. induction ts as [|team ts IH]; intros acc s Hts.
  - cbn. by rewrite set_table_table.
  - apply Forall_cons in Hts as [[entry He] Hts].
    cbn [for_each fold_left]. unfold mbind at 1, M_bind at 1.
    unfold mbind at 1, M_bind at 1.
    rewrite (table_add_matchday_score_Some _ _ _ _ _ He).
    unfold mret at 1, M_ret at 1.
    assert (Hstep : score_team n (Season.table s) team
              = dict_set (Team.name team)
                  (SeasonTable.add_matchday_score entry n
                     (Team.calculate_total_score team n)) (Season.table s))
      by (unfold score_team; by rewrite He).
    rewrite Hstep, IH.
    + by destruct s.
    + cbn [Season.table Season.set_table].
      eapply Forall_impl; [exact Hts|]. intros t Ht. cbn beta in *.
      apply dict_get_is_Some. rewrite dict_keys_set_present by eauto.
      by apply dict_get_is_Some.
Qed.

Lemma dict_set_fmap_pointwise {K V} `{EqDecision K} (f g : K → V → V) (k : K) (e : V)
    (d : pydict K V) :
  NoDup (dict_keys d) → dict_get k d = Some e →
  (∀ k' e', k' ≠ k → g k' e' = f k' e') →
  dict_set k (g k e) ((λ '(k', e'), (k', f k' e')) <$> d)
  = (λ '(k', e'), (k', g k' e')) <$> d.
Proof.
  intros Hnd Hget Hother. unfold dict_keys in Hnd.
  induction d as [|[k0 e0] d IH]; [done|].
  cbn in Hget, Hnd. apply NoDup_cons in Hnd as [Hk0 Hnd].
  cbn [fmap list_fmap dict_set]. destruct (decide (k = k0)) as [->|Hne].
  - injection Hget as ->. f_equal. apply list_fmap_ext. intros i [k' e'] Hin.
    f_equal. symmetry. apply Hother. intros ->.
    apply Hk0. apply list_elem_of_lookup_2 in Hin.
    by apply (list_elem_of_fmap_2 fst) in Hin.
  - rewrite (Hother k0 e0) by congruence. f_equal. by apply IH.
Qed.

Lemma dict_get_fmap_pointwise {K V} `{EqDecision K} (f : K → V → V) (k : K)
    (d : pydict K V) :
  dict_get k ((λ '(k', e'), (k', f k' e')) <$> d) = f k <$> dict_get k d.
Proof.
  induction d as [|[k0 e0] d IH]; [done|]. cbn.
  by destruct (decide (k = k0)) as [->|].
Qed.

Lemma processed_table_keys (n : Z) (ts : list Team.t) (table : pydict string SeasonTable.t) :
  dict_keys (processed_table n ts table) = dict_keys table.
Proof.
  unfold processed_table, dict_keys. rewrite <- list_fmap_compose.
  apply list_fmap_ext. by intros i [k e] _.
Qed.

Lemma score_teams_closed (n : Z) (ts : list Team.t) (table : pydict string SeasonTable.t) :
  NoDup (dict_keys table) →
  Forall (λ team, is_Some (dict_get (Team.name team) table)) ts →
  fold_left (score_team n) ts table = processed_table n ts table.
Proof.
  intros Hnd. induction ts as [|team ts IH] using rev_ind; intros Hts.
  - cbn. unfold processed_table. rewrite <- (list_fmap_id table) at 1.
    apply list_fmap_ext. by intros i [k e] _.
  - apply Forall_app in Hts as [Hts [[entry He] _]%Forall_cons].
    rewrite fold_left_app. cbn [fold_left]. rewrite (IH Hts).
    unfold score_team. set (k := Team.name team) in *.
    set (f := λ (k' : string) (e' : SeasonTable.t),
           match last_named k' ts with
           | Some t => SeasonTable.add_matchday_score e' n (Team.calculate_total_score t n)
           | None => e'
           end).
    set (g := λ (k' : string) (e' : SeasonTable.t),
           match last_named k' (ts ++ [team]) with
           | Some t => SeasonTable.add_matchday_score e' n (Team.calculate_total_score t n)
           | None => e'
           end).
    assert (Hpf : processed_table n ts table = (λ '(k', e'), (k', f k' e')) <$> table)
      by reflexivity.
    assert (Hpg : processed_table n (ts ++ [team]) table
                  = (λ '(k', e'), (k', g k' e')) <$> table) by reflexivity.
    rewrite Hpf, Hpg.
    rewrite dict_get_fmap_pointwise, He. cbn [fmap option_fmap option_map].
    assert (Hg : SeasonTable.add_matchday_score (f k entry) n
                   (Team.calculate_total_score team n) = g k entry).
    { unfold f, g. rewrite last_named_snoc, decide_True by done.
      destruct (last_named k ts); [apply add_matchday_score_twice | done]. }
    rewrite Hg.
    apply (dict_set_fmap_pointwise f g k entry table Hnd He).
    intros k' e' Hk'. unfold f, g. rewrite last_named_snoc.
    by rewrite decide_False by (intros E; apply Hk'; by rewrite <- E).
Qed.

Lemma process_matchday_closed (s : Season.t) (n : Z) :
  (1 ≤ n ≤ 38)%Z → table_complete s → NoDup (dict_keys (Season.table s)) →
  Season.process_matchday n s
  = (Season.mk (Season.name s) (Season.teams s)
       (processed_table n (Season.teams s) (Season.table s))
       (advance (Season.current_matchday s) n) (Season.season_completed s),
     Return (matchday_result n (Season.teams s))).
Proof.
  intros Hn Hc Hnd. unfold Season.process_matchday.
  rewrite (bool_decide_eq_false_2 (38 < n)%Z), (bool_decide_eq_false_2 (n < 1)%Z) by lia.
  cbn [orb]. cbv zeta.
  unfold mbind at 1, M_bind at 1. cbn [gets]. unfold mbind at 1, M_bind at 1.
  match goal with |- context [for_each ?xs ?acc ?body s] =>
    set (loop := for_each xs acc body s) end.
  pose proof (process_teams_eq n (Season.teams s) [] s Hc) as Hloop.
  rewrite (score_teams_closed n _ _ Hnd Hc) in Hloop.
  match type of Hloop with _ = ?r => change (loop = r) in Hloop end.
  rewrite Hloop.
  unfold mbind, M_bind, gets, advance, matchday_result.
  cbn [Season.current_matchday Season.set_table].
  by destruct (bool_decide (n = Season.current_matchday s)); destruct s.
Qed.

Lemma add_matchday_score_sound (e : SeasonTable.t) (n : Z) (score : Q) :
  (1 ≤ n ≤ 38)%Z → table_sound e → table_sound (SeasonTable.add_matchday_score e n score).
Proof.
  intros Hn (Hnd & Htot & Hplayed & Hrange). unfold table_sound, SeasonTable.add_matchday_score.
  cbn [SeasonTable.matchday_scores SeasonTable.total_points SeasonTable.matchdays_played].
  split; [by apply dict_set_NoDup|]. split; [done|]. split.
  - destruct (dict_mem n (SeasonTable.matchday_scores e)) eqn:Hm; cbn [negb].
    + apply dict_mem_true, dict_get_is_Some in Hm. by rewrite dict_keys_set_present.
    + apply dict_mem_false in Hm. rewrite dict_keys_set_fresh by done.
      rewrite length_app, Hplayed. cbn. lia.
  - apply Forall_forall. intros m [-> | Hm]%elem_of_dict_keys_set; [done|].
    rewrite Forall_forall in Hrange. by apply Hrange.
Qed.

Lemma processed_table_sound (n : Z) (s : Season.t) :
  (1 ≤ n ≤ 38)%Z → season_sound s →
  season_sound
    (Season.mk (Season.name s) (Season.teams s)
       (processed_table n (Season.teams s) (Season.table s))
       (advance (Season.current_matchday s) n) (Season.season_completed s)).
Proof.
  intros Hn (Hnd & Hc & Hall & Hnames). unfold season_sound, table_complete.
  cbn [Season.table Season.teams]. split; [by rewrite processed_table_keys|].
  split; [|split].
  - eapply Forall_impl; [exact Hc|]. intros team Ht. cbn beta in *.
    apply dict_get_is_Some. rewrite processed_table_keys. by apply dict_get_is_Some.
  - unfold processed_table. apply Forall_fmap. eapply Forall_impl; [exact Hall|].
    intros [k e] [He Hk]. cbn. destruct (last_named k (Season.teams s)); [|done].
    split; [by apply add_matchday_score_sound | done].
  - by rewrite processed_table_keys.
Qed.

Lemma process_matchday_sound (n : Z) (s : Season.t) :
  season_sound s → season_sound (Season.process_matchday n s).1.
Proof.
  intros Hs. destruct (decide (1 ≤ n ≤ 38)%Z) as [Hn|Hn].
  - pose proof Hs as (Hnd & Hc & _).
    rewrite process_matchday_closed by done. cbn [fst].
    by apply processed_table_sound.
  - rewrite process_matchday_out_of_range by lia. exact Hs.
Qed.

Lemma run_sound (matchdays : list Z) (s : Season.t) :
  season_sound s → season_sound (Season.run matchdays s).
Proof.
  revert s. induction matchdays as [|n matchdays IH]; intros s Hs; [done|].
  cbn. apply IH. by apply process_matchday_sound.
Qed.

Lemma processed_table_twice (n : Z) (ts : list Team.t) (table : pydict string SeasonTable.t) :
  processed_table n ts (processed_table n ts table) = processed_table n ts table.
Proof.
  unfold processed_table. rewrite <- list_fmap_compose. apply list_fmap_ext.
  intros i [k e] _. cbn. f_equal.
  destruct (last_named k ts); [apply add_matchday_score_twice | done].
Qed.

Lemma advance_twice (current n : Z) : advance (advance current n) n = advance current n.
Proof.
  unfold advance. destruct (decide (n = current)) as [->|Hne].
  - rewrite (bool_decide_eq_true_2 (current = current)) by done.
    by rewrite bool_decide_eq_false_2 by lia.
  - by rewrite !(bool_decide_eq_false_2 (n = current)) by done.
Qed.

(** X7. On a sound season a matchday in range leaves a state that can be
    written down: every table takes for the matchday the score of the last
    team bearing its name, the pointer moves on if it stood at the
    matchday, nothing else changes; the call returns the scores by team
    name, and the season is sound again. *)
Theorem process_matchday_closed_form (s : Season.t) (n : Z)
    (Hn : (1 ≤ n ≤ 38)%Z) (Hs : season_sound s) :
  let s' := Season.mk (Season.name s) (Season.teams s)
              (processed_table n (Season.teams s) (Season.table s))
              (advance (Season.current_matchday s) n) (Season.season_completed s) in
  Season.process_matchday n s = (s', Return (matchday_result n (Season.teams s)))
  ∧ season_sound s'.
Proof.
  cbv zeta. split; [|by apply processed_table_sound].
  destruct Hs as (Hnd & Hc & _). by apply process_matchday_closed.
Qed.

Lemma process_matchday_closed_form_witness :
  Season.current_matchday
    (Season.process_matchday 1 (Season.init [sample_team_b; sample_team_a] "Serie A")).1
  = 2%Z.
Proof.
  rewrite (proj1 (process_matchday_closed_form
                    (Season.init [sample_team_b; sample_team_a] "Serie A") 1
                    ltac:(lia) (proj1 (proj2 (init_lookup_sound _ _))))).
  reflexivity.
Defined.

(** X8. Processing a matchday a second time changes nothing: the state
    after two calls is the state after one, and the second call gives what
    the first gave, be it the scores or the range error. *)
Theorem process_matchday_idempotent (s : Season.t) (n : Z) (Hs : season_sound s) :
  Season.process_matchday n (Season.process_matchday n s).1 = Season.process_matchday n s.
Proof.
  destruct (decide (1 ≤ n ≤ 38)%Z) as [Hn|Hn].
  - pose proof (processed_table_sound n s Hn Hs) as (Hnd' & Hc' & _).
    destruct Hs as (Hnd & Hc & _).
    rewrite (process_matchday_closed s n Hn Hc Hnd). cbn [fst].
    rewrite (process_matchday_closed _ n Hn Hc' Hnd').
    cbn [Season.name Season.teams Season.table Season.current_matchday
         Season.season_completed].
    by rewrite processed_table_twice, advance_twice.
  - by rewrite !process_matchday_out_of_range by lia.
Qed.

Lemma process_matchday_idempotent_witness :
  Season.process_matchday 1 (Season.process_matchday 1 sample_season).1
  = Season.process_matchday 1 sample_season.
Proof.
  apply process_matchday_idempotent.
  apply run_sound, init_lookup_sound.
Defined.

(** *** The complete season *)

Lemma complete_loop_eq (ms : list Z) (s : Season.t) :
  Forall (λ m, (1 ≤ m ≤ 38)%Z) ms → season_sound s →
  for_each ms tt (λ matchday _, _ ← Season.process_matchday matchday; mret tt) s
  = (Season.run ms s, Return tt).
Proof.
  revert s. induction ms as [|m ms IH]; intros s Hms Hs; [done|].
  apply Forall_cons in Hms as [Hm Hms].
  cbn [for_each Season.run fold_left]. unfold mbind at 1, M_bind at 1.
  unfold mbind at 1, M_bind at 1.
  pose proof (process_matchday_sound m s Hs) as Hs'.
  pose proof Hs as (Hnd & Hc & _).
  rewrite (process_matchday_closed s m Hm Hc Hnd) in *. cbn [fst] in *.
  unfold mret at 1, M_ret at 1. by apply IH.
Qed.

Lemma run_snoc (ms : list Z) (n : Z) (s : Season.t) :
  Season.run (ms ++ [n]) s = (Season.process_matchday n (Season.run ms s)).1.
Proof. unfold Season.run. by rewrite fold_left_app. Qed.

Lemma run_current (ms : list Z) (s : Season.t) :
  Forall (λ m, (1 ≤ m ≤ 38)%Z) ms → season_sound s →
  Season.current_matchday (Season.run ms s) = fold_left advance ms (Season.current_matchday s).
Proof.
  induction ms as [|n ms IH] using rev_ind; intros Hms Hs; [done|].
  apply Forall_app in Hms as [Hms [Hn _]%Forall_cons].
  rewrite run_snoc, fold_left_app. cbn [fold_left].
  pose proof (run_sound ms s Hs) as (Hnd & Hc & _).
  rewrite (process_matchday_closed _ n Hn Hc Hnd). cbn. by rewrite IH.
Qed.

Lemma last_named_is_Some (k : string) (teams : list Team.t) :
  k ∈ Team.name <$> teams → is_Some (last_named k teams).
Proof.
  intros (team & -> & Hteam)%list_elem_of_fmap. unfold last_named.
  destruct (filter (λ t, Team.name t = Team.name team) teams) as [|t ts] eqn:E
    using rev_ind.
  - assert (Hin : team ∈ filter (λ t, Team.name t = Team.name team) teams)
      by (by apply list_elem_of_filter).
    rewrite E in Hin. by apply elem_of_nil in Hin.
  - rewrite last_snoc. eauto.
Qed.

Lemma run_recorded (ms : list Z) (s : Season.t) :
  Forall (λ m, (1 ≤ m ≤ 38)%Z) ms → season_sound s →
  Forall (λ '(k, e), ∀ m, m ∈ ms → is_Some (dict_get m (SeasonTable.matchday_scores e)))
         (Season.table (Season.run ms s)).
Proof.
  induction ms as [|n ms IH] using rev_ind; intros Hms Hs.
  - apply Forall_forall. intros [k e] _ m Hm. by apply elem_of_nil in Hm.
  - apply Forall_app in Hms as [Hms [Hn _]%Forall_cons].
    rewrite run_snoc.
    pose proof (run_sound ms s Hs) as (Hnd & Hc & _ & Hnames).
    rewrite (process_matchday_closed _ n Hn Hc Hnd). cbn [fst Season.table].
    unfold processed_table. apply Forall_fmap.
    specialize (IH Hms Hs). rewrite Forall_forall in IH. apply Forall_forall.
    intros [k e] Hin. cbn. intros m Hm.
    rewrite Forall_forall in Hnames.
    destruct (last_named_is_Some k (Season.teams (Season.run ms s))) as [team ->].
    { apply Hnames. by apply (list_elem_of_fmap_2 fst) in Hin. }
    unfold SeasonTable.add_matchday_score. cbn [SeasonTable.matchday_scores].
    apply dict_get_is_Some, elem_of_dict_keys_set.
    apply elem_of_app in Hm as [Hm | ->%list_elem_of_singleton]; [|by left].
    right. apply dict_get_is_Some. by apply (IH (k, e) Hin).
Qed.

Lemma advance_seqZ (k : nat) (a p : Z) :
  fold_left advance (seqZ a (Z.of_nat k)) p
  = if decide (a ≤ p < a + Z.of_nat k)%Z then (a + Z.of_nat k)%Z else p.
Proof.
  revert a p. induction k as [|k IH]; intros a p.
  - cbn. by rewrite decide_False by lia.
  - rewrite seqZ_cons by lia. cbn [fold_left].
    replace (Z.pred (Z.of_nat (S k))) with (Z.of_nat k) by lia.
    rewrite IH. unfold advance.
    case_bool_decide; repeat case_decide; lia.
Qed.

Lemma full_table_played (e : SeasonTable.t) :
  table_sound e →
  (∀ m, m ∈ seqZ 1 38 → is_Some (dict_get m (SeasonTable.matchday_scores e))) →
  SeasonTable.matchdays_played e = 38%Z.
Proof.
  intros (Hnd & _ & Hplayed & Hrange) Hall. rewrite Hplayed.
  assert (Hp : dict_keys (SeasonTable.matchday_scores e) ≡ₚ seqZ 1 38).
  { apply NoDup_Permutation; [done | apply NoDup_seqZ|].
    intros m. rewrite Forall_forall in Hrange. split.
    - intros Hm. apply elem_of_seqZ. specialize (Hrange m Hm). lia.
    - intros Hm. by apply dict_get_is_Some, Hall. }
  by rewrite Hp.
Qed.

Lemma get_season_table_nil (s : Season.t) :
  Season.get_season_table s = [] ↔ Season.table s = [].
Proof.
  destruct (get_season_table_spec s) as (Hl & _). cbv zeta in Hl.
  split; intros E.
  - apply length_zero_iff_nil. rewrite <- Hl, E. done.
  - apply length_zero_iff_nil. rewrite Hl, E. done.
Qed.

Lemma get_season_summary_outcome (s : Season.t) :
  (Season.table s = [] →
   Season.get_season_summary s = Raise (ValueError "max() arg is an empty sequence"))
  ∧ (Season.table s ≠ [] →
     ∃ summ, Season.get_season_summary s = Return summ
             ∧ Season.summary_season_completed summ = Season.season_completed s
             ∧ Season.season_name summ = Season.name s
             ∧ Season.final_table summ = Season.get_season_table s
             ∧ Season.total_matchdays_processed summ
               = fold_left Z.add
                   (SeasonTable.matchdays_played <$> dict_values (Season.table s)) 0%Z).
Proof.
  unfold Season.get_season_summary. split; intros E.
  - apply get_season_table_nil in E. by rewrite E.
  - destruct (Season.get_season_table s) as [|first rest] eqn:Ht.
    + by apply get_season_table_nil in Ht.
    + cbn [py_max py_min]. eexists. split; [reflexivity|]. by cbn.
Qed.

Lemma sum_constant (l : list Z) (c : Z) :
  Forall (λ x, x = c) l → fold_left Z.add l 0%Z = (c * Z.of_nat (length l))%Z.
Proof.
  intros Hl.
  assert (G : ∀ a, fold_left Z.add l a = (a + c * Z.of_nat (length l))%Z).
  { induction Hl as [|x l -> _ IH]; intros a; cbn [fold_left length]; [lia|].
    rewrite IH. lia. }
  rewrite G. lia.
Qed.

(** X9. On a sound season [process_complete_season] processes the
    matchdays 1 to 38 without an error and sets the completion flag, so
    that every table ends with a score for each of the 38 matchdays and 38
    matchdays played; the pointer ends at 39 if it stood within 1..38 and
    is not moved otherwise. The call then gives what [get_season_summary]
    gives on that state: with no table it raises the [ValueError] of [max]
    with the flag already set, and otherwise it returns a summary that is
    marked completed and counts 38 matchdays per table. *)
Theorem process_complete_season_spec (s : Season.t) (Hs : season_sound s) :
  let s' := Season.set_season_completed true (Season.run (seqZ 1 38) s) in
  Season.process_complete_season s
  = (s', Season.get_season_summary s')
  ∧ Season.teams s' = Season.teams s
  ∧ dict_keys (Season.table s') = dict_keys (Season.table s)
  ∧ Season.season_completed s' = true
  ∧ Season.current_matchday s'
    = (if decide (1 ≤ Season.current_matchday s ≤ 38)%Z then 39%Z
       else Season.current_matchday s)
  ∧ Forall (λ '(k, e),
              SeasonTable.matchdays_played e = 38%Z
              ∧ ∀ m, (1 ≤ m ≤ 38)%Z → is_Some (dict_get m (SeasonTable.matchday_scores e)))
           (Season.table s')
  ∧ (Season.table s = [] →
     Season.get_season_summary s' = Raise (ValueError "max() arg is an empty sequence"))
  ∧ (Season.table s ≠ [] →
     ∃ summ, Season.get_season_summary s' = Return summ
             ∧ Season.summary_season_completed summ = true
             ∧ Season.total_matchdays_processed summ
               = (38 * Z.of_nat (length (Season.table s)))%Z).
Proof.
  cbv zeta.
  assert (Hms : Forall (λ m, (1 ≤ m ≤ 38)%Z) (seqZ 1 38)).
  { apply Forall_forall. intros m Hm%elem_of_seqZ. lia. }
  pose proof (run_sound (seqZ 1 38) s Hs) as Hs1.
  pose proof (run_frame (seqZ 1 38) s) as (_ & Hteams & _ & Hkeys).
  pose proof (run_recorded (seqZ 1 38) s Hms Hs) as Hrec.
  pose proof (complete_loop_eq (seqZ 1 38) s Hms Hs) as Hloop.
  pose proof (run_current (seqZ 1 38) s Hms Hs) as Hcur.
  revert Hs1 Hteams Hkeys Hrec Hloop Hcur.
  generalize (Season.run (seqZ 1 38) s).
  intros s1 Hs1 Hteams Hkeys Hrec Hloop Hcur.
  assert (Hfull : Forall (λ '(k, e),
              SeasonTable.matchdays_played e = 38%Z
              ∧ ∀ m, (1 ≤ m ≤ 38)%Z → is_Some (dict_get m (SeasonTable.matchday_scores e)))
           (Season.table s1)).
  { destruct Hs1 as (_ & _ & Hall & _). rewrite Forall_forall in Hall, Hrec.
    apply Forall_forall. intros [k e] Hin.
    specialize (Hall _ Hin) as [He _]. specialize (Hrec _ Hin). cbn beta iota in Hrec.
    split; [by apply full_table_played|].
    intros m Hm. apply Hrec, elem_of_seqZ. lia. }
  assert (Hlen : length (Season.table s1) = length (Season.table s)).
  { pose proof (f_equal length Hkeys) as Hl. unfold dict_keys in Hl.
    by rewrite !length_fmap in Hl. }
  split; [|split; [done|split; [done|split; [done|split; [|split; [done|split]]]]]].
  - unfold Season.process_complete_season.
    unfold mbind at 1, M_bind at 1.
    rewrite Hloop.
    unfold mbind, M_bind, modify, gets, id.
    by destruct (Season.get_season_summary (Season.set_season_completed true s1)).
  - cbn [Season.current_matchday Season.set_season_completed].
    rewrite Hcur.
    pose proof (advance_seqZ 38 1 (Season.current_matchday s)) as Hadv.
    change (Z.of_nat 38) with 38%Z in Hadv. rewrite Hadv.
    repeat case_decide; lia.
  - intros E.
    apply (proj1 (get_season_summary_outcome (Season.set_season_completed true s1))).
    cbn [Season.table Season.set_season_completed].
    apply length_zero_iff_nil. rewrite Hlen, E. done.
  - intros E.
    destruct (proj2 (get_season_summary_outcome (Season.set_season_completed true s1)))
      as (summ & Hsumm & Hc & _ & _ & Htot).
    { cbn [Season.table Season.set_season_completed].
      intros E'. apply E, length_zero_iff_nil. rewrite <- Hlen, E'. done. }
    exists summ. split; [done|]. split; [done|].
    rewrite Htot. cbn [Season.table Season.set_season_completed].
    rewrite (sum_constant _ 38).
    + unfold dict_values. by rewrite !length_fmap, Hlen.
    + unfold dict_values. rewrite <- list_fmap_compose. apply Forall_fmap.
      eapply Forall_impl; [exact Hfull|]. by intros [k e] [He _].
Qed.

Lemma process_complete_season_spec_witness :
  let s := Season.init [sample_team_b; sample_team_a] "Serie A" in
  let s' := Season.set_season_completed true (Season.run (seqZ 1 38) s) in
  Season.process_complete_season s = (s', Season.get_season_summary s').
Proof.
  exact (proj1 (process_complete_season_spec
                  (Season.init [sample_team_b; sample_team_a] "Serie A")
                  (proj1 (proj2 (init_lookup_sound _ _))))).
Defined.

(** *** The progression of a team *)

Lemma progression_fold (scores : pydict Z Q) (range : list Z) :
  let r := fold_left (progression_step scores) range ([], 0) in
  progression_of scores range r.1 ∧ r.2 = py_sum (Season.e_score <$> r.1).
Proof.
  cbv zeta. unfold progression_of. induction range as [|m range IH] using rev_ind.
  - cbn. split; [|done]. split; [done|]. split; [constructor|].
    intros i e Hi. by rewrite lookup_nil in Hi.
  - rewrite fold_left_app. cbn [fold_left].
    destruct (fold_left (progression_step scores) range ([], 0)) as [prog cum].
    cbn [fst snd] in IH. destruct IH as ((Hm & Hs & Hc) & Hsum).
    unfold progression_step. rewrite filter_app, filter_cons, filter_nil.
    destruct (dict_get m scores) as [score|] eqn:E.
    + rewrite decide_True by eauto. cbn [fst snd].
      split; [split; [|split]|].
      * by rewrite fmap_app, Hm.
      * apply Forall_app. split; [done|]. by repeat constructor.
      * intros i e Hi. destruct (decide (i < length prog)%nat) as [Hlt|Hge].
        -- rewrite lookup_app_l in Hi by done.
           rewrite take_app_le by lia. by apply Hc.
        -- rewrite lookup_app_r in Hi by lia.
           apply list_lookup_singleton_Some in Hi as [Hi <-].
           rewrite take_ge by (rewrite length_app; cbn; lia).
           cbn [Season.e_cumulative_points]. rewrite fmap_app. cbn [fmap list_fmap].
           by rewrite py_sum_snoc, Hsum.
      * rewrite fmap_app. cbn [fmap list_fmap]. by rewrite py_sum_snoc, Hsum.
    + rewrite decide_False by (by intros [? [=]]). rewrite !app_nil_r. cbn [fst snd].
      by repeat split.
Qed.

Lemma get_team_progression_eq (s : Season.t) (team_name : string) :
  Season.get_team_progression s team_name
  = (λ st,
       let r := fold_left (progression_step (SeasonTable.matchday_scores st))
                          (seqZ 1 38) ([], 0) in
       Season.mk_progression team_name r.1 r.2) <$> dict_get team_name (Season.table s).
Proof.
  unfold Season.get_team_progression.
  destruct (dict_get team_name (Season.table s)) as [st|]; [|done].
  cbn [fmap option_fmap option_map].
  match goal with |- context [fold_left ?f (seqZ 1 38) ([], 0)] =>
    assert (E : ∀ l st0, fold_left f l st0
                = fold_left (progression_step (SeasonTable.matchday_scores st)) l st0)
  end.
  { induction l as [|m l IH]; intros [prog cum]; [done|].
    cbn [fold_left]. rewrite <- IH. unfold progression_step.
    by destruct (dict_get m (SeasonTable.matchday_scores st)). }
  rewrite E.
  by destruct (fold_left (progression_step (SeasonTable.matchday_scores st))
                 (seqZ 1 38) ([], 0)).
Qed.

Lemma seqZ_StronglySorted (k : nat) (a : Z) : StronglySorted Z.lt (seqZ a (Z.of_nat k)).
Proof.
  revert a. induction k as [|k IH]; intros a; [constructor|].
  rewrite seqZ_cons by lia. replace (Z.pred (Z.of_nat (S k))) with (Z.of_nat k) by lia.
  constructor; [apply IH|]. apply Forall_forall. intros m Hm%elem_of_seqZ. lia.
Qed.

Lemma StronglySorted_filter_list {A} (R : A → A → Prop) (P : A → Prop)
    `{∀ x, Decision (P x)} (l : list A) :
  StronglySorted R l → StronglySorted R (filter P l).
Proof.
  induction 1 as [|x l Hl IH Hx]; [constructor|].
  rewrite filter_cons. destruct (decide (P x)); [|done].
  constructor; [done|]. apply Forall_forall. intros y [_ Hy]%list_elem_of_filter.
  rewrite Forall_forall in Hx. by apply Hx.
Qed.

(** X10. [get_team_progression] gives the empty answer for a name without
    table. Otherwise its list has one entry for each matchday of 1..38 with
    a recorded score, in increasing order of matchday, carrying that score
    and the running total rounded to one decimal, and [final_total] is the
    unrounded sum of the listed scores. *)
Theorem get_team_progression_spec (s : Season.t) (team_name : string) :
  match dict_get team_name (Season.table s) with
  | None => Season.get_team_progression s team_name = None
  | Some st =>
      ∃ pr, Season.get_team_progression s team_name = Some pr
            ∧ Season.p_team pr = team_name
            ∧ progression_of (SeasonTable.matchday_scores st) (seqZ 1 38)
                             (Season.p_progression pr)
            ∧ StronglySorted Z.lt (Season.e_matchday <$> Season.p_progression pr)
            ∧ Forall (λ e, (1 ≤ Season.e_matchday e ≤ 38)%Z) (Season.p_progression pr)
            ∧ Season.p_final_total pr
              = py_sum (Season.e_score <$> Season.p_progression pr)
  end.
Proof.
  rewrite get_team_progression_eq.
  destruct (dict_get team_name (Season.table s)) as [st|]; [|done].
  cbn [fmap option_fmap option_map].
  destruct (progression_fold (SeasonTable.matchday_scores st) (seqZ 1 38)) as [Hp Hsum].
  cbv zeta in *. eexists. split; [reflexivity|].
  cbn [Season.p_team Season.p_progression Season.p_final_total].
  split; [done|]. split; [done|]. split; [|split; [|done]].
  - destruct Hp as (-> & _). apply StronglySorted_filter_list.
    apply (seqZ_StronglySorted 38 1).
  - destruct Hp as (Hm & _). apply Forall_forall. intros e He.
    apply (list_elem_of_fmap_2 Season.e_matchday) in He. rewrite Hm in He.
    apply list_elem_of_filter in He as [_ He%elem_of_seqZ]. lia.
Qed.






(** *** The other figures of the summary *)

Lemma played_total (table : pydict string SeasonTable.t) :
  Forall (λ '(k, e), table_sound e ∧ Team.name (SeasonTable.team e) = k) table →
  fold_left Z.add (SeasonTable.matchdays_played <$> dict_values table) 0%Z
  = Z.of_nat (length (concat ((λ st, dict_values (SeasonTable.matchday_scores st))
                                <$> dict_values table))).
Proof.
  intros Hall.
  assert (G : ∀ a, fold_left Z.add (SeasonTable.matchdays_played <$> dict_values table) a
              = (a + Z.of_nat (length (concat
                     ((λ st, dict_values (SeasonTable.matchday_scores st))
                        <$> dict_values table))))%Z).
  { induction Hall as [|[k e] table [(_ & _ & Hplayed & _) _] _ IH]; intros a.
    - cbn. lia.
    - cbn [dict_values fmap list_fmap snd fold_left concat]. unfold dict_values in IH.
      rewrite IH, length_app, Hplayed. unfold dict_keys, dict_values.
      rewrite !length_fmap. lia. }
  rewrite G. lia.
Qed.

Lemma get_season_summary_figures (s : Season.t) (summ : Season.summary) :
  Season.get_season_summary s = Return summ →
  (∃ d, d ∈ Season.get_season_table s
        ∧ Season.most_consistent_team summ = SeasonTable.s_team d
        ∧ ∀ d', d' ∈ Season.get_season_table s →
            SeasonTable.s_best_score d ⊖ SeasonTable.s_worst_score d
            <= SeasonTable.s_best_score d' ⊖ SeasonTable.s_worst_score d')
  ∧ (∃ d, d ∈ Season.get_season_table s
          ∧ Season.highest_score_team summ = SeasonTable.s_team d
          ∧ Season.highest_single_score summ = SeasonTable.s_best_score d)
  ∧ Season.n_teams summ = Z.of_nat (length (Season.teams s))
  ∧ Season.champion_points summ
    = default 0 (SeasonTable.s_total_points <$> head (Season.get_season_table s))
  ∧ (season_sound s →
     Season.total_matchdays_processed summ
     = Z.of_nat (length (concat ((λ st, dict_values (SeasonTable.matchday_scores st))
                                   <$> dict_values (Season.table s)))))
  ∧ (Forall (λ '(k, st), SeasonTable.matchday_scores st = []) (Season.table s) →
     Season.average_score_per_matchday summ = 0).
Proof.
  unfold Season.get_season_summary.
  destruct (Season.get_season_table s) as [|first rest] eqn:Ht; [done|].
  cbn [py_max py_min]. intros [= <-].
  cbn [Season.most_consistent_team Season.highest_score_team Season.highest_single_score
       Season.n_teams Season.champion_points Season.total_matchdays_processed
       Season.average_score_per_matchday].
  split; [|split; [|split; [done|split; [done|split]]]].
  - eexists. split; [apply min_from_elem|]. split; [done|].
    intros d' Hd'.
    apply (min_from_le (λ x, SeasonTable.s_best_score x ⊖ SeasonTable.s_worst_score x)
             first rest d' Hd').
  - eexists. split; [apply max_from_elem|]. done.
  - intros (_ & _ & Hall & _). by apply played_total.
  - intros Hempty.
    assert (E : concat ((λ st, dict_values (SeasonTable.matchday_scores st))
                          <$> dict_values (Season.table s)) = []).
    { induction Hempty as [|[k st] table Hst _ IH]; [done|].
      cbn [dict_values fmap list_fmap snd concat]. rewrite Hst. exact IH. }
    by rewrite E.
Qed.

(** X12. When [get_season_summary] returns, the most consistent team is the
    team of a row whose gap between best and worst score is the smallest of
    the table, the highest score is the best score of the row named as its
    team, the number of teams is that of the list the season was built
    from, and the average is 0 when no score is recorded; on a sound
    season the matchdays processed are the number of scores recorded over
    all tables. *)
Theorem get_season_summary_statistics (s : Season.t) (summ : Season.summary)
    (H : Season.get_season_summary s = Return summ) :
  (∃ d, d ∈ Season.get_season_table s
        ∧ Season.most_consistent_team summ = SeasonTable.s_team d
        ∧ ∀ d', d' ∈ Season.get_season_table s →
            SeasonTable.s_best_score d ⊖ SeasonTable.s_worst_score d
            <= SeasonTable.s_best_score d' ⊖ SeasonTable.s_worst_score d')
  ∧ (∃ d, d ∈ Season.get_season_table s
          ∧ Season.highest_score_team summ = SeasonTable.s_team d
          ∧ Season.highest_single_score summ = SeasonTable.s_best_score d)
  ∧ Season.n_teams summ = Z.of_nat (length (Season.teams s))
  ∧ Season.champion_points summ
    = default 0 (SeasonTable.s_total_points <$> head (Season.get_season_table s))
  ∧ (season_sound s →
     Season.total_matchdays_processed summ
     = Z.of_nat (length (concat ((λ st, dict_values (SeasonTable.matchday_scores st))
                                   <$> dict_values (Season.table s)))))
  ∧ (Forall (λ '(k, st), SeasonTable.matchday_scores st = []) (Season.table s) →
     Season.average_score_per_matchday summ = 0).
Proof. by apply get_season_summary_figures. Qed.

Lemma get_season_summary_statistics_witness :
  ∃ summ d, Season.get_season_summary sample_season = Return summ
            ∧ d ∈ Season.get_season_table sample_season
            ∧ Season.most_consistent_team summ = SeasonTable.s_team d.
Proof.
  destruct (Season.get_season_summary sample_season) as [summ|e] eqn:E;
    [|vm_compute in E; discriminate E].
  destruct (get_season_summary_statistics sample_season summ E) as ((d & Hd & Hm & _) & _).
  exists summ, d. by repeat split.
Defined.

(** ** Loader: reading the files *)

Lemma fold_insert_last {K V A} `{Countable K} (key : A → K) (val : A → V)
    (l : list A) (k : K) :
  fold_left (λ (m : gmap K V) a, <[key a := val a]> m) l ∅ !! k
  = val <$> last (filter (λ a, key a = k) l).
Proof.
  induction l as [|a l IH] using rev_ind; [done|].
  rewrite fold_left_app, filter_app, filter_cons, filter_nil. cbn [fold_left].
  destruct (decide (key a = k)) as [<-|Hne].
  - by rewrite lookup_insert_eq, last_snoc.
  - by rewrite lookup_insert_ne, app_nil_r.
Qed.

Lemma filter_none {A} (P : A → Prop) `{∀ x, Decision (P x)} (l : list A) :
  (∀ x, x ∈ l → ¬ P x) → filter P l = [].
Proof.
  induction l as [|x l IH]; intros Hl; [done|].
  rewrite filter_cons, decide_False by (apply Hl, list_elem_of_here).
  apply IH. intros y Hy. by apply Hl, list_elem_of_further.
Qed.

(** X13. [create_name_to_code_mapping] gives a name the code of the last
    line of the file that bears it, and knows no other name. *)
Theorem create_name_to_code_mapping_last (df : list Loader.csv_row) (name : string) :
  Loader.create_name_to_code_mapping df !! name
  = Loader.c_cod <$> last (filter (λ r, Loader.c_name r = name) df)
  ∧ (Loader.create_name_to_code_mapping df !! name = None
     ↔ name ∉ Loader.c_name <$> df).
Proof.
  assert (E : Loader.create_name_to_code_mapping df !! name
              = Loader.c_cod <$> last (filter (λ r, Loader.c_name r = name) df))
    by apply (fold_insert_last Loader.c_name Loader.c_cod).
  split; [exact E|]. rewrite E, fmap_None, last_None. split.
  - intros Hnil (r & -> & Hr)%list_elem_of_fmap.
    assert (Hin : r ∈ filter (λ r0, Loader.c_name r0 = Loader.c_name r) df)
      by (by apply list_elem_of_filter).
    rewrite Hnil in Hin. by apply elem_of_nil in Hin.
  - intros Hnot. apply filter_none. intros r Hr E'.
    apply Hnot. rewrite <- E'. by apply list_elem_of_fmap_2.
Qed.

Lemma load_player_data_eq (df : list Loader.csv_row) :
  Loader.load_player_data_from_csv df
  = fold_left (λ players_data r, dict_set (Loader.c_cod r) (csv_entry r) players_data) df [].
Proof. reflexivity. Qed.

Lemma load_player_data_lookup (df : list Loader.csv_row) (cod : Z) :
  dict_get cod (Loader.load_player_data_from_csv df)
  = csv_entry <$> last (filter (λ r, Loader.c_cod r = cod) df).
Proof.
  rewrite load_player_data_eq. induction df as [|r df IH] using rev_ind; [done|].
  rewrite fold_left_app, filter_app, filter_cons, filter_nil. cbn [fold_left].
  destruct (decide (Loader.c_cod r = cod)) as [<-|Hne].
  - by rewrite dict_get_set_eq, last_snoc.
  - by rewrite dict_get_set_ne, app_nil_r.
Qed.

Lemma load_player_data_NoDup (df : list Loader.csv_row) :
  NoDup (dict_keys (Loader.load_player_data_from_csv df)).
Proof.
  rewrite load_player_data_eq. induction df as [|r df IH] using rev_ind.
  - apply NoDup_nil_2.
  - rewrite fold_left_app. cbn [fold_left]. by apply dict_set_NoDup.
Qed.

(** X14. [load_player_data_from_csv] keeps one entry per code, that of the
    last line with the code. Read back by [add_matchday_stats], the entry
    gives the rating of the line and each bonus column under the field
    meant for it, an empty cell as 0. *)
Theorem load_player_data_from_csv_entry (df : list Loader.csv_row) (cod : Z) :
  dict_get cod (Loader.load_player_data_from_csv df)
  = csv_entry <$> last (filter (λ r, Loader.c_cod r = cod) df)
  ∧ NoDup (dict_keys (Loader.load_player_data_from_csv df))
  ∧ (cod ∈ dict_keys (Loader.load_player_data_from_csv df) ↔ cod ∈ Loader.c_cod <$> df)
  ∧ ∀ r, snapshot (Loader.r_numeric (csv_entry r))
         = PlayerStats.mk (Loader.c_rating r)
             (default 0 (Loader.c_gf r)) (default 0 (Loader.c_gs r))
             (default 0 (Loader.c_rp r)) (default 0 (Loader.c_rs r))
             (default 0 (Loader.c_rf r)) (default 0 (Loader.c_au r))
             (default 0 (Loader.c_amm r)) (default 0 (Loader.c_esp r))
             (default 0 (Loader.c_ass r)).
Proof.
  split; [apply load_player_data_lookup|]. split; [apply load_player_data_NoDup|]. split.
  - rewrite <- dict_get_is_Some, load_player_data_lookup, fmap_is_Some.
    rewrite <- not_eq_None_Some, last_None. split.
    + intros Hne. destruct (filter (λ r, Loader.c_cod r = cod) df) as [|r l] eqn:E; [done|].
      assert (Hr : r ∈ filter (λ r, Loader.c_cod r = cod) df)
        by (rewrite E; apply list_elem_of_here).
      apply list_elem_of_filter in Hr as [<- Hr]. by apply list_elem_of_fmap_2.
    + intros (r & -> & Hr)%list_elem_of_fmap Hnil.
      assert (Hin : r ∈ filter (λ r0, Loader.c_cod r0 = Loader.c_cod r) df)
        by (by apply list_elem_of_filter).
      rewrite Hnil in Hin. by apply elem_of_nil in Hin.
  - intros r. reflexivity.
Qed.

(** ** Loader: populating the rosters *)

Lemma with_players_nil (players_data : gmap Z Loader.row) (team : Team.t) :
  with_players players_data team [] = team.
Proof. unfold with_players. cbn. rewrite app_nil_r. by destruct team. Qed.

Lemma populate_player_good (players_data : gmap Z Loader.row) (cod : Z) (team : Team.t) :
  ¬ bad_code players_data cod →
  Loader.populate_player players_data cod team
  = (Team.mk (Team.name team) (Team.player_codes team)
       (Team.players team ++ option_list (new_player players_data cod)),
     Return tt).
Proof.
  intros Hok. unfold Loader.populate_player, new_player.
  destruct (players_data !! cod) as [data|] eqn:Hdata.
  - destruct (decide (accepted_role (Loader.r_role data))) as [Hacc|Hbad].
    + unfold Player.init.
      destruct (proj1 (mapped_role_of_value _) Hacc) as [role ->]. reflexivity.
    + destruct Hok. exists data. by split.
  - cbn. rewrite app_nil_r. by destruct team.
Qed.

Lemma populate_codes_good (players_data : gmap Z Loader.row) (codes : list Z)
    (team : Team.t) :
  Forall (λ cod, ¬ bad_code players_data cod) codes →
  for_each codes tt (λ cod _, Loader.populate_player players_data cod) team
  = (with_players players_data team codes, Return tt).
Proof.
  revert team. induction codes as [|cod codes IH]; intros team Hcodes.
  - cbn. by rewrite with_players_nil.
  - apply Forall_cons in Hcodes as [Hcod Hcodes].
    cbn [for_each]. unfold mbind, M_bind.
    rewrite (populate_player_good _ _ _ Hcod), (IH _ Hcodes).
    unfold with_players. cbn [Team.name Team.player_codes Team.players omap list_omap].
    f_equal. f_equal. rewrite <- app_assoc. f_equal.
    by destruct (new_player players_data cod).
Qed.

Lemma populate_codes_bad (players_data : gmap Z Loader.row) (good rest : list Z) (bad : Z)
    (team : Team.t) :
  Forall (λ cod, ¬ bad_code players_data cod) good → bad_code players_data bad →
  ∃ msg,
    for_each (good ++ bad :: rest) tt (λ cod _, Loader.populate_player players_data cod) team
    = (with_players players_data team good, Raise (ValueError msg)).
Proof.
  revert team. induction good as [|cod good IH]; intros team Hgood Hbad.
  - cbn [app for_each]. unfold mbind, M_bind.
    destruct (proj1 (populate_player_outcome players_data bad team) Hbad) as [msg ->].
    exists msg. by rewrite with_players_nil.
  - apply Forall_cons in Hgood as [Hcod Hgood].
    cbn [app for_each]. unfold mbind, M_bind.
    rewrite (populate_player_good _ _ _ Hcod).
    destruct (IH (Team.mk (Team.name team) (Team.player_codes team)
                    (Team.players team ++ option_list (new_player players_data cod)))
                Hgood Hbad) as [msg ->].
    exists msg. unfold with_players.
    cbn [Team.name Team.player_codes Team.players omap list_omap].
    f_equal. f_equal. rewrite <- app_assoc. f_equal.
    by destruct (new_player players_data cod).
Qed.

Lemma populate_teams_good (players_data : gmap Z Loader.row) (teams : list Team.t) :
  Forall (λ team, Forall (λ cod, ¬ bad_code players_data cod) (Team.player_codes team))
         teams →
  Loader.populate_teams_with_players players_data teams
  = ((λ team, with_players players_data team (Team.player_codes team)) <$> teams,
     Return tt).
Proof.
  induction 1 as [|team teams Hteam _ IH]; [done|].
  cbn [Loader.populate_teams_with_players fmap list_fmap].
  unfold Loader.populate_team at 1, mbind, M_bind, gets.
  rewrite (populate_codes_good _ _ _ Hteam), IH. reflexivity.
Qed.

(** X15. When no rostered code is bad, population adds to each team, after
    the players it has, one new player per code found in the data, in the
    order of the roster, each with the mapped role and no stats; a code
    that is not in the data is passed over. When a code is bad, the team it
    is met in keeps the players added for the codes before it, and the
    error leaves from there. *)
Theorem populate_teams_with_players_result (players_data : gmap Z Loader.row) :
  (∀ teams,
     Forall (λ team, Forall (λ cod, ¬ bad_code players_data cod) (Team.player_codes team))
            teams →
     Loader.populate_teams_with_players players_data teams
     = ((λ team, with_players players_data team (Team.player_codes team)) <$> teams,
        Return tt))
  ∧ (∀ team good bad rest,
       Team.player_codes team = good ++ bad :: rest →
       Forall (λ cod, ¬ bad_code players_data cod) good → bad_code players_data bad →
       ∃ msg, Loader.populate_team players_data team
              = (with_players players_data team good, Raise (ValueError msg)))
  ∧ (∀ cod player, new_player players_data cod = Some player →
       Player.cod player = cod
       ∧ Player.matchday_stats player = ∅ ∧ Player.matchday_fantavoto player = ∅
       ∧ ∃ data, players_data !! cod = Some data
                 ∧ Player.name player = Loader.r_name data
                 ∧ Player.real_team player = Loader.r_team data
                 ∧ Role.of_value (default (Loader.r_role data)
                                    (Loader.role_mapping !! Loader.r_role data))
                   = Return (Player.role player)).
Proof.
  split; [apply populate_teams_good|]. split.
  - intros team good bad rest Hcodes Hgood Hbad.
    unfold Loader.populate_team, mbind, M_bind, gets. rewrite Hcodes.
    by apply populate_codes_bad.
  - intros cod player. unfold new_player, Player.init.
    destruct (players_data !! cod) as [data|]; [|done].
    destruct (Role.of_value _) as [role|e] eqn:E; [|done].
    intros [= <-]. cbn. repeat split; eauto.
Qed.

(** ** Loader: loading the matchdays *)

Lemma fold_left_bind {A B C} (f : C → B → C) (g : A → list B) (l : list A) (c : C) :
  fold_left f (l ≫= g) c = fold_left (λ c x, fold_left f (g x) c) l c.
Proof.
  revert c. induction l as [|x l IH]; intros c; [done|].
  rewrite bind_cons, fold_left_app. cbn [fold_left]. apply IH.
Qed.

Lemma fold_left_fmap {A B C} (f : C → B → C) (g : A → B) (l : list A) (c : C) :
  fold_left f (g <$> l) c = fold_left (λ c x, f c (g x)) l c.
Proof. revert c. induction l as [|x l IH]; intros c; [done|]. cbn. apply IH. Qed.

Lemma fold_left_ext {A C} (f g : C → A → C) (l : list A) (c : C) :
  (∀ c x, f c x = g c x) → fold_left f l c = fold_left g l c.
Proof.
  intros E. revert c. induction l as [|x l IH]; intros c; [done|]. cbn. by rewrite E, IH.
Qed.

Lemma build_all_players_eq (teams : list Team.t) :
  Loader.build_all_players teams
  = fold_left (λ (m : gmap Z (nat * nat)) a, <[Player.cod a.2 := a.1]> m) (places teams) ∅.
Proof.
  unfold Loader.build_all_players, places. rewrite fold_left_bind.
  apply fold_left_ext. intros m [i team]. rewrite fold_left_fmap.
  apply fold_left_ext. by intros m' [j p].
Qed.

Lemma elem_of_places (teams : list Team.t) (loc : nat * nat) (p : Player.t) :
  (loc, p) ∈ places teams ↔ lookup_player teams loc = Some p.
Proof.
  unfold places, lookup_player. destruct loc as [i j]. cbn [fst snd].
  rewrite list_elem_of_bind. split.
  - intros ([i' team] & Hin & Hteam). apply list_elem_of_fmap in Hin as ([j' p'] & E & Hp).
    injection E as -> -> ->.
    apply elem_of_lookup_imap in Hteam as (i0 & t0 & [= -> ->] & Hi).
    apply elem_of_lookup_imap in Hp as (j0 & p0 & [= -> ->] & Hj).
    by rewrite Hi.
  - intros Hl. destruct (teams !! i) as [team|] eqn:Hi; [|done]. cbn in Hl.
    exists (i, team). split.
    + apply list_elem_of_fmap. exists (j, p). split; [done|].
      by apply (elem_of_lookup_imap_2 pair).
    + by apply (elem_of_lookup_imap_2 pair).
Qed.

Lemma build_all_players_lookup (teams : list Team.t) (cod : Z) (loc : nat * nat) :
  Loader.build_all_players teams !! cod = Some loc →
  ∃ p, lookup_player teams loc = Some p ∧ Player.cod p = cod.
Proof.
  rewrite build_all_players_eq.
  rewrite (fold_insert_last (λ a : nat * nat * Player.t, Player.cod a.2) fst).
  intros ([loc' p] & Hlast & ->)%fmap_Some.
  apply last_Some_elem_of, list_elem_of_filter in Hlast as [Hcod Hin].
  exists p. split; [by apply elem_of_places | done].
Qed.

Lemma lookup_update_player (loc loc' : nat * nat) (f : Player.t → Player.t)
    (teams : list Team.t) :
  lookup_player (Loader.update_player loc f teams) loc'
  = if decide (loc' = loc) then f <$> lookup_player teams loc
    else lookup_player teams loc'.
Proof.
  unfold lookup_player, Loader.update_player. destruct loc as [i j], loc' as [i' j'].
  cbn [fst snd]. rewrite list_lookup_alter.
  destruct (decide (i = i')) as [<-|Hi].
  - destruct (teams !! i) as [team|]; cbn.
    + rewrite list_lookup_alter. destruct (decide (j = j')) as [<-|Hj].
      * by rewrite decide_True.
      * by rewrite decide_False by congruence.
    + by destruct (decide ((i, j') = (i, j))).
  - by rewrite decide_False by congruence.
Qed.

Lemma same_rosters_refl (teams : list Team.t) : same_rosters teams teams.
Proof.
  apply Forall_Forall2_diag, Forall_forall. intros t _. repeat split.
  apply Forall_Forall2_diag, Forall_forall. by intros p _.
Qed.

Lemma same_rosters_update (teams teams' : list Team.t) (loc : nat * nat)
    (f : Player.t → Player.t) :
  (∀ p, Player.cod (f p) = Player.cod p ∧ Player.role (f p) = Player.role p
        ∧ Player.name (f p) = Player.name p ∧ Player.real_team (f p) = Player.real_team p) →
  same_rosters teams teams' → same_rosters teams (Loader.update_player loc f teams').
Proof.
  intros Hf Hsame. unfold Loader.update_player.
  apply Forall2_alter_r; [done|]. intros t t' _ _ (Hn & Hc & Hp). cbn.
  split; [done|]. split; [done|].
  apply Forall2_alter_r; [done|]. intros p p' _ _ (H1 & H2 & H3 & H4).
  destruct (Hf p') as (F1 & F2 & F3 & F4). repeat split; congruence.
Qed.

Lemma load_all_matchday_stats_eq (teams : list Team.t)
    (csv_files : list (Z * pydict Z Loader.row)) :
  csv_files ≠ [] →
  Loader.load_all_matchday_stats teams csv_files
  = Some (fold_left (load_row (Loader.build_all_players teams))
                    (matchday_rows csv_files) teams).
Proof.
  intros Hne. unfold Loader.load_all_matchday_stats, matchday_rows.
  rewrite bool_decide_eq_false_2 by done. cbv zeta. f_equal.
  rewrite fold_left_bind. apply fold_left_ext. intros ts [n data].
  case_bool_decide; [done|]. rewrite fold_left_fmap.
  apply fold_left_ext. by intros ts' [cod row].
Qed.

Lemma load_player_snoc (p : Player.t) (files : list (Z * gmap string Q)) (n : Z)
    (d : gmap string Q) :
  load_player p (files ++ [(n, d)]) = Loader.load_player_matchday (load_player p files) n d.
Proof. unfold load_player. by rewrite fold_left_app. Qed.

Lemma load_rows_player (teams : list Team.t) (rows : list (Z * Z * gmap string Q))
    (loc : nat * nat) :
  lookup_player (fold_left (load_row (Loader.build_all_players teams)) rows teams) loc
  = (λ p, if decide (designated teams loc p)
          then load_player p
                 (omap (λ '(n, c, d), if decide (c = Player.cod p) then Some (n, d) else None)
                       rows)
          else p) <$> lookup_player teams loc.
Proof.
  induction rows as [|[[n c] d] rows IH] using rev_ind.
  - cbn [fold_left omap list_omap].
    destruct (lookup_player teams loc) as [p|]; [|done]. cbn.
    by destruct (decide (designated teams loc p)).
  - rewrite fold_left_app. cbn [fold_left]. unfold load_row at 1.
    assert (∀ p, lookup_player teams loc = Some p → c ≠ Player.cod p ∨ ¬ designated teams loc p →
              (if decide (designated teams loc p)
               then load_player p
                      (omap (λ '(n, c, d),
                               if decide (c = Player.cod p) then Some (n, d) else None)
                            (rows ++ [(n, c, d)]))
               else p)
              = (if decide (designated teams loc p)
                 then load_player p
                        (omap (λ '(n, c, d),
                                 if decide (c = Player.cod p) then Some (n, d) else None)
                              rows)
                 else p)) as Hskip.
    { intros p Hp Hor. destruct (decide (designated teams loc p)) as [Hd|]; [|done].
      destruct Hor as [Hc|]; [|done].
      rewrite omap_app. cbn [omap list_omap].
      rewrite (decide_False (P := c = Player.cod p)) by done. by rewrite app_nil_r. }
    destruct (Loader.build_all_players teams !! c) as [loc'|] eqn:Hc.
    + rewrite lookup_update_player. destruct (decide (loc = loc')) as [<-|Hne].
      * rewrite IH.
        destruct (build_all_players_lookup teams c loc Hc) as (p & Hp & Hcod).
        rewrite Hp. cbn [fmap option_fmap option_map]. f_equal.
        assert (designated teams loc p) as Hd by (unfold designated; congruence).
        destruct (decide (designated teams loc p)); [|done].
        rewrite omap_app. cbn [omap list_omap].
        rewrite (decide_True (P := c = Player.cod p)) by congruence.
        by rewrite load_player_snoc.
      * rewrite IH. destruct (lookup_player teams loc) as [p|] eqn:Hp; [|done].
        cbn [fmap option_fmap option_map]. f_equal. symmetry. apply Hskip; [done|].
        destruct (decide (c = Player.cod p)) as [->|]; [right|by left].
        unfold designated. congruence.
    + rewrite IH. destruct (lookup_player teams loc) as [p|] eqn:Hp; [|done].
      cbn [fmap option_fmap option_map]. f_equal. symmetry. apply Hskip; [done|].
      destruct (decide (c = Player.cod p)) as [->|]; [right|by left].
      unfold designated. congruence.
Qed.

Lemma load_rows_rosters (teams : list Team.t) (all_players : gmap Z (nat * nat))
    (rows : list (Z * Z * gmap string Q)) :
  same_rosters teams (fold_left (load_row all_players) rows teams).
Proof.
  induction rows as [|[[n c] d] rows IH] using rev_ind; [apply same_rosters_refl|].
  rewrite fold_left_app. cbn [fold_left]. unfold load_row at 1.
  destruct (all_players !! c); [|done].
  by apply same_rosters_update.
Qed.

Lemma load_all_matchday_stats_outcome (teams : list Team.t)
    (csv_files : list (Z * pydict Z Loader.row)) :
  csv_files ≠ [] →
  ∃ teams',
    Loader.load_all_matchday_stats teams csv_files = Some teams'
    ∧ same_rosters teams teams'
    ∧ ∀ loc,
        lookup_player teams' loc
        = (λ p, if decide (designated teams loc p)
                then load_player p (player_rows csv_files (Player.cod p))
                else p) <$> lookup_player teams loc.
Proof.
  intros Hne. eexists. split; [by apply load_all_matchday_stats_eq|].
  split; [apply load_rows_rosters|]. intros loc. apply load_rows_player.
Qed.

(** X16. [load_all_matchday_stats] on a directory with at least one
    matchday file returns the same teams with the same rosters (names,
    codes, and the code, role, name and real team of every player, in
    order). The player that [all_players] keeps for its code has gone
    through [add_matchday_stats] and [add_matchday_fantavoto] for every
    row of its code, files taken by ascending matchday number (files
    numbered 0 skipped) and rows in file order; every other player is
    unchanged. *)
Theorem load_all_matchday_stats_players (teams : list Team.t)
    (csv_files : list (Z * pydict Z Loader.row)) :
  csv_files ≠ [] →
  ∃ teams',
    Loader.load_all_matchday_stats teams csv_files = Some teams'
    ∧ same_rosters teams teams'
    ∧ ∀ loc,
        lookup_player teams' loc
        = (λ p, if decide (designated teams loc p)
                then load_player p (player_rows csv_files (Player.cod p))
                else p) <$> lookup_player teams loc.
Proof. apply load_all_matchday_stats_outcome. Qed.

Lemma load_all_matchday_stats_players_witness :
  ∃ teams',
    Loader.load_all_matchday_stats sample_rosters sample_files = Some teams'
    ∧ same_rosters sample_rosters teams'.
Proof.
  destruct (load_all_matchday_stats_players sample_rosters sample_files)
    as (teams' & E & Hsame & _); [done|].
  by exists teams'.
Defined.

(** X17. [all_players] maps a code to the last player that has it, teams
    taken in order and players in roster order: a player whose code
    appears again later is not the one the matchdays are loaded into. *)
Theorem build_all_players_last (teams : list Team.t) (cod : Z) :
  Loader.build_all_players teams !! cod
  = fst <$> last (filter (λ a, Player.cod a.2 = cod) (places teams)).
Proof.
  rewrite build_all_players_eq.
  apply (fold_insert_last (λ a : nat * nat * Player.t, Player.cod a.2) fst).
Qed.

Lemma fresh_consistent (p : Player.t) :
  Player.matchday_stats p = ∅ → Player.matchday_fantavoto p = ∅ → cache_consistent p.
Proof.
  intros Hs Hf m. rewrite Hs, Hf, !lookup_empty.
  split; [split; intros [? [=]]|]. intros v [=].
Qed.

(** X18. If the cache of every player agrees with its stats before
    [load_all_matchday_stats], it does so for every player after it. *)
Theorem load_all_matchday_stats_consistent (teams : list Team.t)
    (csv_files : list (Z * pydict Z Loader.row)) :
  csv_files ≠ [] →
  (∀ loc p, lookup_player teams loc = Some p → cache_consistent p) →
  ∃ teams',
    Loader.load_all_matchday_stats teams csv_files = Some teams'
    ∧ ∀ loc p, lookup_player teams' loc = Some p → cache_consistent p.
Proof.
  intros Hne Hall.
  destruct (load_all_matchday_stats_outcome teams csv_files Hne) as (teams' & E & _ & Hl).
  exists teams'. split; [done|]. intros loc p'. rewrite Hl.
  intros (p & Hp & ->)%fmap_Some.
  destruct (decide (designated teams loc p)); [|by eapply Hall].
  eapply load_player_consistent, Hall, Hp.
Qed.

Lemma load_all_matchday_stats_consistent_witness :
  ∃ teams',
    Loader.load_all_matchday_stats sample_rosters sample_files = Some teams'
    ∧ ∀ loc p, lookup_player teams' loc = Some p → cache_consistent p.
Proof.
  apply (load_all_matchday_stats_consistent sample_rosters sample_files); [done|].
  intros [i j] p Hp.
  destruct i as [|[|i]]; [destruct j as [|j] | destruct j as [|[|j]] |];
    cbn in Hp; try discriminate; injection Hp as <-; by apply fresh_consistent.
Defined.

(** ** Extraction of the player rows *)

Ltac split_andb :=
  repeat match goal with
         | H : _ && _ = true |- _ => apply andb_prop in H as [? ?]
         | H : negb _ = true |- _ => apply negb_true_iff in H
         | H : bool_decide _ = true |- _ => apply bool_decide_eq_true in H
         end.

Lemma is_blank_facts (c : cell) :
  is_blank c = true → truthy c = false ∧ is_number c = false ∧ has_keyword c = false.
Proof.
  destruct c as [|s| | |]; cbn; try done.
  intros ->%bool_decide_eq_true. by rewrite bool_decide_eq_true_2.
Qed.

Lemma has_keyword_facts (c : cell) :
  has_keyword c = true → is_number c = false ∧ is_blank c = false ∧ truthy c = true.
Proof.
  destruct c as [|s| | |]; cbn; try done. intros Hk.
  assert (s ≠ "") by (by intros ->).
  by rewrite bool_decide_eq_false_2.
Qed.

Lemma header_or_footer_eq (row_data : list cell) :
  Matchdayprocessor._is_header_or_footer_row row_data
  = bool_decide (1 ≤ length row_data) && truthy (cell_at row_data 0)
    && has_keyword (cell_at row_data 0).
Proof.
  destruct row_data as [|c row_data]; [done|].
  unfold Matchdayprocessor._is_header_or_footer_row, cell_at. cbn.
  rewrite bool_decide_eq_true_2 by lia. by destruct (truthy c).
Qed.

Lemma ignored_not_team (row_data : list cell) :
  ignored_row row_data = true → Matchdayprocessor._is_team_name_row row_data = false.
Proof.
  unfold ignored_row. intros H. apply not_true_is_false. intros Ht.
  unfold Matchdayprocessor._is_team_name_row in Ht. split_andb.
  apply orb_prop in H as [[Hb|Hh]%orb_prop|Hc].
  - destruct row_data as [|c row_data]; [cbn in *; lia|].
    cbn in Hb. split_andb. destruct (is_blank_facts c) as (? & _); [done|].
    unfold cell_at in *. cbn in *. congruence.
  - congruence.
  - unfold Matchdayprocessor._is_column_header_row in Hc. split_andb.
    destruct row_data as [|c0 [|c1 row_data]]; [cbn in *; lia..|].
    unfold cell_at in *. cbn in *. split_andb.
    destruct c1 as [|s| | |]; cbn in *; try done.
    split_andb. by subst.
Qed.

Lemma ignored_not_player (row_data : list cell) :
  ignored_row row_data = true → Matchdayprocessor._is_player_data_row row_data = false.
Proof.
  unfold ignored_row. intros H. apply not_true_is_false. intros Hp.
  unfold Matchdayprocessor._is_player_data_row in Hp. split_andb.
  destruct row_data as [|c row_data]; [cbn in *; lia|].
  assert (Hc0 : cell_at (c :: row_data) 0 = c) by done. rewrite Hc0 in *.
  apply orb_prop in H as [[Hb|Hh]%orb_prop|Hc].
  - cbn in Hb. split_andb. destruct (is_blank_facts c) as (_ & ? & _); [done|]. congruence.
  - rewrite header_or_footer_eq, Hc0 in Hh. split_andb.
    destruct (has_keyword_facts c) as (? & _); [done|]. congruence.
  - unfold Matchdayprocessor._is_column_header_row in Hc. rewrite Hc0 in Hc. split_andb.
    by destruct c.
Qed.

Lemma team_not_ignored (row_data : list cell) :
  Matchdayprocessor._is_team_name_row row_data = true → ignored_row row_data = false.
Proof.
  intros Ht. destruct (ignored_row row_data) eqn:E; [|done].
  apply ignored_not_team in E. congruence.
Qed.

Lemma yields_not_ignored (row_data : list cell) :
  yields_record row_data = true → ignored_row row_data = false.
Proof.
  unfold yields_record. intros [Hp _]%andb_prop.
  destruct (ignored_row row_data) eqn:E; [|done].
  apply ignored_not_player in E. congruence.
Qed.

(** One turn of the loop in closed form. *)
Lemma extract_row_eq (players_data : list player_record) (current_team : cell)
    (row_data : list cell) :
  Matchdayprocessor.extract_row (players_data, current_team) row_data
  = (players_data ++ (if yields_record row_data then [record_of row_data current_team]
                      else []),
     if Matchdayprocessor._is_team_name_row row_data then cell_at row_data 0
     else current_team).
Proof.
  unfold Matchdayprocessor.extract_row, Matchdayprocessor._create_player_record, yields_record.
  fold (record_of row_data current_team).
  destruct (ignored_row row_data) eqn:Hi.
  - rewrite (ignored_not_team _ Hi), (ignored_not_player _ Hi). cbn [andb].
    rewrite app_nil_r. unfold ignored_row in Hi.
    destruct (forallb is_blank row_data); [done|].
    destruct (Matchdayprocessor._is_header_or_footer_row row_data); [done|].
    cbn in Hi. by rewrite Hi.
  - unfold ignored_row in Hi. apply orb_false_elim in Hi as [[-> ->]%orb_false_elim ->].
    destruct (Matchdayprocessor._is_team_name_row row_data).
    + by rewrite andb_false_r, app_nil_r.
    + rewrite andb_true_r.
      destruct (Matchdayprocessor._is_player_data_row row_data); [done|].
      by rewrite app_nil_r.
Qed.

Lemma team_above_snoc (above : list (list cell)) (row_data : list cell) :
  team_above (above ++ [row_data])
  = if Matchdayprocessor._is_team_name_row row_data then cell_at row_data 0
    else team_above above.
Proof.
  unfold team_above. rewrite filter_app, filter_cons, filter_nil.
  destruct (Matchdayprocessor._is_team_name_row row_data) eqn:E.
  - rewrite decide_True by done. by rewrite last_snoc.
  - rewrite decide_False by done. by rewrite app_nil_r.
Qed.

Lemma extract_fold (df : list (list cell)) :
  fold_left Matchdayprocessor.extract_row df ([], CNone)
  = (Matchdayprocessor._extract_player_data df, team_above df).
Proof.
  unfold Matchdayprocessor._extract_player_data.
  induction df as [|row_data df IH] using rev_ind; [done|].
  rewrite fold_left_app. cbn [fold_left]. rewrite IH at 1 2.
  cbn [fst]. rewrite extract_row_eq. cbn [fst]. by rewrite team_above_snoc.
Qed.

Lemma extract_snoc (df : list (list cell)) (row_data : list cell) :
  Matchdayprocessor._extract_player_data (df ++ [row_data])
  = Matchdayprocessor._extract_player_data df
    ++ (if yields_record row_data then [record_of row_data (team_above df)] else []).
Proof.
  unfold Matchdayprocessor._extract_player_data at 1.
  rewrite fold_left_app. cbn [fold_left]. by rewrite extract_fold, extract_row_eq.
Qed.

(** X19. [_extract_player_data] gives no record for an empty sheet, and a
    further row adds a record exactly when it passes the player test and is
    not a team-name row; the record goes under the first cell of the last
    team-name row above it, under [None] when there is none, with the code
    cut to an integer and the cells 1 to 12 as they are. *)
Theorem extract_player_data_rows (df : list (list cell)) (row_data : list cell) :
  Matchdayprocessor._extract_player_data [] = []
  ∧ Matchdayprocessor._extract_player_data (df ++ [row_data])
    = Matchdayprocessor._extract_player_data df
      ++ (if yields_record row_data then [record_of row_data (team_above df)] else []).
Proof. split; [done | apply extract_snoc]. Qed.

Lemma extract_elem (df : list (list cell)) (r : player_record) :
  r ∈ Matchdayprocessor._extract_player_data df
  ↔ ∃ above row_data below,
      df = above ++ row_data :: below ∧ yields_record row_data = true
      ∧ r = record_of row_data (team_above above).
Proof.
  induction df as [|row0 df IH] using rev_ind.
  - split; [by intros ?%elem_of_nil|].
    intros (above & row_data & below & E & _). by destruct above.
  - rewrite extract_snoc, elem_of_app, IH. split.
    + intros [(above & row_data & below & -> & Hy & ->) | Hr].
      * exists above, row_data, (below ++ [row0]). by rewrite <- app_assoc.
      * destruct (yields_record row0) eqn:Hy; [|by apply elem_of_nil in Hr].
        apply list_elem_of_singleton in Hr as ->.
        exists df, row0, []. done.
    + intros (above & row_data & below & E & Hy & ->).
      destruct below as [|b below _] using rev_ind.
      * apply app_inj_tail in E as [-> ->]. right. rewrite Hy. apply list_elem_of_here.
      * rewrite app_comm_cons, app_assoc in E. apply app_inj_tail in E as [-> ->].
        left. by exists above, row_data, below.
Qed.

Lemma team_above_cases (above : list (list cell)) :
  team_above above = CNone
  ∨ ∃ row_data, row_data ∈ above ∧ Matchdayprocessor._is_team_name_row row_data = true
                ∧ team_above above = cell_at row_data 0.
Proof.
  unfold team_above.
  destruct (last (filter (λ row_data, Matchdayprocessor._is_team_name_row row_data = true)
                         above)) as [row_data|] eqn:E; [|by left].
  right. apply last_Some_elem_of, list_elem_of_filter in E as [Ht Hin].
  by exists row_data.
Qed.

Lemma extract_records (df : list (list cell)) (r : player_record) :
  r ∈ Matchdayprocessor._extract_player_data df →
  is_str (x_Role r) = true ∧ x_Role r ≠ CStr "ALL" ∧ is_str (x_Name r) = true
  ∧ (x_Team r = CNone ∨ truthy (x_Team r) = true ∧ has_keyword (x_Team r) = false)
  ∧ ∃ row_data, row_data ∈ df ∧ is_number (cell_at row_data 0) = true
                ∧ x_Cod r = to_int (cell_at row_data 0)
                ∧ (4 ≤ length row_data)%nat.
Proof.
  intros (above & row_data & below & -> & Hy & ->)%extract_elem.
  unfold yields_record, Matchdayprocessor._is_player_data_row in Hy. split_andb.
  cbn [record_of x_Role x_Name x_Team x_Cod].
  split; [done|]. split.
  { intros E. rewrite E in *. done. }
  split; [done|]. split.
  - destruct (team_above_cases above) as [->|(t & _ & Ht & ->)]; [by left|right].
    unfold Matchdayprocessor._is_team_name_row in Ht. split_andb.
    split; [done|]. rewrite header_or_footer_eq in *.
    rewrite bool_decide_eq_true_2 in * by done.
    by destruct (truthy (cell_at t 0)); cbn in *.
  - exists row_data. split; [|done]. apply elem_of_app. right. apply list_elem_of_here.
Qed.

(** X20. Every record [_extract_player_data] gives has a text role other
    than ALL (the coaches) and a text name; its team is [None] or a cell
    that is neither empty nor a header or footer line of the site; its code
    is the integer part of the numeric first cell of a row of the sheet
    with four cells at least. *)
Theorem extract_player_data_records (df : list (list cell)) (r : player_record) :
  r ∈ Matchdayprocessor._extract_player_data df →
  is_str (x_Role r) = true ∧ x_Role r ≠ CStr "ALL" ∧ is_str (x_Name r) = true
  ∧ (x_Team r = CNone ∨ truthy (x_Team r) = true ∧ has_keyword (x_Team r) = false)
  ∧ ∃ row_data, row_data ∈ df ∧ is_number (cell_at row_data 0) = true
                ∧ x_Cod r = to_int (cell_at row_data 0)
                ∧ (4 ≤ length row_data)%nat.
Proof. apply extract_records. Qed.

Lemma extract_player_data_records_witness :
  let r := record_of [CInt 12; CStr "A"; CStr "Rossi"; CFloat 6.5] (CStr "Team A") in
  is_str (x_Role r) = true ∧ x_Role r ≠ CStr "ALL" ∧ is_str (x_Name r) = true
  ∧ (x_Team r = CNone ∨ truthy (x_Team r) = true ∧ has_keyword (x_Team r) = false)
  ∧ ∃ row_data,
      row_data ∈ [[CStr "Team A"]; [CInt 12; CStr "A"; CStr "Rossi"; CFloat 6.5]]
      ∧ is_number (cell_at row_data 0) = true
      ∧ x_Cod r = to_int (cell_at row_data 0)
      ∧ (4 ≤ length row_data)%nat.
Proof.
  apply (extract_player_data_records
           [[CStr "Team A"]; [CInt 12; CStr "A"; CStr "Rossi"; CFloat 6.5]]).
  vm_compute. apply list_elem_of_here.
Defined.

Lemma extract_row_ignored (st : list player_record * cell) (row_data : list cell) :
  ignored_row row_data = true → Matchdayprocessor.extract_row st row_data = st.
Proof.
  intros Hi. destruct st as [players_data current_team]. rewrite extract_row_eq.
  unfold yields_record. rewrite (ignored_not_team _ Hi), (ignored_not_player _ Hi).
  cbn [andb]. by rewrite app_nil_r.
Qed.

(** X21. A blank row, a header or footer line of the site and the line of
    column names change nothing: the sheet without such a row gives the
    same records, under the same teams. *)
Theorem extract_player_data_ignores (above below : list (list cell))
    (row_data : list cell) :
  ignored_row row_data = true →
  Matchdayprocessor._extract_player_data (above ++ row_data :: below)
  = Matchdayprocessor._extract_player_data (above ++ below).
Proof.
  intros Hi. unfold Matchdayprocessor._extract_player_data.
  rewrite !fold_left_app. cbn [fold_left]. by rewrite extract_row_ignored.
Qed.

Lemma extract_player_data_ignores_witness :
  Matchdayprocessor._extract_player_data
    ([[CStr "Team A"]]
       ++ [CStr "Cod."; CStr "Ruolo"; CStr "Nome"; CStr "Voto"]
       :: [[CInt 12; CStr "A"; CStr "Rossi"; CFloat 6.5]])
  = Matchdayprocessor._extract_player_data
      ([[CStr "Team A"]] ++ [[CInt 12; CStr "A"; CStr "Rossi"; CFloat 6.5]]).
Proof. apply extract_player_data_ignores. reflexivity. Defined.

Lemma dataprocessor_extract_row (st : list player_record * cell) (row_data : list cell) :
  Dataprocessor.extract_row st row_data = Matchdayprocessor.extract_row st row_data.
Proof.
  destruct st as [players_data current_team].
  unfold Dataprocessor.extract_row, Matchdayprocessor.extract_row,
    Matchdayprocessor._is_team_name_row, Matchdayprocessor._create_player_record.
  rewrite !header_or_footer_eq.
  fold (Matchdayprocessor._is_column_header_row row_data).
  fold (Matchdayprocessor._is_player_data_row row_data).
  destruct (forallb is_blank row_data); [done|].
  destruct (bool_decide (1 ≤ length row_data)), (truthy (cell_at row_data 0)),
    (has_keyword (cell_at row_data 0)); cbn [andb negb]; try done;
    rewrite ?andb_true_r, ?andb_false_r; done.
Qed.

(** X22. The extraction loop written out in [excel_to_csv_players_only]
    and the one of [MatchdayProcessor._extract_player_data] give the same
    records for every sheet. *)
Theorem extract_players_agree (df : list (list cell)) :
  Dataprocessor.extract_players df = Matchdayprocessor._extract_player_data df.
Proof.
  unfold Dataprocessor.extract_players, Matchdayprocessor._extract_player_data.
  f_equal. apply fold_left_ext. apply dataprocessor_extract_row.
Qed.

(** ** Standardisation, run again *)

Lemma stable_sort_sorted {A} (le : A → A → bool) (l : list A) :
  Sorted (λ u v, le u v = true) l → stable_sort le l = l.
Proof.
  induction 1 as [|x l Hl IH Hx]; [done|].
  change (stable_sort le (x :: l)) with (insert_sorted le x (stable_sort le l)).
  rewrite IH. destruct Hx as [|y l' Hxy]; cbn; [done|]. by rewrite Hxy.
Qed.

Lemma standardize_file_fixed (all_players : pydict Standardizer.key Standardizer.key)
    (df : list Standardizer.record) :
  (∀ k, k ∈ dict_keys all_players → k ∈ file_keys df) →
  StronglySorted record_le df →
  Standardizer.standardize_file all_players df = df.
Proof.
  intros Hkeys Hsorted. unfold Standardizer.standardize_file.
  set (existing_players := list_to_set (Standardizer.player_key <$> df) : gset Standardizer.key).
  match goal with |- context [@omap list _ _ _ ?f ?l] =>
    assert (Hnone : @omap list _ _ _ f l = []) end.
  { clear Hsorted. induction all_players as [|[k t] all_players IH]; [done|].
    cbn [omap list_omap]. rewrite bool_decide_eq_false_2.
    - apply IH. intros k' Hk'. apply Hkeys. by apply list_elem_of_further.
    - intros Hnot. apply Hnot. apply elem_of_list_to_set. apply Hkeys.
      apply list_elem_of_here. }
  rewrite Hnone. apply stable_sort_sorted.
  apply StronglySorted_Sorted. eapply StronglySorted_weaken; [|exact Hsorted].
  intros a b. apply record_leb_le.
Qed.

Lemma fmap_fixed {A} (f : A → A) (l : list A) :
  (∀ x, x ∈ l → f x = x) → f <$> l = l.
Proof.
  induction l as [|x l IH]; intros Hf; [done|]. cbn. rewrite Hf by apply list_elem_of_here.
  f_equal. apply IH. intros y Hy. apply Hf. by apply list_elem_of_further.
Qed.

Lemma standardize_twice (csv_files : list (list Standardizer.record)) :
  Standardizer.standardize_player_lists (Standardizer.standardize_player_lists csv_files)
  = Standardizer.standardize_player_lists csv_files.
Proof.
  destruct csv_files as [|df0 csv_files]; [done|].
  set (files := df0 :: csv_files).
  assert (Hout : Standardizer.standardize_player_lists files
                 = Standardizer.standardize_file (Standardizer.collect files) <$> files)
    by done.
  rewrite Hout.
  set (all_players := Standardizer.collect files) in *.
  set (out := Standardizer.standardize_file all_players <$> files).
  assert (Hne : out ≠ []) by done.
  destruct (collect_spec files) as [Hok Huniv]. fold all_players in Hok, Huniv.
  assert (Hspec : ∀ df', df' ∈ out →
            (∀ k, k ∈ file_keys df' ↔ k ∈ dict_keys all_players)
            ∧ StronglySorted record_le df').
  { intros df' (df & -> & Hdf)%list_elem_of_fmap.
    destruct (standardize_file_spec all_players df Hok) as (Hk & Hs & _); [|done].
    intros k Hk. apply Huniv. by exists df. }
  unfold Standardizer.standardize_player_lists.
  destruct out as [|df1 out'] eqn:Eout; [done|]. rewrite <- Eout in *.
  apply fmap_fixed. intros df' Hdf'. destruct (Hspec df' Hdf') as [Hk Hs].
  apply standardize_file_fixed; [|done].
  intros k Hin. apply Hk.
  apply (proj2 (collect_spec out)) in Hin as (df'' & Hdf'' & Hk'').
  by apply (Hspec df'' Hdf'').
Qed.

(** X23. Standardising files that have been standardised changes nothing:
    after one run every file holds every player and is in order, so a
    second run adds no record and moves none. *)
Theorem standardize_player_lists_idempotent (csv_files : list (list Standardizer.record)) :
  Standardizer.standardize_player_lists (Standardizer.standardize_player_lists csv_files)
  = Standardizer.standardize_player_lists csv_files.
Proof. apply standardize_twice. Qed.
